(** * LLM Council front end: the client state reducer, de-anonymization,
    attachment validation and council editing

  A shallow embedding of the React front end of the council application:
  - [deAnonymizeText] and [getShortName] of [components/Stage2.jsx];
  - the stream callback of [handleSendMessage] in [App.jsx], the client
    state reducer that folds the per-turn event stream into the last
    message of the current conversation;
  - [processFile] and [addImages] of [components/ChatInterface.jsx], with
    the calls of [addImages] that are in flight while the user acts on
    the form;
  - the two versions of [handleRemoveModel] of [components/Settings.jsx].

  JavaScript strings are modelled as [string], arrays as [list], objects
  with a fixed shape as records whose optional properties are [option]s
  ([None] stands for [null] and [undefined]), and an object used as a map
  (the label-to-model map) as the association list that [Object.entries]
  enumerates. *)

From Stdlib Require Import String Ascii List Bool Arith NArith ZArith Lia.
Import ListNotations.
Open Scope string_scope.
Open Scope list_scope.

(* ================================================================== *)
(** * JavaScript string primitives used by the components *)
(* ================================================================== *)

Module JsString.

(** [String.prototype.split] with a one-character separator. *)
Fixpoint split (sep : ascii) (s : string) : list string :=
  match s with
  | EmptyString => [EmptyString]
  | String c s' =>
      if Ascii.eqb c sep then EmptyString :: split sep s'
      else match split sep s' with
           | [] => [String c EmptyString]
           | h :: t => String c h :: t
           end
  end.

(** [drop n s] is [s.slice(n)]. *)
Fixpoint drop (n : nat) (s : string) : string :=
  match n, s with
  | O, _ => s
  | S _, EmptyString => EmptyString
  | S k, String _ s' => drop k s'
  end.

(** [occurs p s]: [p] is a substring of [s] ([s.includes(p)]). *)
Fixpoint occurs (p s : string) : bool :=
  prefix p s ||
  match s with
  | EmptyString => false
  | String _ s' => occurs p s'
  end.

(** [indexOf p s] is [s.indexOf(p)], [None] standing for -1. *)
Fixpoint indexOf (p s : string) : option nat :=
  if prefix p s then Some 0
  else match s with
       | EmptyString => None
       | String _ s' => option_map S (indexOf p s')
       end.

(** The syntax characters of the regular-expression grammar.  A pattern
    text without any of them denotes, in [new RegExp(text, 'g')], the
    search for that text itself. *)
Definition isSyntaxCharacter (c : ascii) : bool :=
  existsb (Ascii.eqb c)
    ["^"; "$"; "\"; "."; "*"; "+"; "?"; "("; ")"; "["; "]"; "{"; "}"; "|"]%char.

Fixpoint allChars (p : ascii -> bool) (s : string) : bool :=
  match s with
  | EmptyString => true
  | String c s' => p c && allChars p s'
  end.

Definition isLiteralPattern (pat : string) : bool :=
  allChars (fun c => negb (isSyntaxCharacter c)) pat.

(** [GetSubstitution] of the language specification for a match without
    capture groups: in the replacement text [$$] stands for a dollar
    sign, [$&] for the matched text, [$`] for the part of the subject
    before the match and [$'] for the part after it; any other dollar
    sign is copied. *)
Fixpoint getSubstitution (matched before after template : string) : string :=
  match template with
  | EmptyString => EmptyString
  | String c t =>
      if Ascii.eqb c "$" then
        match t with
        | EmptyString => String c EmptyString
        | String d t' =>
            if Ascii.eqb d "$" then
              String "$" (getSubstitution matched before after t')
            else if Ascii.eqb d "&" then
              matched ++ getSubstitution matched before after t'
            else if Ascii.eqb d "`" then
              before ++ getSubstitution matched before after t'
            else if Ascii.eqb d "'" then
              after ++ getSubstitution matched before after t'
            else String c (getSubstitution matched before after t)
        end
      else String c (getSubstitution matched before after t)
  end.

(** [s.replace(new RegExp(pat, 'g'), template)] for a pattern text
    [pat] without syntax characters.  The subject is scanned from the
    left; [before] is the part already scanned and [skip] counts the
    characters of the current match still to be passed over.  The empty
    pattern matches at every position, the end included. *)
Fixpoint replaceFrom (pat template before : string) (skip : nat)
    (s : string) {struct s} : string :=
  match skip with
  | S k =>
      match s with
      | EmptyString => EmptyString
      | String c s' =>
          replaceFrom pat template (before ++ String c EmptyString) k s'
      end
  | O =>
      if prefix pat s then
        getSubstitution pat before (drop (String.length pat) s) template ++
        match s with
        | EmptyString => EmptyString
        | String c s' =>
            match pat with
            | EmptyString =>
                String c (replaceFrom pat template
                            (before ++ String c EmptyString) 0 s')
            | String _ pat' =>
                replaceFrom pat template
                  (before ++ String c EmptyString) (String.length pat') s'
            end
        end
      else
        match s with
        | EmptyString => EmptyString
        | String c s' =>
            String c (replaceFrom pat template
                        (before ++ String c EmptyString) 0 s')
        end
  end.

Definition replace (s pat template : string) : string :=
  replaceFrom pat template EmptyString 0 s.

End JsString.

(* ================================================================== *)
(** * Stage2.jsx: de-anonymization *)
(* ================================================================== *)

Module Stage2.

(** The label-to-model map, as [Object.entries] enumerates it. *)
Definition LabelToModel := list (string * string).

(** [model.split('/')[1] || model]: the second segment of the identifier
    when there is one and it is not empty, the identifier otherwise. *)
Definition getShortName (model : string) : string :=
  match nth_error (JsString.split "/" model) 1 with
  | Some (String c s) => String c s
  | _ => model
  end.

(** The replacement text of a model: its short name between the markers
    of bold type. *)
Definition boldName (model : string) : string :=
  "**" ++ getShortName model ++ "**".

(** One iteration of the [forEach] of [deAnonymizeText]. *)
Definition replaceLabel (result : string) (entry : string * string) : string :=
  let '(label, model) := entry in
  JsString.replace result label (boldName model).

Definition deAnonymizeText (text : string) (labelToModel : option LabelToModel)
  : string :=
  match labelToModel with
  | None => text
  | Some entries => fold_left replaceLabel entries text
  end.

End Stage2.

(* ================================================================== *)
(** * App.jsx: the client state reducer *)
(* ================================================================== *)

Module Loading.
(** The [loading] object of an assistant message. *)
Record t := mk { stage1 : bool; stage2 : bool; stage3 : bool }.
Definition set_stage1 (b : bool) (l : t) := mk b (stage2 l) (stage3 l).
Definition set_stage2 (b : bool) (l : t) := mk (stage1 l) b (stage3 l).
Definition set_stage3 (b : bool) (l : t) := mk (stage1 l) (stage2 l) b.
End Loading.

Module Aggregate.
(** One entry of [metadata.aggregate_rankings].  The reducer stores the
    entries and never computes with them; the number [average_rank] is
    kept as the pair of the sum of positions and the count it is the
    quotient of. *)
Record t := mk {
  model : string;
  average_rank : nat * nat;
  rankings_count : nat
}.
End Aggregate.

Module App.

(** The [data] object of an arrival event, which the reducer appends as
    it is to the list of its stage: [{model, response}] in stage 1,
    [{model, ranking, parsed_ranking}] in stage 2, [{model, failed:true}]
    for a failed invocation.  [failed] is the truth value of the
    property. *)
Record ResponseData := mkData {
  model : string;
  failed : bool;
  response : option string;
  ranking : option string;
  parsed_ranking : option (list string)
}.

Record Metadata := mkMetadata {
  label_to_model : option Stage2.LabelToModel;
  aggregate_rankings : option (list Aggregate.t)
}.

(** A message of a conversation.  A user message has [role], [content]
    and possibly [images]; the assistant message that [handleSendMessage]
    creates has the stage properties and the [loading] object; the two
    pending lists appear with the start events.  An assistant message
    loaded from the server need not have a [loading] object. *)
Record Message := mkMessage {
  role : string;
  content : option string;
  images : option (list string);
  stage1 : option (list ResponseData);
  stage2 : option (list ResponseData);
  stage3 : option string;
  metadata : option Metadata;
  loading : option Loading.t;
  stage1PendingModels : option (list string);
  stage2PendingModels : option (list string)
}.

Record Conversation := mkConversation {
  id : string;
  created_at : string;
  messages : list Message
}.

Inductive ConsoleEntry :=
| console_error (label text : string)
| console_log (label text : string).

(** The state of the [App] component that the stream callback reads and
    writes, with the two effects it has besides: the lines written to
    the console and the number of calls of [loadConversations]. *)
Record State := mkState {
  currentConversationId : option string;
  currentConversation : option Conversation;
  isLoading : bool;
  console : list ConsoleEntry;
  loadConversationsCalls : nat
}.

(** The events of the stream, by event type, with the properties of the
    event object that the callback reads. *)
Inductive Event :=
| stage1_start (models : option (list string))
| stage1_response (data : ResponseData)
| stage1_complete (data : list ResponseData)
| stage2_start (models : option (list string)) (meta : option Metadata)
| stage2_response (data : ResponseData)
| stage2_complete (data : list ResponseData) (meta : option Metadata)
| stage3_start
| stage3_complete (data : string)
| title_complete
| complete
| error (message : string)
| unknown (eventType : string).

(** ** Mutation of the last message

    Each updater copies the array of messages and then assigns to the
    properties of its last element in place.  An updater is a program in
    a state monad over that message; reading a property of [undefined]
    throws, and the assignments made before the throw stay in the
    object. *)

Inductive Completion (A : Type) :=
| Normal (a : A)
| Thrown (error : string).
Arguments Normal {A} a.
Arguments Thrown {A} error.

Definition Mut (A : Type) := Message -> Completion A * Message.

Definition ret {A} (a : A) : Mut A := fun m => (Normal a, m).

Definition bind {A B} (c : Mut A) (k : A -> Mut B) : Mut B :=
  fun m =>
    match c m with
    | (Normal a, m') => k a m'
    | (Thrown e, m') => (Thrown e, m')
    end.

Notation "x <- c ;; k" := (bind c (fun x => k))
  (at level 61, c at next level, right associativity).
Notation "c ;; k" := (bind c (fun _ => k))
  (at level 61, right associativity).

Definition read {A} (f : Message -> A) : Mut A := fun m => (Normal (f m), m).
Definition write (f : Message -> Message) : Mut unit :=
  fun m => (Normal tt, f m).

Definition set_stage1 (v : option (list ResponseData)) (m : Message) :=
  mkMessage (role m) (content m) (images m) v (stage2 m) (stage3 m)
    (metadata m) (loading m) (stage1PendingModels m) (stage2PendingModels m).
Definition set_stage2 (v : option (list ResponseData)) (m : Message) :=
  mkMessage (role m) (content m) (images m) (stage1 m) v (stage3 m)
    (metadata m) (loading m) (stage1PendingModels m) (stage2PendingModels m).
Definition set_stage3 (v : option string) (m : Message) :=
  mkMessage (role m) (content m) (images m) (stage1 m) (stage2 m) v
    (metadata m) (loading m) (stage1PendingModels m) (stage2PendingModels m).
Definition set_metadata (v : option Metadata) (m : Message) :=
  mkMessage (role m) (content m) (images m) (stage1 m) (stage2 m) (stage3 m)
    v (loading m) (stage1PendingModels m) (stage2PendingModels m).
Definition set_loading (v : option Loading.t) (m : Message) :=
  mkMessage (role m) (content m) (images m) (stage1 m) (stage2 m) (stage3 m)
    (metadata m) v (stage1PendingModels m) (stage2PendingModels m).
Definition set_stage1PendingModels (v : option (list string)) (m : Message) :=
  mkMessage (role m) (content m) (images m) (stage1 m) (stage2 m) (stage3 m)
    (metadata m) (loading m) v (stage2PendingModels m).
Definition set_stage2PendingModels (v : option (list string)) (m : Message) :=
  mkMessage (role m) (content m) (images m) (stage1 m) (stage2 m) (stage3 m)
    (metadata m) (loading m) (stage1PendingModels m) v.

(** [lastMsg.loading.stageN = b]: a [TypeError] when the message has no
    [loading] object. *)
Definition assignLoading (f : bool -> Loading.t -> Loading.t) (b : bool)
  : Mut unit :=
  fun m =>
    match loading m with
    | None => (Thrown "TypeError: lastMsg.loading is undefined", m)
    | Some l => (Normal tt, set_loading (Some (f b l)) m)
    end.

(** [x || []] *)
Definition orEmpty {A} (x : option (list A)) : list A :=
  match x with Some l => l | None => [] end.

(** [existingModels.includes(modelName)] *)
Definition includes (existingModels : list string) (modelName : string)
  : bool :=
  existsb (String.eqb modelName) existingModels.

(** [pending.filter(m => m !== modelName)] *)
Definition withoutModel (modelName : string) (pending : list string)
  : list string :=
  filter (fun m => negb (String.eqb m modelName)) pending.

Definition on_stage1_start (models : option (list string)) : Mut unit :=
  assignLoading Loading.set_stage1 true ;;
  write (set_stage1 (Some [])) ;;
  write (set_stage1PendingModels (Some (orEmpty models))).

Definition on_stage1_response (data : ResponseData) : Mut unit :=
  let modelName := model data in
  pending <- read stage1PendingModels ;;
  write (set_stage1PendingModels
           (Some (withoutModel modelName (orEmpty pending)))) ;;
  if negb (failed data) then
    current <- read stage1 ;;
    let existingModels := map model (orEmpty current) in
    if negb (includes existingModels modelName) then
      write (set_stage1 (Some (orEmpty current ++ [data])))
    else ret tt
  else ret tt.

Definition on_stage1_complete (data : list ResponseData) : Mut unit :=
  write (set_stage1 (Some data)) ;;
  assignLoading Loading.set_stage1 false ;;
  write (set_stage1PendingModels (Some [])).

(** [{ ...lastMsg.metadata, label_to_model }] *)
Definition spreadLabelToModel (old : option Metadata)
    (ltm : Stage2.LabelToModel) : Metadata :=
  mkMetadata (Some ltm)
    (match old with Some md => aggregate_rankings md | None => None end).

Definition on_stage2_start (models : option (list string))
    (meta : option Metadata) : Mut unit :=
  assignLoading Loading.set_stage2 true ;;
  write (set_stage2 (Some [])) ;;
  write (set_stage2PendingModels (Some (orEmpty models))) ;;
  match meta with
  | Some md =>
      match label_to_model md with
      | Some ltm =>
          old <- read metadata ;;
          write (set_metadata (Some (spreadLabelToModel old ltm)))
      | None => ret tt
      end
  | None => ret tt
  end.

Definition on_stage2_response (data : ResponseData) : Mut unit :=
  let modelName := model data in
  pending <- read stage2PendingModels ;;
  write (set_stage2PendingModels
           (Some (withoutModel modelName (orEmpty pending)))) ;;
  if negb (failed data) then
    current <- read stage2 ;;
    let existingModels := map model (orEmpty current) in
    if negb (includes existingModels modelName) then
      write (set_stage2 (Some (orEmpty current ++ [data])))
    else ret tt
  else ret tt.

Definition on_stage2_complete (data : list ResponseData)
    (meta : option Metadata) : Mut unit :=
  write (set_stage2 (Some data)) ;;
  write (set_metadata meta) ;;
  assignLoading Loading.set_stage2 false ;;
  write (set_stage2PendingModels (Some [])).

Definition on_stage3_start : Mut unit :=
  assignLoading Loading.set_stage3 true.

Definition on_stage3_complete (data : string) : Mut unit :=
  write (set_stage3 (Some data)) ;;
  assignLoading Loading.set_stage3 false.

(** ** The component state *)

Definition set_currentConversation (v : option Conversation) (st : State) :=
  mkState (currentConversationId st) v (isLoading st) (console st)
    (loadConversationsCalls st).
Definition setIsLoading (b : bool) (st : State) :=
  mkState (currentConversationId st) (currentConversation st) b (console st)
    (loadConversationsCalls st).
Definition consoleWrite (e : ConsoleEntry) (st : State) :=
  mkState (currentConversationId st) (currentConversation st) (isLoading st)
    (console st ++ [e]) (loadConversationsCalls st).
Definition loadConversations (st : State) :=
  mkState (currentConversationId st) (currentConversation st) (isLoading st)
    (console st) (S (loadConversationsCalls st)).

(** The result of one call of the stream callback: the next state, or an
    exception thrown by the updater together with the state, in which
    the message object keeps the assignments made before the throw. *)
Inductive Outcome :=
| Done (st : State)
| Crashed (error : string) (st : State).

Definition stateOf (o : Outcome) : State :=
  match o with Done st => st | Crashed _ st => st end.

(** [messages[messages.length - 1]] *)
Definition lastOf (msgs : list Message) : option Message :=
  nth_error msgs (List.length msgs - 1).

(** [setCurrentConversation((prev) => { const messages = [...prev.messages];
    const lastMsg = messages[messages.length - 1]; body;
    return { ...prev, messages }; })] *)
Definition updateLastMsg (body : Mut unit) (st : State) : Outcome :=
  match currentConversation st with
  | None => Crashed "TypeError: prev is null" st
  | Some prev =>
      match lastOf (messages prev) with
      | None => Crashed "TypeError: lastMsg is undefined" st
      | Some lastMsg =>
          let '(c, lastMsg') := body lastMsg in
          let st' :=
            set_currentConversation
              (Some (mkConversation (id prev) (created_at prev)
                       (removelast (messages prev) ++ [lastMsg']))) st in
          match c with
          | Normal _ => Done st'
          | Thrown e => Crashed e st'
          end
      end
  end.

(** The arguments of the call of [handleSendMessage] whose stream
    delivers the event; the callback closes over them. *)
Record Turn := mkTurn {
  conversationId : string;
  turnContent : string;
  turnImages : list string
}.

(** The callback passed to [api.sendMessageStream]. *)
Definition streamCallback (turn : Turn) (event : Event) (st : State)
  : Outcome :=
  match event with
  | stage1_start models => updateLastMsg (on_stage1_start models) st
  | stage1_response data => updateLastMsg (on_stage1_response data) st
  | stage1_complete data => updateLastMsg (on_stage1_complete data) st
  | stage2_start models meta => updateLastMsg (on_stage2_start models meta) st
  | stage2_response data => updateLastMsg (on_stage2_response data) st
  | stage2_complete data meta =>
      updateLastMsg (on_stage2_complete data meta) st
  | stage3_start => updateLastMsg on_stage3_start st
  | stage3_complete data => updateLastMsg (on_stage3_complete data) st
  | title_complete => Done (loadConversations st)
  | complete => Done (setIsLoading false (loadConversations st))
  | error message =>
      Done (setIsLoading false
              (consoleWrite (console_error "Stream error:" message) st))
  | unknown eventType =>
      Done (consoleWrite (console_log "Unknown event type:" eventType) st)
  end.

(** The events of a stream, processed in order until one throws. *)
Fixpoint run (turn : Turn) (events : list Event) (st : State) : Outcome :=
  match events with
  | [] => Done st
  | event :: rest =>
      match streamCallback turn event st with
      | Done st' => run turn rest st'
      | Crashed e st' => Crashed e st'
      end
  end.

(** The beginning of [handleSendMessage], when a conversation is selected
    and loaded: the user message and the partial assistant message are
    added to the conversation. *)
Definition userMessage (turn : Turn) : Message :=
  mkMessage "user" (Some (turnContent turn))
    (match turnImages turn with [] => None | imgs => Some imgs end)
    None None None None None None None.

Definition assistantMessage : Message :=
  mkMessage "assistant" None None None None None None
    (Some (Loading.mk false false false)) None None.

Definition beginTurn (turn : Turn) (st : State) : option State :=
  match currentConversationId st, currentConversation st with
  | Some _, Some prev =>
      Some (set_currentConversation
              (Some (mkConversation (id prev) (created_at prev)
                       ((messages prev ++ [userMessage turn])
                          ++ [assistantMessage])))
              (setIsLoading true st))
  | _, _ => None
  end.

(** What the components read from the state. *)
Definition lastMsgOf (st : State) : option Message :=
  match currentConversation st with
  | Some conv => lastOf (messages conv)
  | None => None
  end.

Definition messagesOf (st : State) : list Message :=
  match currentConversation st with
  | Some conv => messages conv
  | None => []
  end.

End App.

(* ================================================================== *)
(** * ChatInterface.jsx: attachments *)
(* ================================================================== *)

Module ChatInterface.

Open Scope N_scope.

(** Max file size: 10MB *)
Definition MAX_FILE_SIZE : N := 10 * 1024 * 1024.
(** Max images per message *)
Definition MAX_IMAGES : nat := 4.
(** Allowed image types *)
Definition ALLOWED_TYPES : list string :=
  ["image/jpeg"; "image/png"; "image/gif"; "image/webp"].

(** A [File]: its MIME type, its size in bytes, and what a [FileReader]
    makes of it, the data URL or a read error. *)
Record File := mkFile {
  name : string;
  type : string;
  size : N;
  readAsDataURL : option string
}.

Inductive FileError :=
| InvalidFileType (type : string)
| FileTooLarge (size : N)
| FailedToReadFile.

Inductive Alert :=
| MaximumImages
| ErrorMessage (err : FileError).

(** [ALLOWED_TYPES.includes(file.type)] *)
Definition allowedType (t : string) : bool :=
  existsb (String.eqb t) ALLOWED_TYPES.

(** The promise of [processFile], settled: the data URL, or the error it
    is rejected with. *)
Definition processFile (file : File) : string + FileError :=
  if negb (allowedType (type file)) then inr (InvalidFileType (type file))
  else if MAX_FILE_SIZE <? size file then inr (FileTooLarge (size file))
  else match readAsDataURL file with
       | Some dataUrl => inl dataUrl
       | None => inr FailedToReadFile
       end.

(** The loop of [addImages] over the remaining files.  [images] is the
    state variable as the handler sees it, the value of the render that
    created the handler. *)
Fixpoint addImagesLoop (images : list string) (files : list File)
    (newImages : list string) (alerts : list Alert)
  : list string * list Alert :=
  match files with
  | [] => (newImages, alerts)
  | file :: rest =>
      if (MAX_IMAGES <=? List.length images + List.length newImages)%nat
      then (newImages, alerts ++ [MaximumImages])
      else match processFile file with
           | inl dataUrl =>
               addImagesLoop images rest (newImages ++ [dataUrl]) alerts
           | inr err =>
               addImagesLoop images rest newImages
                 (alerts ++ [ErrorMessage err])
           end
  end.

(** The state of the component that the handlers use, with the alerts
    shown so far. *)
Record State := mkState {
  input : string;
  images : list string;
  alerts : list Alert
}.

(** [addImages(files)], called in a render whose state variable is
    [rendered]: the loop runs against [rendered], and the new images, when
    there are any, are appended by the updater [(prev) => [...prev,
    ...newImages]] to the state [prev] of the moment the call settles. *)
Definition addImages (rendered : list string) (files : list File)
    (prev : State) : State :=
  let '(newImages, shown) := addImagesLoop rendered files [] [] in
  mkState (input prev)
    (match newImages with
     | [] => images prev
     | _ => images prev ++ newImages
     end)
    (alerts prev ++ shown).

(** [handleFileSelect]: the files of the input, when there are any, with
    the call of [addImages] run to its end before anything else happens
    to the form.  The call is asynchronous; [step] below follows it from
    one read of a file to the next, with what can happen in between. *)
Definition handleFileSelect (files : list File) (st : State) : State :=
  match files with
  | [] => st
  | _ => addImages (images st) files st
  end.

(** An item of the clipboard: its type, and the file that [getAsFile]
    gives, if any. *)
Record ClipboardItem := mkItem {
  itemType : string;
  getAsFile : option File
}.

(** The loop of [handlePaste]: the files of the items whose type starts
    with [image/]. *)
Fixpoint pastedFiles (items : list ClipboardItem) : list File :=
  match items with
  | [] => []
  | item :: rest =>
      if prefix "image/" (itemType item) then
        match getAsFile item with
        | Some file => file :: pastedFiles rest
        | None => pastedFiles rest
        end
      else pastedFiles rest
  end.

(** [handlePaste], with the call of [addImages] run to its end as in
    [handleFileSelect]. *)
Definition handlePaste (items : list ClipboardItem) (st : State) : State :=
  match pastedFiles items with
  | [] => st
  | imageFiles => addImages (images st) imageFiles st
  end.

(** [images.filter((_, i) => i !== index)] *)
Fixpoint removeAt {A} (index : nat) (l : list A) : list A :=
  match l, index with
  | [], _ => []
  | _ :: t, O => t
  | h :: t, S i => h :: removeAt i t
  end.

Definition removeImage (index : nat) (st : State) : State :=
  mkState (input st) (removeAt index (images st)) (alerts st).

(** The white space that [trim] removes, among the characters of one
    byte. *)
Definition isWhiteSpace (c : ascii) : bool :=
  let n := nat_of_ascii c in
  ((9 <=? n) && (n <=? 13) || (n =? 32) || (n =? 160))%nat.

(** [input.trim()] is the empty string. *)
Definition isBlank (s : string) : bool := JsString.allChars isWhiteSpace s.

(** [handleSubmit]: the message handed to [onSendMessage], if any, and
    the state after it. *)
Definition handleSubmit (isLoading : bool) (st : State)
  : option (string * list string) * State :=
  if (negb (isBlank (input st)) || (0 <? List.length (images st))%nat)
     && negb isLoading
  then (Some (input st, images st), mkState "" [] (alerts st))
  else (None, st).

(** ** The calls of [addImages] in flight

    [addImages] is asynchronous: it waits for the promise of
    [processFile] at each file, and the handlers do not wait for it.  A
    promise rejected for the type or the size of the file is settled
    before anything else can happen to the form; for the other files the
    call waits until the reader has read the file, and in the meantime
    the user can act on the form and start further calls.  [images] in
    the loop is the state variable of the render that created the handler,
    whatever has happened to the form since. *)

(** The checks that [processFile] makes before it starts a reader. *)
Definition rejectedAtOnce (file : File) : option FileError :=
  if negb (allowedType (type file)) then Some (InvalidFileType (type file))
  else if MAX_FILE_SIZE <? size file then Some (FileTooLarge (size file))
  else None.

(** A call suspended at [await processFile(file)] while the reader reads
    [reading]: [rendered] is [images] as the call sees it, [remaining]
    the files after [reading], [newImages] the data URLs collected so
    far. *)
Record Call := mkCall {
  rendered : list string;
  reading : File;
  remaining : list File;
  newImages : list string
}.

Inductive Progress :=
| Suspended (c : Call)
| Settled (newImages : list string).

(** The loop from the top of an iteration to the next file that a reader
    has to read, or to its end, with the alerts shown on the way. *)
Fixpoint untilRead (rendered : list string) (files : list File)
    (newImages : list string) (shown : list Alert)
  : Progress * list Alert :=
  match files with
  | [] => (Settled newImages, shown)
  | file :: rest =>
      if (MAX_IMAGES <=? List.length rendered + List.length newImages)%nat
      then (Settled newImages, shown ++ [MaximumImages])
      else match rejectedAtOnce file with
           | Some err =>
               untilRead rendered rest newImages (shown ++ [ErrorMessage err])
           | None => (Suspended (mkCall rendered file rest newImages), shown)
           end
  end.

(** The reader of a suspended call has finished, with [onload] or with
    [onerror]: the call goes on to the next read or to its end. *)
Definition readerDone (c : Call) : Progress * list Alert :=
  match readAsDataURL (reading c) with
  | Some dataUrl =>
      untilRead (rendered c) (remaining c) (newImages c ++ [dataUrl]) []
  | None =>
      untilRead (rendered c) (remaining c) (newImages c)
        [ErrorMessage FailedToReadFile]
  end.

(** What a call that has got on does to the form: its alerts are shown;
    when it has settled with new images, they are appended by the updater
    [(prev) => [...prev, ...newImages]] to the images of that moment. *)
Definition proceed (p : Progress * list Alert) (st : State)
  : State * list Call :=
  let '(progress, shown) := p in
  match progress with
  | Suspended c =>
      (mkState (input st) (images st) (alerts st ++ shown), [c])
  | Settled newImages =>
      (mkState (input st)
         (match newImages with
          | [] => images st
          | _ => images st ++ newImages
          end)
         (alerts st ++ shown), [])
  end.

(** The form together with the calls in flight. *)
Record FormCalls := mkFormCalls {
  form : State;
  calls : list Call
}.

(** [addImages(files)] is called: the loop runs against the images of the
    render, up to its first read. *)
Definition startAddImages (files : list File) (fc : FormCalls) : FormCalls :=
  let '(st, started) :=
    proceed (untilRead (images (form fc)) files [] []) (form fc) in
  mkFormCalls st (calls fc ++ started).

(** The reader of the call at position [k] among the calls in flight
    finishes. *)
Definition resume (k : nat) (fc : FormCalls) : FormCalls :=
  match nth_error (calls fc) k with
  | None => fc
  | Some c =>
      let '(st, continued) := proceed (readerDone c) (form fc) in
      mkFormCalls st (firstn k (calls fc) ++ continued ++ skipn (S k) (calls fc))
  end.

(** What happens to the form: the actions of the user, and the end of a
    read. *)
Inductive Action :=
| Type_ (text : string)
| FileSelect (files : list File)
| Paste (items : list ClipboardItem)
| ReaderDone (call : nat)
| RemoveImage (index : nat)
| Submit (isLoading : bool).

Definition onForm (f : State -> State) (fc : FormCalls) : FormCalls :=
  mkFormCalls (f (form fc)) (calls fc).

Definition step (a : Action) (fc : FormCalls)
  : option (string * list string) * FormCalls :=
  match a with
  | Type_ text =>
      (None, onForm (fun st => mkState text (images st) (alerts st)) fc)
  | FileSelect files =>
      (None, match files with [] => fc | _ => startAddImages files fc end)
  | Paste items =>
      (None, match pastedFiles items with
             | [] => fc
             | imageFiles => startAddImages imageFiles fc
             end)
  | ReaderDone k => (None, resume k fc)
  | RemoveImage index => (None, onForm (removeImage index) fc)
  | Submit isLoading =>
      let '(sent, st) := handleSubmit isLoading (form fc) in
      (sent, mkFormCalls st (calls fc))
  end.

(** The form after a sequence of actions. *)
Definition after (actions : list Action) (fc : FormCalls) : FormCalls :=
  fold_left (fun fc' a => snd (step a fc')) actions fc.

(** The messages dispatched by a sequence of actions. *)
Fixpoint dispatchedFrom (actions : list Action) (fc : FormCalls)
  : list (string * list string) :=
  match actions with
  | [] => []
  | a :: rest =>
      let '(sent, fc') := step a fc in
      match sent with
      | Some msg => msg :: dispatchedFrom rest fc'
      | None => dispatchedFrom rest fc'
      end
  end.

(** The messages dispatched from a form without a call in flight. *)
Definition dispatched (actions : list Action) (st : State)
  : list (string * list string) :=
  dispatchedFrom actions (mkFormCalls st []).

Definition initial : State := mkState "" [] [].

(** The files that a sequence of actions offers to the form. *)
Fixpoint offered (actions : list Action) : list File :=
  match actions with
  | [] => []
  | FileSelect files :: rest => files ++ offered rest
  | Paste items :: rest => pastedFiles items ++ offered rest
  | _ :: rest => offered rest
  end.

(** [url] is the data URL of one of the files, a file of an allowed type
    and of at most the maximal size. *)
Definition validatedUrl (files : list File) (url : string) : Prop :=
  exists file,
    In file files
    /\ In (type file) ALLOWED_TYPES
    /\ size file <= MAX_FILE_SIZE
    /\ readAsDataURL file = Some url.

(** The invariant of the form: at most [MAX_IMAGES] images, each the data
    URL of a validated file among [files]. *)
Definition attachmentsValid (files : list File) (st : State) : Prop :=
  (List.length (images st) <= MAX_IMAGES)%nat
  /\ forall url, In url (images st) -> validatedUrl files url.

(** The images of the form and of the calls in flight are data URLs of
    validated files among [files], and the calls read files among
    [files] that have passed the checks of the type and of the size. *)
Definition allValidated (files : list File) (fc : FormCalls) : Prop :=
  (forall url, In url (images (form fc)) -> validatedUrl files url)
  /\ forall c, In c (calls fc) ->
       In (reading c) files
       /\ incl (remaining c) files
       /\ rejectedAtOnce (reading c) = None
       /\ forall url, In url (newImages c) -> validatedUrl files url.

(** The files of the examples. *)
Definition pasted (file : File) : ClipboardItem :=
  mkItem (type file) (Some file).
Definition png (n : string) : File :=
  mkFile n "image/png" 2048 (Some ("data:image/png;base64," ++ n)%string).
Definition pdf : File :=
  mkFile "notes.pdf" "application/pdf" 2048 (Some "data:application/pdf").
Definition hugeJpeg : File :=
  mkFile "huge.jpg" "image/jpeg" (MAX_FILE_SIZE + 1) (Some "data:image/jpeg").

(** Three images are selected and three more are pasted before the first
    of them has been read; the six reads finish, and the form is
    submitted. *)
Definition overlappingCalls : list Action :=
  [FileSelect [png "a"; png "b"; png "c"];
   Paste [pasted (png "d"); pasted (png "e"); pasted (png "f")];
   ReaderDone 0; ReaderDone 0; ReaderDone 0;
   ReaderDone 0; ReaderDone 0; ReaderDone 0;
   Submit false].

(** The same files, the second call made when the first has settled. *)
Definition callsInTurn : list Action :=
  [FileSelect [png "a"; png "b"; png "c"];
   ReaderDone 0; ReaderDone 0; ReaderDone 0;
   Paste [pasted (png "d"); pasted (png "e"); pasted (png "f")];
   ReaderDone 0; ReaderDone 0; ReaderDone 0;
   Submit false].

End ChatInterface.

(* ================================================================== *)
(** * Settings.jsx: editing the council *)
(* ================================================================== *)

Module Settings.

(** The configuration being edited; [chairman_model] is [None] when the
    property holds [undefined]. *)
Record Config := mkConfig {
  council_models : list string;
  chairman_model : option string;
  default_reasoning_effort : option string
}.

Record State := mkState {
  config : Config;
  error : option string
}.

(** [config.chairman_model === model] *)
Definition isChairman (c : Config) (model : string) : bool :=
  match chairman_model c with
  | Some ch => String.eqb ch model
  | None => false
  end.

(** [config.council_models.filter((m) => m !== model)] *)
Definition withoutModel (model : string) (models : list string) : list string :=
  filter (fun m => negb (String.eqb m model)) models.

(** [handleRemoveModel] of the settings menu (the first version of the
    component): a removed chairman is replaced by the first of the
    remaining models. *)
Definition handleRemoveModel (model : string) (st : State) : State :=
  let c := config st in
  if (1 <? List.length (council_models c))%nat then
    let nextModels := withoutModel model (council_models c) in
    mkState
      (mkConfig nextModels
         (if isChairman c model then nth_error nextModels 0
          else chairman_model c)
         (default_reasoning_effort c))
      (error st)
  else mkState c (Some "At least one council model is required").

End Settings.

Module SettingsOverlay.

Import Settings.

(** [handleRemoveModel] of the settings overlay (the second version of the
    component): a removed chairman is replaced by the first model of the
    list as it was before the removal. *)
Definition handleRemoveModel (model : string) (st : State) : State :=
  let c := config st in
  if (1 <? List.length (council_models c))%nat then
    mkState
      (mkConfig (withoutModel model (council_models c))
         (if isChairman c model then nth_error (council_models c) 0
          else chairman_model c)
         (default_reasoning_effort c))
      (error st)
  else mkState c (Some "At least one council model is required").

End SettingsOverlay.

(** The configurations of the examples. *)
Definition twoModels : Settings.State :=
  Settings.mkState
    (Settings.mkConfig ["openai/gpt-4o"; "anthropic/claude"]
       (Some "openai/gpt-4o") None)
    None.

Definition oneModel : Settings.State :=
  Settings.mkState
    (Settings.mkConfig ["openai/gpt-4o"] (Some "openai/gpt-4o") None) None.

(** The chairman is one of the council models. *)
Definition chairmanInCouncil (c : Settings.Config) : Prop :=
  exists ch, Settings.chairman_model c = Some ch
             /\ In ch (Settings.council_models c).

(* ================================================================== *)
(** * Vocabulary of the statements *)
(* ================================================================== *)

Module Text.

Import JsString.

Definition notStar (c : ascii) : bool := negb (Ascii.eqb c "*").
Definition notDollar (c : ascii) : bool := negb (Ascii.eqb c "$").

(** A text without an asterisk, a text without a dollar sign. *)
Definition starFree (s : string) : bool := allChars notStar s.
Definition dollarFree (s : string) : bool := allChars notDollar s.

(** The scan of [replaceFrom] when every match is replaced by the same
    text [r]. *)
Fixpoint scan (pat r : string) (skip : nat) (s : string) {struct s}
  : string :=
  match skip with
  | S k =>
      match s with
      | EmptyString => EmptyString
      | String _ s' => scan pat r k s'
      end
  | O =>
      if prefix pat s then
        r ++
        match s with
        | EmptyString => EmptyString
        | String c s' =>
            match pat with
            | EmptyString => String c (scan pat r 0 s')
            | String _ pat' => scan pat r (String.length pat') s'
            end
        end
      else
        match s with
        | EmptyString => EmptyString
        | String c s' => String c (scan pat r 0 s')
        end
  end.

(** A label that [new RegExp(label, 'g')] searches for as it is written:
    not empty and without syntax characters. *)
Definition literalLabel (label : string) : bool :=
  negb (String.eqb label "") && isLiteralPattern label.

(** No label of [labels] occurs in [s]. *)
Definition labelFree (labels : list string) (s : string) : bool :=
  forallb (fun label => negb (occurs label s)) labels.

(** An entry whose label is literal and whose short name has no dollar
    sign and contains none of the labels. *)
Definition plainEntry (labels : list string) (entry : string * string)
  : bool :=
  literalLabel (fst entry)
  && dollarFree (Stage2.getShortName (snd entry))
  && labelFree labels (Stage2.getShortName (snd entry)).

Definition plainMap (entries : Stage2.LabelToModel) : bool :=
  forallb (plainEntry (map fst entries)) entries.

(** The map is absent, or it is a plain one. *)
Definition plainLabelToModel (labelToModel : option Stage2.LabelToModel)
  : bool :=
  match labelToModel with
  | None => true
  | Some entries => plainMap entries
  end.

(** Two texts that can begin at the same place of a text: one of them
    begins with the other. *)
Definition agree (x y : string) : bool := prefix x y || prefix y x.

(** An occurrence of [y] can begin inside an occurrence of [x], at one of
    the positions of [x] from [from] on. *)
Definition overlaps (from : nat) (x y : string) : bool :=
  existsb (fun i => agree (drop i x) y) (seq from (String.length x - from)).

(** Labels whose occurrences cannot overlap: no occurrence of a label can
    begin inside an occurrence of another label, nor inside an occurrence
    of the same label after its first character. *)
Definition separateLabels (labels : list string) : bool :=
  forallb
    (fun x =>
       forallb
         (fun y => negb (overlaps (if String.eqb x y then 1 else 0) x y))
         labels)
    labels.

(** The maps of the examples: the labels of a turn with two answers, and
    maps in which a short name contains a label. *)
Definition twoAnswers : Stage2.LabelToModel :=
  [("Response A", "openai/gpt-4o"); ("Response B", "mistral")].

Definition nameHoldsOwnLabel : Stage2.LabelToModel :=
  [("Response A", "lab/Response A-mini")].

Definition nameHoldsLaterLabel : Stage2.LabelToModel :=
  [("Response B", "lab/Response A-tuned"); ("Response A", "openai/gpt-4o")].

(** Maps whose labels can overlap: two labels in the text [ABC], and a
    label that overlaps itself in the text [aaa]. *)
Definition overlappingLabels : Stage2.LabelToModel :=
  [("AB", "lab/one"); ("BC", "lab/two")].

Definition selfOverlappingLabel : Stage2.LabelToModel :=
  [("aa", "lab/one")].

End Text.

Module View.

Import App.

(** The state in which the last message of the conversation is [m']. *)
Definition withLastMsg (m' : Message) (st : State) : State :=
  set_currentConversation
    (option_map
       (fun prev => mkConversation (id prev) (created_at prev)
                      (removelast (messages prev) ++ [m']))
       (currentConversation st))
    st.

(** What [ChatInterface] renders of the last message: [msg.stage1 || []],
    [msg.stage1PendingModels || []] and the same for stage 2. *)
Definition ofLastMsg {A} (f : Message -> option (list A)) (st : State)
  : list A :=
  match lastMsgOf st with
  | Some m => orEmpty (f m)
  | None => []
  end.

Definition stage1Of := ofLastMsg stage1.
Definition stage2Of := ofLastMsg stage2.
Definition pending1Of := ofLastMsg stage1PendingModels.
Definition pending2Of := ofLastMsg stage2PendingModels.

(** The number of entries of a list of a stage that carry the model. *)
Definition entriesFor (modelName : string) (l : list ResponseData) : nat :=
  count_occ string_dec (map model l) modelName.

(** The list of a stage after an arrival event with the data [d]: the
    data is appended when the invocation did not fail and no entry of the
    list carries its model. *)
Definition appendOnce (l : list ResponseData) (d : ResponseData)
  : list ResponseData :=
  if negb (failed d) && negb (includes (map model l) (model d))
  then l ++ [d] else l.


Definition isStage1Start (e : Event) : bool :=
  match e with stage1_start _ => true | _ => false end.
Definition isStage2Start (e : Event) : bool :=
  match e with stage2_start _ _ => true | _ => false end.
Definition isStage1Complete (e : Event) : bool :=
  match e with stage1_complete _ => true | _ => false end.
Definition isStage2Complete (e : Event) : bool :=
  match e with stage2_complete _ _ => true | _ => false end.

(** The updater of an event that assigns to the last message. *)
Definition bodyOf (e : Event) : option (Mut unit) :=
  match e with
  | stage1_start models => Some (on_stage1_start models)
  | stage1_response data => Some (on_stage1_response data)
  | stage1_complete data => Some (on_stage1_complete data)
  | stage2_start models meta => Some (on_stage2_start models meta)
  | stage2_response data => Some (on_stage2_response data)
  | stage2_complete data meta => Some (on_stage2_complete data meta)
  | stage3_start => Some on_stage3_start
  | stage3_complete data => Some (on_stage3_complete data)
  | title_complete | complete | error _ | unknown _ => None
  end.

(** The states and events of the examples. *)
Definition emptyConversation : State :=
  mkState (Some "c1") (Some (mkConversation "c1" "2025-01-01" [])) false [] 0.

Definition firstTurn : Turn := mkTurn "c1" "first question" [].

Definition answer (modelName text : string) : ResponseData :=
  mkData modelName false (Some text) None None.
Definition critique (modelName text : string) : ResponseData :=
  mkData modelName false None (Some text) (Some ["Response A"]).
Definition failure (modelName : string) : ResponseData :=
  mkData modelName true None None None.

(** The state at the beginning of a first turn. *)
Definition freshTurn : State :=
  match beginTurn firstTurn emptyConversation with
  | Some st => st
  | None => emptyConversation
  end.

(** A turn that has streamed one answer of stage 1. *)
Definition oneAnswerStreamed : State :=
  stateOf (run firstTurn
             [stage1_start (Some ["m1"; "m2"]);
              stage1_response (answer "m1" "hello")] freshTurn).

(** A turn with three models dispatched, one of which has answered. *)
Definition twoModelsPending : State :=
  stateOf (run firstTurn
             [stage1_start (Some ["m1"; "m2"; "m3"]);
              stage1_response (answer "m1" "hello")] freshTurn).

End View.

(* ================================================================== *)
(** * More of the components *)
(* ================================================================== *)

Module JsTrim.

(** A text without the character [sep]. *)
Definition sepFree (sep : ascii) (s : string) : bool :=
  JsString.allChars (fun c => negb (Ascii.eqb c sep)) s.

(** [String.prototype.trim], for the white space among the characters of
    one byte. *)
Fixpoint trimStart (s : string) : string :=
  match s with
  | EmptyString => EmptyString
  | String c s' => if ChatInterface.isWhiteSpace c then trimStart s' else s
  end.

Fixpoint trimEnd (s : string) : string :=
  match s with
  | EmptyString => EmptyString
  | String c s' =>
      match trimEnd s' with
      | EmptyString =>
          if ChatInterface.isWhiteSpace c then EmptyString
          else String c EmptyString
      | t => String c t
      end
  end.

Definition trim (s : string) : string := trimEnd (trimStart s).

End JsTrim.

(** Stage1.jsx and Stage2.jsx: the tab shown.  The two components keep the
    index of the active tab in the same way; [n] is the number of
    responses, or of rankings. *)
Module Tabs.

Open Scope Z_scope.

(** The effect that runs when the number of items or the active tab
    changes: the value that [activeTab] has after it. *)
Definition ensureActiveTab (activeTab : Z) (n : nat) : Z :=
  if (n =? 0)%nat then 0
  else if Z.of_nat n <=? activeTab then Z.of_nat n - 1
  else activeTab.

(** [Math.min(activeTab, Math.max(0, items.length - 1))] *)
Definition safeActiveTab (activeTab : Z) (n : nat) : Z :=
  Z.min activeTab (Z.max 0 (Z.of_nat n - 1)).

(** [items[index]], [None] for [undefined]. *)
Definition at_ {A} (items : list A) (index : Z) : option A :=
  if index <? 0 then None else nth_error items (Z.to_nat index).

(** [currentResponse] and [currentRanking]. *)
Definition current {A} (items : list A) (activeTab : Z) : option A :=
  at_ items (safeActiveTab activeTab (List.length items)).

(** The component renders nothing:
    [(!items || items.length === 0) && pendingModels.length === 0]. *)
Definition rendersNothing {A} (items : list A) (pendingModels : list string)
  : bool :=
  (List.length items =? 0)%nat && (List.length pendingModels =? 0)%nat.

End Tabs.

(** App.jsx: the selection of a conversation. *)
Module Navigation.

Import App View.






End Navigation.

(** ChatInterface.jsx: what is rendered of a message and of the form. *)
Module ChatView.

Import App.

(** [msg.stage1?.length > 0 || msg.stage1PendingModels?.length > 0]: the
    component of the stage is mounted, with [msg.stage1 || []] and
    [msg.stage1PendingModels || []]. *)
Definition mountsStage (items : option (list ResponseData))
    (pending : option (list string)) : bool :=
  (0 <? List.length (orEmpty items))%nat
  || (0 <? List.length (orEmpty pending))%nat.

Definition mountsStage1 (msg : Message) : bool :=
  mountsStage (stage1 msg) (stage1PendingModels msg).
Definition mountsStage2 (msg : Message) : bool :=
  mountsStage (stage2 msg) (stage2PendingModels msg).

(** [conversation.messages.length === 0]: the input form is rendered. *)
Definition formRendered (st : State) : bool :=
  match currentConversation st with
  | Some conv => (List.length (messages conv) =? 0)%nat
  | None => false
  end.

(** The [disabled] property of the send button:
    [(!input.trim() && images.length === 0) || isLoading]. *)
Definition sendDisabled (isLoading : bool) (st : ChatInterface.State) : bool :=
  (ChatInterface.isBlank (ChatInterface.input st)
   && (List.length (ChatInterface.images st) =? 0)%nat)
  || isLoading.

(** [msg.metadata?.label_to_model], the map handed to [Stage2]. *)
Definition labelToModelOf (st : State) : option Stage2.LabelToModel :=
  match lastMsgOf st with
  | Some msg =>
      match metadata msg with
      | Some md => label_to_model md
      | None => None
      end
  | None => None
  end.

(** [msg.loading?.stage1 && !msg.stage1?.length]: the spinner of a stage
    is shown. *)
Definition showsLoading (flag : option bool)
    (items : option (list ResponseData)) : bool :=
  match flag with
  | Some true => (List.length (orEmpty items) =? 0)%nat
  | _ => false
  end.

Definition showsStage1Loading (msg : Message) : bool :=
  showsLoading (option_map Loading.stage1 (loading msg)) (stage1 msg).
Definition showsStage2Loading (msg : Message) : bool :=
  showsLoading (option_map Loading.stage2 (loading msg)) (stage2 msg).

End ChatView.

(** App.jsx: the [catch] of [handleSendMessage]. *)
Module SendFailure.

Import App.

(** [messages.slice(0, -2)] *)
Definition sliceOffTwo (msgs : list Message) : list Message :=
  firstn (List.length msgs - 2) msgs.

(** The error is logged, the two optimistic messages are removed and
    [isLoading] is cleared; without a conversation the updater throws. *)
Definition removeOptimisticMessages (errorText : string) (st : State)
  : Outcome :=
  let st1 := consoleWrite (console_error "Failed to send message:" errorText)
               st in
  match currentConversation st1 with
  | None => Crashed "TypeError: prev is null" st1
  | Some prev =>
      Done (setIsLoading false
              (set_currentConversation
                 (Some (mkConversation (id prev) (created_at prev)
                          (sliceOffTwo (messages prev)))) st1))
  end.

(** The events of a turn in the order of the protocol, with the arrival
    events of the two stages. *)
Definition turnEvents (models1 : option (list string))
    (arrivals1 data1 : list ResponseData) (models2 : option (list string))
    (meta1 : option Metadata) (arrivals2 data2 : list ResponseData)
    (meta2 : option Metadata) (answer : string) : list Event :=
  (stage1_start models1 :: map stage1_response arrivals1)
  ++ (stage1_complete data1 :: stage2_start models2 meta1
        :: map stage2_response arrivals2)
  ++ [stage2_complete data2 meta2; stage3_start; stage3_complete answer;
      title_complete; complete].

End SendFailure.

(** Settings.jsx: the other handlers of the form. *)
Module SettingsForm.

Import Settings.

(** The state of the form: that of [Settings] and the text of the input
    for a new model. *)
Record Form := mkForm {
  state : State;
  newModel : string
}.

(** [config.council_models.includes(trimmed)] *)
Definition includes (models : list string) (x : string) : bool :=
  existsb (String.eqb x) models.

(** [handleAddModel] of the settings menu. *)
Definition handleAddModel (f : Form) : Form :=
  let c := config (state f) in
  let trimmed := JsTrim.trim (newModel f) in
  if negb (String.eqb trimmed "") && negb (includes (council_models c) trimmed)
  then
    mkForm
      (mkState
         (mkConfig (council_models c ++ [trimmed]) (chairman_model c)
            (default_reasoning_effort c))
         (error (state f)))
      ""
  else f.

(** [handleAddModel] of the settings overlay, which trims the text anew
    at each use. *)
Definition handleAddModelOverlay (f : Form) : Form :=
  let c := config (state f) in
  if negb (String.eqb (JsTrim.trim (newModel f)) "")
     && negb (includes (council_models c) (JsTrim.trim (newModel f)))
  then
    mkForm
      (mkState
         (mkConfig (council_models c ++ [JsTrim.trim (newModel f)])
            (chairman_model c) (default_reasoning_effort c))
         (error (state f)))
      ""
  else f.

(** The chairman select: [setConfig({ ...config, chairman_model: value })]. *)
Definition handleChairmanChange (value : string) (st : State) : State :=
  mkState
    (mkConfig (council_models (config st)) (Some value)
       (default_reasoning_effort (config st)))
    (error st).

(** The value of the effort select: [config.default_reasoning_effort ||
    'none']. *)
Definition effortValue (c : Config) : string :=
  match default_reasoning_effort c with
  | Some (String a v) => String a v
  | _ => "none"
  end.

(** The effort select: [value === 'none' ? null : value]. *)
Definition handleEffortChange (value : string) (st : State) : State :=
  mkState
    (mkConfig (council_models (config st)) (chairman_model (config st))
       (if String.eqb value "none" then None else Some value))
    (error st).

(** What the user does with the settings menu.  The chairman select
    offers the council models, one option each, and the effort select its
    four options. *)
Inductive Edit :=
| TypeModel (text : string)
| AddModel
| RemoveModel (model : string)
| PickChairman (option_ : nat)
| PickEffort (value : string).

Definition edit (e : Edit) (f : Form) : Form :=
  match e with
  | TypeModel text => mkForm (state f) text
  | AddModel => handleAddModel f
  | RemoveModel model => mkForm (handleRemoveModel model (state f)) (newModel f)
  | PickChairman i =>
      match nth_error (council_models (config (state f))) i with
      | Some value => mkForm (handleChairmanChange value (state f)) (newModel f)
      | None => f
      end
  | PickEffort value => mkForm (handleEffortChange value (state f)) (newModel f)
  end.

Definition edits (es : list Edit) (f : Form) : Form :=
  fold_left (fun g e => edit e g) es f.

(** A configuration as the form expects it: distinct models, at least one,
    and a chairman among them. *)
Definition wellFormed (c : Config) : Prop :=
  NoDup (council_models c)
  /\ council_models c <> []
  /\ chairmanInCouncil c.

End SettingsForm.

(** ChatInterface.jsx: the files that [processFile] accepts. *)
Module Accepted.

Import ChatInterface.

(** The data URLs of the files of a batch that [processFile] resolves, in
    the order of the files. *)
Fixpoint accepted (files : list File) : list string :=
  match files with
  | [] => []
  | file :: rest =>
      match processFile file with
      | inl dataUrl => dataUrl :: accepted rest
      | inr _ => accepted rest
      end
  end.

(** The number of [Submit] actions of a sequence made while nothing is
    loading. *)
Fixpoint submitsWhileIdle (actions : list Action) : nat :=
  match actions with
  | [] => 0
  | Submit false :: rest => S (submitsWhileIdle rest)
  | _ :: rest => submitsWhileIdle rest
  end.

End Accepted.

(* ================================================================== *)
(** * Facts about the string primitives *)
(* ================================================================== *)

Section StringFacts.

Import JsString Text.
Local Open Scope string_scope.

Lemma prefix_nil (s : string) : prefix "" s = true.
Proof. destruct s; reflexivity. Qed.

Lemma prefix_cons (a b : ascii) (p s : string) :
  prefix (String a p) (String b s) = true <-> a = b /\ prefix p s = true.
Proof.
  simpl. destruct (ascii_dec a b) as [e | n].
  - split; [intros H; split; assumption | intros [_ H]; exact H].
  - split; [discriminate | intros [e _]; contradiction].
Qed.

Lemma prefix_app (p a b : string) :
  prefix p a = true -> prefix p (a ++ b) = true.
Proof.
  revert a. induction p as [| c p IH]; intros a H.
  - apply prefix_nil.
  - destruct a as [| x a]; [discriminate |].
    apply prefix_cons in H. destruct H as [-> H].
    change (String x a ++ b) with (String x (a ++ b)).
    apply prefix_cons. split; [reflexivity | apply IH, H].
Qed.

Lemma prefix_self_app (p b : string) : prefix p (p ++ b) = true.
Proof.
  induction p as [| c p IH]; [apply prefix_nil |].
  change (String c p ++ b) with (String c (p ++ b)).
  apply prefix_cons. split; [reflexivity | exact IH].
Qed.

Lemma occurs_unfold (p s : string) :
  occurs p s =
  prefix p s || match s with
                | EmptyString => false
                | String _ s' => occurs p s'
                end.
Proof. destruct s; reflexivity. Qed.

Lemma occurs_cons (p : string) (c : ascii) (s : string) :
  occurs p (String c s) = true <->
  prefix p (String c s) = true \/ occurs p s = true.
Proof. rewrite occurs_unfold. apply orb_true_iff. Qed.

Lemma occurs_cons_false (p : string) (c : ascii) (s : string) :
  occurs p (String c s) = false ->
  prefix p (String c s) = false /\ occurs p s = false.
Proof. rewrite occurs_unfold. apply orb_false_iff. Qed.

Lemma occurs_empty (p : string) : occurs p "" = prefix p "".
Proof. simpl. apply orb_false_r. Qed.

Lemma occurs_prefix (p s : string) : prefix p s = true -> occurs p s = true.
Proof. intros H. rewrite occurs_unfold, H. reflexivity. Qed.

Lemma occurs_app_r (p a b : string) :
  occurs p b = true -> occurs p (a ++ b) = true.
Proof.
  intros H. induction a as [| c a IH]; [exact H |].
  change (String c a ++ b) with (String c (a ++ b)).
  apply occurs_cons. right. exact IH.
Qed.

Lemma occurs_app_l (p a b : string) :
  occurs p a = true -> occurs p (a ++ b) = true.
Proof.
  induction a as [| c a IH]; intros H.
  - rewrite occurs_empty in H. apply occurs_prefix.
    apply (prefix_app p "" b H).
  - change (String c a ++ b) with (String c (a ++ b)).
    apply occurs_cons. apply occurs_cons in H. destruct H as [H | H].
    + left. apply (prefix_app p (String c a) b H).
    + right. apply IH, H.
Qed.

(** A text without asterisks cannot reach across an asterisk. *)
Lemma prefix_before_star (p a b : string) :
  starFree p = true -> prefix p (a ++ String "*" b) = true ->
  prefix p a = true.
Proof.
  revert a. induction p as [| c p IH]; intros a Hp H.
  - apply prefix_nil.
  - simpl in Hp. apply andb_true_iff in Hp. destruct Hp as [Hc Hp].
    destruct a as [| x a].
    + simpl in H. destruct (ascii_dec c "*") as [-> | n];
        [discriminate Hc | discriminate H].
    + change (String x a ++ String "*" b)
        with (String x (a ++ String "*" b)) in H.
      apply prefix_cons in H. destruct H as [-> H].
      apply prefix_cons. split; [reflexivity | apply IH; assumption].
Qed.

Lemma prefix_star_head (p b : string) :
  starFree p = true -> prefix p (String "*" b) = true -> p = "".
Proof.
  intros Hp H. destruct p as [| c p]; [reflexivity |].
  pose proof (prefix_before_star (String c p) "" b Hp H) as E.
  discriminate E.
Qed.

Lemma occurs_across_star (p a b : string) :
  starFree p = true -> p <> "" ->
  occurs p (a ++ String "*" b) = true ->
  occurs p a = true \/ occurs p b = true.
Proof.
  intros Hp Hne. induction a as [| x a IH]; intros H.
  - simpl append in H. apply occurs_cons in H. destruct H as [H | H].
    + apply prefix_star_head in H; [contradiction | exact Hp].
    + right. exact H.
  - change (String x a ++ String "*" b)
      with (String x (a ++ String "*" b)) in H.
    apply occurs_cons in H. destruct H as [H | H].
    + left. apply occurs_prefix.
      apply (prefix_before_star p (String x a) b Hp H).
    + destruct (IH H) as [Ha | Hb]; [left | right; exact Hb].
      apply occurs_cons. right. exact Ha.
Qed.

Lemma occurs_empty_false (p : string) : p <> "" -> occurs p "" = false.
Proof. intros H. destruct p; [contradiction | reflexivity]. Qed.

(** An occurrence in a text that holds a short name between bold markers
    lies in the short name or after the closing marker. *)
Lemma occurs_bold (p short rest : string) :
  starFree p = true -> p <> "" ->
  occurs p (("**" ++ short ++ "**") ++ rest) = true ->
  occurs p short = true \/ occurs p rest = true.
Proof.
  intros Hp Hne H.
  assert (E : ("**" ++ short ++ "**") ++ rest
              = "" ++ String "*" ("" ++ String "*"
                  (short ++ String "*" ("" ++ String "*" rest)))).
  { simpl. do 2 f_equal. clear. induction short as [| c s IH];
      [reflexivity | simpl; f_equal; exact IH]. }
  rewrite E in H. clear E.
  apply occurs_across_star in H; [| assumption | assumption].
  destruct H as [H | H]; [rewrite occurs_empty_false in H; [discriminate | assumption] |].
  apply occurs_across_star in H; [| assumption | assumption].
  destruct H as [H | H]; [rewrite occurs_empty_false in H; [discriminate | assumption] |].
  apply occurs_across_star in H; [| assumption | assumption].
  destruct H as [H | H]; [left; exact H |].
  apply occurs_across_star in H; [| assumption | assumption].
  destruct H as [H | H]; [rewrite occurs_empty_false in H; [discriminate | assumption] |].
  right. exact H.
Qed.

End StringFacts.

(* ================================================================== *)
(** * Facts about the replacement of one label *)
(* ================================================================== *)

Section ScanFacts.

Import JsString Text.
Local Open Scope string_scope.

Lemma allChars_impl (f g : ascii -> bool) (s : string) :
  (forall c, f c = true -> g c = true) ->
  allChars f s = true -> allChars g s = true.
Proof.
  intros Hfg. induction s as [| c s IH]; [reflexivity |].
  simpl. intros H. apply andb_true_iff in H. destruct H as [Hc Hs].
  rewrite (Hfg c Hc), (IH Hs). reflexivity.
Qed.

Lemma literal_starFree (label : string) :
  isLiteralPattern label = true -> starFree label = true.
Proof.
  apply allChars_impl. intros c H. unfold notStar.
  destruct (Ascii.eqb c "*") eqn:E; [| reflexivity].
  apply Ascii.eqb_eq in E. subst c. discriminate H.
Qed.

Lemma literalLabel_inv (label : string) :
  literalLabel label = true -> label <> "" /\ starFree label = true.
Proof.
  unfold literalLabel. intros H. apply andb_true_iff in H.
  destruct H as [Hne Hlit]. split.
  - intros ->. discriminate Hne.
  - apply literal_starFree, Hlit.
Qed.

(** A replacement text without dollar signs is inserted as it is. *)
Lemma getSubstitution_dollarFree (matched before after template : string) :
  dollarFree template = true ->
  getSubstitution matched before after template = template.
Proof.
  induction template as [| c t IH]; [reflexivity |].
  intros H. simpl in H. apply andb_true_iff in H. destruct H as [Hc Ht].
  unfold notDollar in Hc. apply negb_true_iff in Hc.
  simpl. rewrite Hc. f_equal. apply IH, Ht.
Qed.

Lemma replaceFrom_cons (pat template before : string) (c : ascii)
    (s : string) :
  replaceFrom pat template before 0 (String c s) =
  if prefix pat (String c s) then
    getSubstitution pat before (drop (String.length pat) (String c s))
      template ++
    match pat with
    | EmptyString =>
        String c (replaceFrom pat template (before ++ String c "") 0 s)
    | String _ pat' =>
        replaceFrom pat template (before ++ String c "")
          (String.length pat') s
    end
  else String c (replaceFrom pat template (before ++ String c "") 0 s).
Proof. reflexivity. Qed.

Lemma scan_cons (pat r : string) (c : ascii) (s : string) :
  scan pat r 0 (String c s) =
  if prefix pat (String c s) then
    r ++ match pat with
         | EmptyString => String c (scan pat r 0 s)
         | String _ pat' => scan pat r (String.length pat') s
         end
  else String c (scan pat r 0 s).
Proof. reflexivity. Qed.

Lemma replaceFrom_scan (pat template : string) :
  dollarFree template = true ->
  forall s before skip,
    replaceFrom pat template before skip s = scan pat template skip s.
Proof.
  intros Hd. induction s as [| c s IH]; intros before skip.
  - destruct skip; [| reflexivity].
    destruct pat; simpl; [| reflexivity].
    rewrite getSubstitution_dollarFree by assumption. reflexivity.
  - destruct skip as [| k]; [| apply IH].
    rewrite replaceFrom_cons, scan_cons.
    rewrite getSubstitution_dollarFree by assumption.
    destruct pat; rewrite !IH; reflexivity.
Qed.

(** A text in which the pattern does not occur is returned as it is,
    whatever the replacement text. *)
Lemma replaceFrom_no_occurrence (pat template : string) :
  forall s before,
    occurs pat s = false -> replaceFrom pat template before 0 s = s.
Proof.
  induction s as [| c s IH]; intros before H.
  - rewrite occurs_empty in H.
    change (replaceFrom pat template before 0 "")
      with (if prefix pat ""
            then getSubstitution pat before (drop (String.length pat) "")
                   template ++ ""
            else "").
    rewrite H. reflexivity.
  - apply occurs_cons_false in H. destruct H as [Hp Hs].
    rewrite replaceFrom_cons, Hp. f_equal. apply IH, Hs.
Qed.

Lemma replace_no_occurrence (s pat template : string) :
  occurs pat s = false -> replace s pat template = s.
Proof. apply replaceFrom_no_occurrence. Qed.

Variables (a : ascii) (pat' short : string).
Let pat := String a pat'.
Let r := "**" ++ short ++ "**".

Lemma scan_nil (k : nat) : scan pat r k "" = "".
Proof. destruct k; reflexivity. Qed.

Lemma scan_hit (c : ascii) (s : string) :
  prefix pat (String c s) = true ->
  scan pat r 0 (String c s) = r ++ scan pat r (String.length pat') s.
Proof.
  intros H. rewrite scan_cons, H. reflexivity.
Qed.

Lemma scan_miss (c : ascii) (s : string) :
  prefix pat (String c s) = false ->
  scan pat r 0 (String c s) = String c (scan pat r 0 s).
Proof.
  intros H. rewrite scan_cons, H. reflexivity.
Qed.

Lemma scan_skip (x rest : string) :
  scan pat r (String.length x) (x ++ rest) = scan pat r 0 rest.
Proof. induction x as [| c x IH]; [reflexivity | exact IH]. Qed.

(** What the scan copies before its first match is what the text begins
    with. *)
Lemma scan_prefix_inv (s p : string) :
  starFree p = true -> prefix p (scan pat r 0 s) = true -> prefix p s = true.
Proof.
  revert p. induction s as [| c s IH]; intros p Hp H.
  - exact H.
  - destruct (prefix pat (String c s)) eqn:E.
    + rewrite (scan_hit _ _ E) in H.
      apply (prefix_star_head p _ Hp) in H. subst p. apply prefix_nil.
    + rewrite (scan_miss _ _ E) in H.
      destruct p as [| x p]; [apply prefix_nil |].
      apply prefix_cons in H. destruct H as [-> H].
      simpl in Hp. apply andb_true_iff in Hp. destruct Hp as [_ Hp].
      apply prefix_cons. split; [reflexivity | apply IH; assumption].
Qed.

(** An occurrence of a text without asterisks in the result of the scan
    comes from the short name or from the text scanned. *)
Lemma scan_occurs (p : string) :
  starFree p = true -> p <> "" ->
  forall s k, occurs p (scan pat r k s) = true ->
              occurs p short = true \/ occurs p s = true.
Proof.
  intros Hp Hne. induction s as [| c s IH]; intros k H.
  - rewrite scan_nil in H. right. exact H.
  - destruct k as [| k].
    + destruct (prefix pat (String c s)) eqn:E.
      * rewrite (scan_hit _ _ E) in H.
        apply occurs_bold in H; [| assumption | assumption].
        destruct H as [H | H]; [left; exact H |].
        destruct (IH _ H) as [H' | H']; [left; exact H' | right].
        apply occurs_cons. right. exact H'.
      * rewrite (scan_miss _ _ E) in H.
        apply occurs_cons in H. destruct H as [H | H].
        -- right. apply occurs_prefix.
           destruct p as [| x p]; [contradiction |].
           apply prefix_cons in H. destruct H as [-> H].
           simpl in Hp. apply andb_true_iff in Hp. destruct Hp as [_ Hp].
           apply prefix_cons. split; [reflexivity |].
           apply scan_prefix_inv; assumption.
        -- destruct (IH _ H) as [H' | H']; [left; exact H' | right].
           apply occurs_cons. right. exact H'.
    + change (scan pat r (S k) (String c s)) with (scan pat r k s) in H.
      destruct (IH _ H) as [H' | H']; [left; exact H' | right].
      apply occurs_cons. right. exact H'.
Qed.

(** An occurrence of the pattern itself in the result of the scan comes
    from the short name. *)
Lemma scan_occurs_pat :
  starFree pat = true ->
  forall s k, occurs pat (scan pat r k s) = true -> occurs pat short = true.
Proof.
  intros Hp. induction s as [| c s IH]; intros k H.
  - rewrite scan_nil in H. discriminate H.
  - destruct k as [| k].
    + destruct (prefix pat (String c s)) eqn:E.
      * rewrite (scan_hit _ _ E) in H.
        apply occurs_bold in H; [| assumption | discriminate].
        destruct H as [H | H]; [exact H | apply (IH _ H)].
      * rewrite (scan_miss _ _ E) in H.
        apply occurs_cons in H. destruct H as [H | H]; [| apply (IH _ H)].
        exfalso. apply prefix_cons in H. destruct H as [<- H].
        simpl in Hp. apply andb_true_iff in Hp. destruct Hp as [_ Hp].
        apply scan_prefix_inv in H; [| exact Hp].
        assert (E' : prefix pat (String a s) = true)
          by (apply prefix_cons; split; [reflexivity | exact H]).
        rewrite E' in E. discriminate E.
    + change (scan pat r (S k) (String c s)) with (scan pat r k s) in H.
      apply (IH _ H).
Qed.

Lemma indexOf_cons (p : string) (c : ascii) (s : string) :
  indexOf p (String c s) =
  if prefix p (String c s) then Some 0 else option_map S (indexOf p s).
Proof. reflexivity. Qed.

(** The leftmost occurrence is replaced, and the scan goes on after it. *)
Lemma scan_leftmost (pre post : string) :
  indexOf pat (pre ++ pat ++ post) = Some (String.length pre) ->
  scan pat r 0 (pre ++ pat ++ post) = pre ++ r ++ scan pat r 0 post.
Proof.
  induction pre as [| c pre IH]; intros H.
  - change ("" ++ pat ++ post) with (String a (pat' ++ post)).
    rewrite scan_hit by apply (prefix_self_app pat post).
    rewrite scan_skip. reflexivity.
  - change (String c pre ++ pat ++ post)
      with (String c (pre ++ pat ++ post)) in *.
    rewrite indexOf_cons in H. simpl String.length in H.
    destruct (prefix pat (String c (pre ++ pat ++ post))) eqn:E;
      [discriminate H |].
    + rewrite (scan_miss _ _ E).
      change (String c pre ++ r ++ scan pat r 0 post)
        with (String c (pre ++ r ++ scan pat r 0 post)).
      f_equal. apply IH.
      destruct (indexOf pat (pre ++ pat ++ post)); simpl in H;
        [injection H as ->; reflexivity | discriminate H].
Qed.

End ScanFacts.

(* ================================================================== *)
(** * De-anonymization *)
(* ================================================================== *)

Section DeAnonymization.

Import JsString Text Stage2.
Local Open Scope string_scope.

Lemma allChars_app (f : ascii -> bool) (x y : string) :
  allChars f (x ++ y) = allChars f x && allChars f y.
Proof.
  induction x as [| c x IH]; [reflexivity |].
  simpl. rewrite IH. apply andb_assoc.
Qed.

Lemma dollarFree_boldName (model : string) :
  dollarFree (getShortName model) = true -> dollarFree (boldName model) = true.
Proof.
  intros H. unfold boldName, dollarFree.
  rewrite !allChars_app. fold (dollarFree (getShortName model)).
  rewrite H. reflexivity.
Qed.

Lemma replaceLabel_scan (s label model : string) :
  dollarFree (getShortName model) = true ->
  replaceLabel s (label, model) = scan label (boldName model) 0 s.
Proof.
  intros H. unfold replaceLabel, replace.
  apply replaceFrom_scan, dollarFree_boldName, H.
Qed.

(** One pass leaves the text free of its own label, and free of every
    other literal label that the text was free of, as long as the short
    name contains neither. *)
Lemma replaceLabel_clean (p label model s : string) :
  literalLabel label = true ->
  dollarFree (getShortName model) = true ->
  literalLabel p = true ->
  occurs p (getShortName model) = false ->
  p = label \/ occurs p s = false ->
  occurs p (replaceLabel s (label, model)) = false.
Proof.
  intros Hl Hd Hp Hshort Hcase.
  rewrite replaceLabel_scan by assumption.
  apply literalLabel_inv in Hl. destruct Hl as [Hlne Hlstar].
  apply literalLabel_inv in Hp. destruct Hp as [Hpne Hpstar].
  destruct label as [| a label']; [contradiction |].
  apply not_true_is_false. intros H.
  destruct Hcase as [-> | Hs].
  - apply scan_occurs_pat in H; [| assumption]. congruence.
  - apply scan_occurs in H; [| assumption | assumption].
    destruct H; congruence.
Qed.

Lemma labelFree_spec (labels : list string) (s : string) :
  labelFree labels s = true <->
  forall label, In label labels -> occurs label s = false.
Proof.
  unfold labelFree. rewrite forallb_forall. split; intros H l Hl.
  - apply negb_true_iff, H, Hl.
  - apply negb_true_iff, H, Hl.
Qed.

(** A text free of the labels goes through all the passes unchanged. *)
Lemma fold_no_occurrence (entries : LabelToModel) (text : string) :
  labelFree (map fst entries) text = true ->
  fold_left replaceLabel entries text = text.
Proof.
  rewrite labelFree_spec. induction entries as [| [label model] rest IH];
    intros H; [reflexivity |].
  change (fold_left replaceLabel ((label, model) :: rest) text)
    with (fold_left replaceLabel rest (replace text label (boldName model))).
  rewrite replace_no_occurrence by (apply H; left; reflexivity).
  apply IH. intros l Hl. apply H. right. exact Hl.
Qed.

(** The passes leave no label behind: the labels already dealt with stay
    absent, and each pass removes its own. *)
Lemma fold_clean (all : list string) :
  (forall l, In l all -> literalLabel l = true) ->
  forall (entries : LabelToModel) (done : list string) (text : string),
    (forall e, In e entries ->
       In (fst e) all
       /\ dollarFree (getShortName (snd e)) = true
       /\ labelFree all (getShortName (snd e)) = true) ->
    (forall l, In l done -> In l all /\ occurs l text = false) ->
    forall l, In l done \/ In l (map fst entries) ->
      occurs l (fold_left replaceLabel entries text) = false.
Proof.
  intros Hall. induction entries as [| [label model] rest IH];
    intros done text Hent Hdone l Hl.
  - destruct Hl as [Hl | []]. apply Hdone, Hl.
  - change (fold_left replaceLabel ((label, model) :: rest) text)
      with (fold_left replaceLabel rest (replaceLabel text (label, model))).
    destruct (Hent (label, model) (or_introl eq_refl)) as (Hin & Hd & Hfree).
    simpl in Hin, Hd, Hfree. rewrite labelFree_spec in Hfree.
    apply (IH (label :: done)).
    + intros e He. apply Hent. right. exact He.
    + intros l' [<- | Hl'].
      * split; [exact Hin |].
        apply replaceLabel_clean; auto.
      * destruct (Hdone l' Hl') as [Hin' Hocc]. split; [exact Hin' |].
        apply replaceLabel_clean; auto.
    + simpl in Hl. simpl. tauto.
Qed.

Lemma plainMap_inv (entries : LabelToModel) :
  plainMap entries = true ->
  (forall l, In l (map fst entries) -> literalLabel l = true)
  /\ (forall e, In e entries ->
        In (fst e) (map fst entries)
        /\ dollarFree (getShortName (snd e)) = true
        /\ labelFree (map fst entries) (getShortName (snd e)) = true).
Proof.
  unfold plainMap. rewrite forallb_forall. intros H. split.
  - intros l Hl. apply in_map_iff in Hl. destruct Hl as (e & <- & He).
    specialize (H e He). unfold plainEntry in H.
    apply andb_true_iff in H. destruct H as [H _].
    apply andb_true_iff in H. destruct H as [H _]. exact H.
  - intros e He. specialize (H e He). unfold plainEntry in H.
    apply andb_true_iff in H. destruct H as [H H3].
    apply andb_true_iff in H. destruct H as [_ H2].
    split; [apply in_map, He | split; assumption].
Qed.

Lemma deAnonymize_labelFree (entries : LabelToModel) (text : string) :
  plainMap entries = true ->
  labelFree (map fst entries) (deAnonymizeText text (Some entries)) = true.
Proof.
  intros H. apply plainMap_inv in H. destruct H as [Hlit Hent].
  apply labelFree_spec. intros l Hl. simpl.
  apply (fold_clean (map fst entries) Hlit entries [] text Hent).
  - intros l' [].
  - right. exact Hl.
Qed.

Lemma occurs_around_bold (p pre short post : string) :
  starFree p = true -> p <> "" ->
  occurs p (pre ++ ("**" ++ short ++ "**") ++ post) = true ->
  occurs p pre = true \/ occurs p short = true \/ occurs p post = true.
Proof.
  intros Hp Hne H.
  change (("**" ++ short ++ "**") ++ post)
    with (String "*" (String "*" ((short ++ "**") ++ post))) in H.
  apply occurs_across_star in H; [| assumption | assumption].
  destruct H as [H | H]; [left; exact H | right].
  apply (occurs_bold p short post Hp Hne).
  change (("**" ++ short ++ "**") ++ post)
    with (String "*" (String "*" ((short ++ "**") ++ post))).
  apply occurs_cons. right. exact H.
Qed.

(** A text whose only occurrence of a label of the map is one occurrence
    of [label]: the occurrence is replaced by the bold short name of its
    model and the rest is kept. *)
Lemma deAnonymize_single_occurrence (entries : LabelToModel)
    (label model pre post : string) :
  plainMap entries = true ->
  NoDup (map fst entries) ->
  In (label, model) entries ->
  indexOf label (pre ++ label ++ post) = Some (String.length pre) ->
  occurs label post = false ->
  (forall l, In l (map fst entries) -> l <> label ->
             occurs l (pre ++ label ++ post) = false) ->
  deAnonymizeText (pre ++ label ++ post) (Some entries)
  = pre ++ boldName model ++ post.
Proof.
  intros Hplain Hnd Hin Hidx Hpost Hother.
  apply plainMap_inv in Hplain. destruct Hplain as [Hlit Hent].
  destruct (Hent _ Hin) as (Hl & Hd & Hfree). simpl in Hl, Hd, Hfree.
  rewrite labelFree_spec in Hfree.
  destruct (in_split _ _ Hin) as (l1 & l2 & E).
  assert (Hnot : ~ In label (map fst l1 ++ map fst l2)%list).
  { rewrite E, map_app in Hnd. apply NoDup_remove_2 in Hnd. exact Hnd. }
  assert (Hsub : forall l, In l (map fst l1 ++ map fst l2)%list ->
                           In l (map fst entries) /\ l <> label).
  { intros l Hl12. split.
    - rewrite E, map_app. apply in_app_iff. apply in_app_iff in Hl12.
      destruct Hl12 as [H | H]; [left; exact H | right; right; exact H].
    - intros ->. contradiction. }
  unfold deAnonymizeText. rewrite E at 1. rewrite fold_left_app.
  rewrite (fold_no_occurrence l1).
  2:{ apply labelFree_spec. intros l Hl1.
      destruct (Hsub l) as [Ha Hb]; [apply in_app_iff; left; exact Hl1 |].
      apply Hother; assumption. }
  change (fold_left replaceLabel ((label, model) :: l2) (pre ++ label ++ post))
    with (fold_left replaceLabel l2
            (replaceLabel (pre ++ label ++ post) (label, model))).
  assert (Hstep : replaceLabel (pre ++ label ++ post) (label, model)
                  = pre ++ boldName model ++ post).
  { rewrite replaceLabel_scan by assumption.
    pose proof (literalLabel_inv _ (Hlit label Hl)) as [Hne _].
    destruct label as [| a label']; [contradiction |].
    unfold boldName. rewrite scan_leftmost by exact Hidx.
    do 2 f_equal.
    rewrite <- (replaceFrom_scan _ _ (dollarFree_boldName model Hd) post "" 0).
    apply replaceFrom_no_occurrence, Hpost. }
  rewrite Hstep. apply fold_no_occurrence.
  apply labelFree_spec. intros l Hl2.
  destruct (Hsub l) as [Ha Hb]; [apply in_app_iff; right; exact Hl2 |].
  pose proof (literalLabel_inv _ (Hlit l Ha)) as [Hne Hstar].
  apply not_true_is_false. intros Hocc.
  apply (occurs_around_bold l pre (getShortName model) post Hstar Hne) in Hocc.
  destruct Hocc as [Hocc | [Hocc | Hocc]].
  - apply (occurs_app_l l pre (label ++ post)) in Hocc.
    rewrite (Hother l Ha Hb) in Hocc. discriminate Hocc.
  - rewrite (Hfree l Ha) in Hocc. discriminate Hocc.
  - apply (occurs_app_r l label post), (occurs_app_r l pre) in Hocc.
    rewrite (Hother l Ha Hb) in Hocc. discriminate Hocc.
Qed.

(** ** Occurrences that do not overlap *)

Lemma string_app_assoc (x y z : string) : (x ++ y) ++ z = x ++ y ++ z.
Proof.
  induction x as [| c x IH]; [reflexivity |]. simpl. rewrite IH. reflexivity.
Qed.

Lemma string_length_app (x y : string) :
  String.length (x ++ y) = String.length x + String.length y.
Proof.
  induction x as [| c x IH]; [reflexivity |]. simpl. rewrite IH. reflexivity.
Qed.

Lemma prefix_length (x y : string) :
  prefix x y = true -> String.length x <= String.length y.
Proof.
  revert y. induction x as [| c x IH]; intros y H; [simpl; lia |].
  destruct y as [| d y]; [discriminate H |].
  apply prefix_cons in H. destruct H as [_ H]. apply IH in H. simpl. lia.
Qed.

(** A text that begins [P ++ R] and is not longer than [P] begins [P]. *)
Lemma prefix_app_short (l P R : string) :
  prefix l (P ++ R) = true -> String.length l <= String.length P ->
  prefix l P = true.
Proof.
  revert P. induction l as [| c l IH]; intros P H Hlen; [apply prefix_nil |].
  destruct P as [| d P]; [simpl in Hlen; lia |].
  change (String d P ++ R) with (String d (P ++ R)) in H.
  apply prefix_cons in H. destruct H as [-> H].
  apply prefix_cons. split; [reflexivity |].
  apply IH; [exact H | simpl in Hlen; lia].
Qed.

(** What is left of a text that begins [P ++ R], after [P], begins [R]. *)
Lemma prefix_drop (l P R : string) :
  prefix l (P ++ R) = true -> String.length P <= String.length l ->
  prefix (drop (String.length P) l) R = true.
Proof.
  revert l. induction P as [| d P IH]; intros l H Hlen; [exact H |].
  destruct l as [| c l]; [simpl in Hlen; lia |].
  change (String d P ++ R) with (String d (P ++ R)) in H.
  apply prefix_cons in H. destruct H as [_ H].
  apply IH; [exact H | simpl in Hlen; lia].
Qed.

Lemma prefix_app_cases (x m post : string) :
  prefix x (m ++ post) = true -> agree m x = true.
Proof.
  unfold agree. revert m. induction x as [| c x IH]; intros m H.
  - rewrite (prefix_nil m). apply orb_true_r.
  - destruct m as [| d m]; [reflexivity |].
    change (String d m ++ post) with (String d (m ++ post)) in H.
    apply prefix_cons in H. destruct H as [-> H].
    specialize (IH m H). apply orb_true_iff in IH.
    apply orb_true_iff. destruct IH as [IH | IH]; [left | right];
      apply prefix_cons; split; auto.
Qed.

Lemma drop_length_lt (i : nat) (x : string) :
  i < String.length x -> drop i x <> "".
Proof.
  revert x. induction i as [| i IH]; intros x H.
  - destruct x; [simpl in H; lia | discriminate].
  - destruct x as [| c x]; [simpl in H; lia |].
    simpl. apply IH. simpl in H. lia.
Qed.

Lemma drop_app_length (P R : string) : drop (String.length P) (P ++ R) = R.
Proof. induction P as [| c P IH]; [destruct R; reflexivity | exact IH]. Qed.

Lemma overlaps_false (from : nat) (x y : string) :
  overlaps from x y = false ->
  forall i, from <= i -> i < String.length x -> agree (drop i x) y = false.
Proof.
  unfold overlaps. intros H i Hfrom Hlt.
  apply not_true_is_false. intros Ha.
  assert (E : existsb (fun i => agree (drop i x) y)
                (seq from (String.length x - from)) = true).
  { apply existsb_exists. exists i. split; [| exact Ha].
    apply in_seq. lia. }
  rewrite E in H. discriminate H.
Qed.

Lemma separateLabels_inv (labels : list string) (x y : string) :
  separateLabels labels = true -> In x labels -> In y labels ->
  (x <> y ->
   forall i, i < String.length x -> agree (drop i x) y = false)
  /\ (forall i, 0 < i -> i < String.length x -> agree (drop i x) y = false).
Proof.
  unfold separateLabels. rewrite forallb_forall. intros H Hx Hy.
  specialize (H x Hx). rewrite forallb_forall in H. specialize (H y Hy).
  apply negb_true_iff in H. split.
  - intros Hne i Hi. apply String.eqb_neq in Hne. rewrite Hne in H.
    apply (overlaps_false 0 x y H); [lia | exact Hi].
  - intros i Hpos Hi. destruct (String.eqb x y).
    + apply (overlaps_false 1 x y H); [lia | exact Hi].
    + apply (overlaps_false 0 x y H); [lia | exact Hi].
Qed.

Lemma scan_empty (l b : string) (k : nat) : l <> "" -> scan l b k "" = "".
Proof.
  intros H. destruct k; [| reflexivity].
  destruct l; [contradiction | reflexivity].
Qed.

Lemma scan_past (l b x rest : string) :
  scan l b (String.length x) (x ++ rest) = scan l b 0 rest.
Proof. induction x as [| c x IH]; [reflexivity | exact IH]. Qed.

(** The scan of a text in which no match reaches from the first part into
    the rest: the two parts are scanned one after the other. *)
Lemma scan_app (l b rest : string) :
  l <> "" ->
  (forall P, P <> "" -> String.length P < String.length l ->
             prefix l (P ++ rest) = false) ->
  forall pre k,
    k <= String.length pre ->
    scan l b k (pre ++ rest) = scan l b k pre ++ scan l b 0 rest.
Proof.
  intros Hne Hstr. induction pre as [| c pre IH]; intros k Hk.
  - simpl in Hk. assert (k = 0) by lia. subst k.
    rewrite (scan_empty l b 0 Hne). reflexivity.
  - destruct k as [| k].
    + change (String c pre ++ rest) with (String c (pre ++ rest)).
      rewrite !scan_cons.
      destruct (prefix l (String c (pre ++ rest))) eqn:E.
      * assert (Hlen : String.length l <= String.length (String c pre)).
        { destruct (le_lt_dec (String.length l)
                      (String.length (String c pre))) as [H | H];
            [exact H |].
          change (String c (pre ++ rest)) with (String c pre ++ rest) in E.
          rewrite (Hstr (String c pre)) in E;
            [discriminate E | discriminate | exact H]. }
        change (String c (pre ++ rest)) with (String c pre ++ rest) in E.
        rewrite (prefix_app_short l (String c pre) rest E Hlen).
        destruct l as [| a l']; [contradiction |].
        rewrite IH by (simpl in Hlen; lia).
        symmetry. apply string_app_assoc.
      * assert (E' : prefix l (String c pre) = false).
        { apply not_true_is_false. intros H.
          apply (prefix_app l (String c pre) rest) in H.
          change (String c pre ++ rest) with (String c (pre ++ rest)) in H.
          rewrite H in E. discriminate E. }
        rewrite E'. simpl. f_equal. apply IH. lia.
    + change (scan l b (S k) (String c pre ++ rest))
        with (scan l b k (pre ++ rest)).
      change (scan l b (S k) (String c pre)) with (scan l b k pre).
      apply IH. simpl in Hk. lia.
Qed.

(** A text none of whose positions begins a match is copied. *)
Lemma scan_through (l b post : string) :
  forall mid,
    (forall i, i < String.length mid ->
               prefix l (drop i mid ++ post) = false) ->
    scan l b 0 (mid ++ post) = mid ++ scan l b 0 post.
Proof.
  induction mid as [| c mid IH]; intros H; [reflexivity |].
  change (String c mid ++ post) with (String c (mid ++ post)).
  rewrite scan_cons.
  assert (E : prefix l (String c (mid ++ post)) = false)
    by (apply (H 0); simpl; lia).
  rewrite E. simpl. f_equal. apply IH.
  intros i Hi. apply (H (S i)). simpl. lia.
Qed.

Lemma scan_no_occurrence (l b : string) :
  forall s, occurs l s = false -> scan l b 0 s = s.
Proof.
  induction s as [| c s IH]; intros H.
  - destruct l; [discriminate H | reflexivity].
  - apply occurs_cons_false in H. destruct H as [Hp Hs].
    rewrite scan_cons, Hp. f_equal. apply IH, Hs.
Qed.

(** An asterisk stops the scan for a literal label: the text before it and
    the text after it are scanned one after the other. *)
Lemma scan_star (l b pre post : string) :
  literalLabel l = true ->
  scan l b 0 (pre ++ String "*" post)
  = scan l b 0 pre ++ String "*" (scan l b 0 post).
Proof.
  intros Hl. apply literalLabel_inv in Hl. destruct Hl as [Hne Hstar].
  rewrite (scan_app l b (String "*" post) Hne); [| | lia].
  - f_equal. rewrite scan_cons.
    destruct (prefix l (String "*" post)) eqn:E; [| reflexivity].
    apply prefix_star_head in E; [contradiction | exact Hstar].
  - intros P _ Hlen. apply not_true_is_false. intros H.
    apply prefix_before_star in H; [| exact Hstar].
    apply prefix_length in H. lia.
Qed.

(** A bold short name that does not contain the label is copied, and the
    texts around it are scanned one after the other. *)
Lemma scan_bold (l b short0 pre post : string) :
  literalLabel l = true ->
  occurs l short0 = false ->
  scan l b 0 (pre ++ ("**" ++ short0 ++ "**") ++ post)
  = scan l b 0 pre ++ ("**" ++ short0 ++ "**") ++ scan l b 0 post.
Proof.
  intros Hl Hocc.
  assert (Hne : l <> "") by (apply literalLabel_inv in Hl; apply Hl).
  replace (pre ++ ("**" ++ short0 ++ "**") ++ post)
    with (pre ++ String "*" ("" ++ String "*"
                               (short0 ++ String "*"
                                  ("" ++ String "*" post)))).
  2:{ simpl. rewrite string_app_assoc. reflexivity. }
  rewrite !(scan_star l b) by exact Hl.
  rewrite (scan_no_occurrence l b short0 Hocc).
  rewrite (scan_empty l b 0 Hne).
  simpl. rewrite string_app_assoc. reflexivity.
Qed.

(** An occurrence of another label is copied, and an occurrence of the
    label itself is replaced; in both cases the texts around it are
    scanned one after the other. *)
Lemma scan_label (labels : list string) (l l' b pre post : string) :
  separateLabels labels = true ->
  In l labels -> In l' labels -> l <> "" -> l' <> "" ->
  scan l b 0 (pre ++ l' ++ post)
  = scan l b 0 pre
    ++ (if String.eqb l l' then b else l') ++ scan l b 0 post.
Proof.
  intros Hsep Hl Hl' Hne Hne'.
  destruct (separateLabels_inv labels l l' Hsep Hl Hl') as [_ Hinside].
  destruct (separateLabels_inv labels l' l Hsep Hl' Hl) as [Hother _].
  rewrite (scan_app l b (l' ++ post) Hne); [| | lia].
  - f_equal. destruct (String.eqb l l') eqn:E.
    + apply String.eqb_eq in E. subst l'.
      destruct l as [| a lt]; [contradiction |].
      change (String a lt ++ post) with (String a (lt ++ post)).
      rewrite scan_cons.
      assert (Hp : prefix (String a lt) (String a (lt ++ post)) = true)
        by apply (prefix_self_app (String a lt) post).
      rewrite Hp. f_equal. apply scan_past.
    + apply String.eqb_neq in E. apply scan_through.
      intros i Hi. apply not_true_is_false. intros H.
      apply prefix_app_cases in H.
      rewrite (Hother (fun H' => E (eq_sym H')) i Hi) in H. discriminate H.
  - intros P HP Hlen. apply not_true_is_false. intros H.
    apply prefix_drop in H; [| lia].
    apply prefix_app_cases in H. unfold agree in H.
    rewrite orb_comm in H. fold (agree (drop (String.length P) l) l') in H.
    rewrite Hinside in H; [discriminate H | | exact Hlen].
    destruct P; [contradiction | simpl; lia].
Qed.

(** The passes over a text that holds a bold short name free of their
    labels. *)
Lemma fold_bold (short0 : string) (es : LabelToModel) :
  (forall e, In e es ->
     literalLabel (fst e) = true
     /\ dollarFree (getShortName (snd e)) = true
     /\ occurs (fst e) short0 = false) ->
  forall pre post,
    fold_left replaceLabel es (pre ++ ("**" ++ short0 ++ "**") ++ post)
    = fold_left replaceLabel es pre
      ++ ("**" ++ short0 ++ "**") ++ fold_left replaceLabel es post.
Proof.
  induction es as [| [l m] rest IH]; intros H pre post; [reflexivity |].
  destruct (H (l, m) (or_introl eq_refl)) as (Hl & Hd & Hocc).
  simpl in Hl, Hd, Hocc. cbn [fold_left].
  rewrite !(replaceLabel_scan _ l m Hd).
  rewrite (scan_bold l (boldName m) short0 pre post Hl Hocc).
  apply IH. intros e He. apply H. right. exact He.
Qed.

(** The passes over a text that holds an occurrence of a label of the
    map: the occurrence becomes the bold short name of its model, and the
    texts before and after it go through the passes on their own. *)
Lemma fold_label (all : list string) :
  (forall l, In l all -> literalLabel l = true) ->
  separateLabels all = true ->
  forall (es : LabelToModel) (label model : string),
    NoDup (map fst es) ->
    In (label, model) es ->
    (forall e, In e es ->
       In (fst e) all
       /\ dollarFree (getShortName (snd e)) = true
       /\ labelFree all (getShortName (snd e)) = true) ->
    forall pre post,
      fold_left replaceLabel es (pre ++ label ++ post)
      = fold_left replaceLabel es pre
        ++ boldName model ++ fold_left replaceLabel es post.
Proof.
  intros Hlit Hsep. induction es as [| [l m] rest IH];
    intros label model Hnd Hin Hent pre post; [destruct Hin |].
  destruct (Hent (l, m) (or_introl eq_refl)) as (Hl & Hd & Hfree).
  simpl in Hl, Hd, Hfree. rewrite labelFree_spec in Hfree.
  assert (Hlabel : In label all).
  { apply (Hent (label, model) Hin). }
  pose proof (literalLabel_inv _ (Hlit l Hl)) as [Hne _].
  pose proof (literalLabel_inv _ (Hlit label Hlabel)) as [Hne' _].
  cbn [fold_left]. rewrite !(replaceLabel_scan _ l m Hd).
  rewrite (scan_label all l label (boldName m) pre post Hsep Hl Hlabel
             Hne Hne').
  simpl in Hnd. inversion Hnd as [| ? ? Hnot Hnd']. subst.
  destruct (String.eqb l label) eqn:E.
  - apply String.eqb_eq in E. subst label.
    assert (Hm : m = model).
    { destruct Hin as [Hin | Hin]; [injection Hin as <-; reflexivity |].
      exfalso. apply Hnot. apply (in_map fst) in Hin. exact Hin. }
    subst m. unfold boldName. apply fold_bold.
    intros e He. destruct (Hent e (or_intror He)) as (Ha & Hde & _).
    split; [apply Hlit, Ha | split; [exact Hde | apply Hfree, Ha]].
  - apply String.eqb_neq in E.
    apply IH; [exact Hnd' | | intros e He; apply Hent; right; exact He].
    destruct Hin as [Hin | Hin]; [| exact Hin].
    injection Hin as -> _. contradiction.
Qed.

(** ** The claims about de-anonymization *)

(** C5, as stated, fails.  With a model whose short name contains its own
    label, the text produced by one application still contains the label,
    and a second application changes it again. *)
Lemma deAnonymize_twice_differs :
  deAnonymizeText
    (deAnonymizeText "Response A wins" (Some nameHoldsOwnLabel))
    (Some nameHoldsOwnLabel)
  <> deAnonymizeText "Response A wins" (Some nameHoldsOwnLabel).
Proof. apply String.eqb_neq. reflexivity. Qed.

(** C5, amended: for a map that is absent or plain (labels not empty and
    without syntax characters, short names without dollar signs and
    containing no label) and every text, de-anonymization applied twice
    gives what it gives applied once, and when the map is present the text
    it produces contains no label. *)
Theorem deAnonymize_idempotent (labelToModel : option LabelToModel)
    (text : string) :
  plainLabelToModel labelToModel = true ->
  deAnonymizeText (deAnonymizeText text labelToModel) labelToModel
  = deAnonymizeText text labelToModel
  /\ (forall entries, labelToModel = Some entries ->
        labelFree (map fst entries) (deAnonymizeText text labelToModel)
        = true).
Proof.
  intros H. destruct labelToModel as [entries |].
  - simpl in H. pose proof (deAnonymize_labelFree entries text H) as Hfree.
    split.
    + apply fold_no_occurrence, Hfree.
    + intros entries' E. injection E as <-. exact Hfree.
  - split; [reflexivity | discriminate].
Qed.

Lemma deAnonymize_idempotent_witness :
  plainLabelToModel (Some twoAnswers) = true
  /\ deAnonymizeText
       (deAnonymizeText "Response A beats Response B" (Some twoAnswers))
       (Some twoAnswers)
     = deAnonymizeText "Response A beats Response B" (Some twoAnswers).
Proof.
  split; [reflexivity |].
  apply (deAnonymize_idempotent (Some twoAnswers)
           "Response A beats Response B"). reflexivity.
Defined.

(** C6, as stated, fails.  The passes run one label after another over
    the text as it stands: the occurrence of the first label is replaced
    by a short name that contains the second label, which the second pass
    replaces in turn, so that the short name of the model of the first
    label does not appear in the result.  And occurrences that overlap are
    not all replaced: in [ABC] the pass of [AB] destroys the occurrence of
    [BC], and in [aaa] the occurrence of [aa] at the second character is
    passed over. *)
Lemma deAnonymize_loses_short_name :
  (occurs "Response B" "Response B is best" = true
   /\ deAnonymizeText "Response B is best" (Some nameHoldsLaterLabel)
      = "****gpt-4o**-tuned** is best"
   /\ occurs (getShortName "lab/Response A-tuned")
        (deAnonymizeText "Response B is best" (Some nameHoldsLaterLabel))
      = false)
  /\ (plainMap overlappingLabels = true
      /\ occurs "BC" "ABC" = true
      /\ deAnonymizeText "ABC" (Some overlappingLabels) = "**one**C"
      /\ occurs (getShortName "lab/two")
           (deAnonymizeText "ABC" (Some overlappingLabels)) = false)
  /\ (plainMap selfOverlappingLabel = true
      /\ "aaa" = "a" ++ "aa" ++ ""
      /\ deAnonymizeText "aaa" (Some selfOverlappingLabel) = "**one**a"
      /\ deAnonymizeText "aaa" (Some selfOverlappingLabel)
         <> "a" ++ boldName "lab/one" ++ "").
Proof.
  repeat split. apply String.eqb_neq. reflexivity.
Qed.

(** C6, amended: for a plain map with distinct labels and every text,
    the result contains no occurrence of any label; an occurrence of a
    label that is the only occurrence of a label in the text is replaced
    by the short name of its model between bold markers, the text around
    it unchanged; a text that contains no label, or any text when the map
    is absent, is returned unchanged; and when the occurrences of the
    labels cannot overlap, every occurrence of a label is replaced by the
    short name of its model between bold markers, while the text before
    it and the text after it are de-anonymized on their own. *)
Theorem deAnonymize_substitutes (entries : LabelToModel) (text : string) :
  plainMap entries = true ->
  NoDup (map fst entries) ->
  labelFree (map fst entries) (deAnonymizeText text (Some entries)) = true
  /\ (forall label model pre post,
        In (label, model) entries ->
        text = pre ++ label ++ post ->
        indexOf label text = Some (String.length pre) ->
        occurs label post = false ->
        (forall l, In l (map fst entries) -> l <> label ->
                   occurs l text = false) ->
        deAnonymizeText text (Some entries) = pre ++ boldName model ++ post)
  /\ (labelFree (map fst entries) text = true ->
      deAnonymizeText text (Some entries) = text)
  /\ deAnonymizeText text None = text
  /\ (separateLabels (map fst entries) = true ->
      forall label model pre post,
        In (label, model) entries ->
        text = pre ++ label ++ post ->
        deAnonymizeText text (Some entries)
        = deAnonymizeText pre (Some entries)
          ++ boldName model ++ deAnonymizeText post (Some entries)).
Proof.
  intros Hplain Hnd.
  split; [apply deAnonymize_labelFree, Hplain |].
  split; [| split; [apply fold_no_occurrence | split; [reflexivity |]]].
  - intros label model pre post Hin -> Hidx Hpost Hother.
    apply deAnonymize_single_occurrence; assumption.
  - intros Hsep label model pre post Hin ->.
    apply plainMap_inv in Hplain. destruct Hplain as [Hlit Hent].
    apply (fold_label (map fst entries) Hlit Hsep entries label model Hnd Hin
             Hent).
Qed.

Lemma twoAnswers_distinct : NoDup (map fst twoAnswers).
Proof.
  repeat constructor; simpl; intuition discriminate.
Defined.

Lemma deAnonymize_substitutes_witness :
  plainMap twoAnswers = true
  /\ NoDup (map fst twoAnswers)
  /\ separateLabels (map fst twoAnswers) = true
  /\ deAnonymizeText "I prefer Response B here" (Some twoAnswers)
     = "I prefer **mistral** here"
  /\ deAnonymizeText
       ("Response A beats " ++ "Response B" ++ ", Response A wins")
       (Some twoAnswers)
     = deAnonymizeText "Response A beats " (Some twoAnswers)
       ++ boldName "mistral"
       ++ deAnonymizeText ", Response A wins" (Some twoAnswers)
  /\ deAnonymizeText "Response A beats " (Some twoAnswers)
     ++ boldName "mistral"
     ++ deAnonymizeText ", Response A wins" (Some twoAnswers)
     = "**gpt-4o** beats **mistral**, **gpt-4o** wins".
Proof.
  split; [reflexivity | split; [exact twoAnswers_distinct |]].
  split; [reflexivity |]. split; [| split; [| reflexivity]].
  - destruct (deAnonymize_substitutes twoAnswers "I prefer Response B here"
                eq_refl twoAnswers_distinct) as (_ & H & _).
    apply (H "Response B" "mistral" "I prefer " " here").
    + right. left. reflexivity.
    + reflexivity.
    + reflexivity.
    + reflexivity.
    + intros l [<- | [<- | []]] Hne; [reflexivity | contradiction].
  - destruct (deAnonymize_substitutes twoAnswers
                ("Response A beats " ++ "Response B" ++ ", Response A wins")
                eq_refl twoAnswers_distinct) as (_ & _ & _ & _ & H).
    apply (H eq_refl "Response B" "mistral" "Response A beats "
             ", Response A wins"); [| reflexivity].
    right. left. reflexivity.
Defined.

End DeAnonymization.

(* ================================================================== *)
(** * The client state reducer *)
(* ================================================================== *)

Section Reducer.

Import App View.

Lemma lastOf_snoc (init : list Message) (m : Message) :
  lastOf (init ++ [m]) = Some m.
Proof.
  unfold lastOf. rewrite length_app, Nat.add_comm. simpl.
  rewrite Nat.sub_0_r, nth_error_app2 by lia.
  rewrite Nat.sub_diag. reflexivity.
Qed.

Lemma lastOf_some (msgs : list Message) (m : Message) :
  lastOf msgs = Some m -> msgs = removelast msgs ++ [m].
Proof.
  destruct msgs as [| m0 rest]; [discriminate |].
  destruct (exists_last (l := m0 :: rest)) as (init & x & ->);
    [discriminate |].
  rewrite lastOf_snoc. intros H. injection H as ->.
  rewrite removelast_last. reflexivity.
Qed.

Lemma lastMsgOf_withLastMsg (st : State) (m m' : Message) :
  lastMsgOf st = Some m -> lastMsgOf (withLastMsg m' st) = Some m'.
Proof.
  unfold lastMsgOf, withLastMsg. destruct (currentConversation st) as [prev |];
    [| discriminate].
  intros _. simpl. apply lastOf_snoc.
Qed.

Lemma withLastMsg_same (st : State) (m : Message) :
  lastMsgOf st = Some m -> withLastMsg m st = st.
Proof.
  unfold lastMsgOf, withLastMsg. destruct st as [cid [prev |] ld co n];
    simpl; [| discriminate].
  intros H. apply lastOf_some in H. rewrite <- H.
  destruct prev. reflexivity.
Qed.

Lemma withLastMsg_twice (st : State) (m m' : Message) :
  withLastMsg m' (withLastMsg m st) = withLastMsg m' st.
Proof.
  unfold withLastMsg. destruct st as [cid [prev |] ld co n]; simpl;
    [| reflexivity].
  rewrite removelast_last. reflexivity.
Qed.

(** The updater applied to a state that has a last message. *)
Lemma updateLastMsg_spec (body : Mut unit) (st : State) (m : Message) :
  lastMsgOf st = Some m ->
  updateLastMsg body st =
  match fst (body m) with
  | Normal _ => Done (withLastMsg (snd (body m)) st)
  | Thrown e => Crashed e (withLastMsg (snd (body m)) st)
  end.
Proof.
  unfold lastMsgOf, updateLastMsg, withLastMsg.
  destruct (currentConversation st) as [prev |]; [| discriminate].
  intros ->. destruct (body m) as [[u | e] m']; reflexivity.
Qed.

(** The updater applied to a state without a last message throws and
    leaves the state as it is. *)
Lemma updateLastMsg_none (body : Mut unit) (st : State) :
  lastMsgOf st = None -> exists e, updateLastMsg body st = Crashed e st.
Proof.
  unfold lastMsgOf, updateLastMsg.
  destruct (currentConversation st) as [prev |].
  - intros ->. eexists. reflexivity.
  - intros _. eexists. reflexivity.
Qed.

Lemma stateOf_updateLastMsg (body : Mut unit) (st : State) :
  match lastMsgOf st with
  | Some m => stateOf (updateLastMsg body st)
              = withLastMsg (snd (body m)) st
  | None => stateOf (updateLastMsg body st) = st
  end.
Proof.
  destruct (lastMsgOf st) as [m |] eqn:Hm.
  - rewrite (updateLastMsg_spec _ _ _ Hm).
    destruct (fst (body m)); reflexivity.
  - destruct (updateLastMsg_none body st Hm) as [e ->]. reflexivity.
Qed.

Lemma run_cons (turn : Turn) (e : Event) (rest : list Event) (st : State) :
  run turn (e :: rest) st =
  match streamCallback turn e st with
  | Done st' => run turn rest st'
  | Crashed er st' => Crashed er st'
  end.
Proof. reflexivity. Qed.

Lemma run_app (turn : Turn) (es1 es2 : list Event) (st : State) :
  run turn (es1 ++ es2) st =
  match run turn es1 st with
  | Done st' => run turn es2 st'
  | Crashed e st' => Crashed e st'
  end.
Proof.
  revert st. induction es1 as [| e es1 IH]; intros st; [reflexivity |].
  simpl. destruct (streamCallback turn e st); [apply IH | reflexivity].
Qed.

Ltac mut_unfold :=
  unfold on_stage1_start, on_stage1_response, on_stage1_complete,
    on_stage2_start, on_stage2_response, on_stage2_complete,
    on_stage3_start, on_stage3_complete, bind, read, write, ret,
    assignLoading.

(** An arrival event never throws on a message, and it leaves the
    [loading] object alone. *)
Lemma on_stage1_response_normal (d : ResponseData) (m : Message) :
  fst (on_stage1_response d m) = Normal tt
  /\ loading (snd (on_stage1_response d m)) = loading m.
Proof.
  mut_unfold. simpl.
  destruct (failed d); simpl; [split; reflexivity |].
  destruct (includes _ _); simpl; split; reflexivity.
Qed.

Lemma on_stage2_response_normal (d : ResponseData) (m : Message) :
  fst (on_stage2_response d m) = Normal tt
  /\ loading (snd (on_stage2_response d m)) = loading m.
Proof.
  mut_unfold. simpl.
  destruct (failed d); simpl; [split; reflexivity |].
  destruct (includes _ _); simpl; split; reflexivity.
Qed.

Lemma arrival1_done (turn : Turn) (d : ResponseData) (st : State)
    (m : Message) :
  lastMsgOf st = Some m ->
  streamCallback turn (stage1_response d) st
  = Done (withLastMsg (snd (on_stage1_response d m)) st).
Proof.
  intros H. simpl. rewrite (updateLastMsg_spec _ _ _ H).
  destruct (on_stage1_response_normal d m) as [-> _]. reflexivity.
Qed.

Lemma arrival2_done (turn : Turn) (d : ResponseData) (st : State)
    (m : Message) :
  lastMsgOf st = Some m ->
  streamCallback turn (stage2_response d) st
  = Done (withLastMsg (snd (on_stage2_response d m)) st).
Proof.
  intros H. simpl. rewrite (updateLastMsg_spec _ _ _ H).
  destruct (on_stage2_response_normal d m) as [-> _]. reflexivity.
Qed.

(** Any sequence of arrival events of a stage is processed to its end,
    and changes nothing but the last message, whose [loading] object it
    keeps. *)
Lemma arrivals1_run (turn : Turn) (arrivals : list ResponseData) :
  forall st m, lastMsgOf st = Some m ->
  exists m', run turn (map stage1_response arrivals) st
             = Done (withLastMsg m' st)
             /\ loading m' = loading m.
Proof.
  induction arrivals as [| d rest IH]; intros st m H.
  - exists m. simpl. rewrite (withLastMsg_same _ _ H). split; reflexivity.
  - simpl map. rewrite run_cons, (arrival1_done turn d st m H).
    destruct (IH _ _ (lastMsgOf_withLastMsg st m
                        (snd (on_stage1_response d m)) H))
      as (m' & Hrun & Hl).
    exists m'. rewrite Hrun, withLastMsg_twice. split; [reflexivity |].
    rewrite Hl. apply on_stage1_response_normal.
Qed.

Lemma arrivals2_run (turn : Turn) (arrivals : list ResponseData) :
  forall st m, lastMsgOf st = Some m ->
  exists m', run turn (map stage2_response arrivals) st
             = Done (withLastMsg m' st)
             /\ loading m' = loading m.
Proof.
  induction arrivals as [| d rest IH]; intros st m H.
  - exists m. simpl. rewrite (withLastMsg_same _ _ H). split; reflexivity.
  - simpl map. rewrite run_cons, (arrival2_done turn d st m H).
    destruct (IH _ _ (lastMsgOf_withLastMsg st m
                        (snd (on_stage2_response d m)) H))
      as (m' & Hrun & Hl).
    exists m'. rewrite Hrun, withLastMsg_twice. split; [reflexivity |].
    rewrite Hl. apply on_stage2_response_normal.
Qed.

(** ** C1: convergence *)

Lemma ofLastMsg_some {A} (f : Message -> option (list A)) (st : State)
    (m : Message) :
  lastMsgOf st = Some m -> ofLastMsg f st = orEmpty (f m).
Proof. unfold ofLastMsg. intros ->. reflexivity. Qed.

Lemma ofLastMsg_none {A} (f : Message -> option (list A)) (st : State) :
  lastMsgOf st = None -> ofLastMsg f st = [].
Proof. unfold ofLastMsg. intros ->. reflexivity. Qed.

Lemma ofLastMsg_withLastMsg {A} (f : Message -> option (list A))
    (st : State) (m m' : Message) :
  lastMsgOf st = Some m -> ofLastMsg f (withLastMsg m' st) = orEmpty (f m').
Proof.
  intros H. apply ofLastMsg_some. apply (lastMsgOf_withLastMsg st m), H.
Qed.

(** The state after a sequence of arrival events and one more event. *)
Lemma stateOf_after_arrivals (turn : Turn) (st : State) (m m1 : Message)
    (arrivals : list Event) (body : Mut unit) (e : Event) :
  lastMsgOf st = Some m ->
  run turn arrivals st = Done (withLastMsg m1 st) ->
  streamCallback turn e (withLastMsg m1 st)
  = updateLastMsg body (withLastMsg m1 st) ->
  stateOf (run turn (arrivals ++ [e]) st) = withLastMsg (snd (body m1)) st
  /\ (fst (body m1) = Normal tt ->
      run turn (arrivals ++ [e]) st = Done (withLastMsg (snd (body m1)) st)).
Proof.
  intros Hm Hrun He.
  pose proof (lastMsgOf_withLastMsg st m m1 Hm) as Hm1.
  rewrite run_app, Hrun, run_cons, He.
  rewrite (updateLastMsg_spec _ _ _ Hm1), withLastMsg_twice.
  destruct (fst (body m1)) as [[] | er]; split; try reflexivity.
  discriminate.
Qed.

(** C1: for every turn, that is every state with a last message, and
    every sequence of arrival events of a stage followed by the completion
    event of the stage, the list of the stage is then the payload of the
    completion event, whatever the arrival events had accumulated, and in
    stage 2 the metadata are those of the event; when the message has its
    [loading] object, as the message of a turn has, all the events are
    processed without an exception and the pending list is empty. *)
Theorem reducer_convergence (turn : Turn) (st : State) (m : Message)
    (arrivals : list ResponseData) (data : list ResponseData)
    (meta : option Metadata) :
  lastMsgOf st = Some m ->
  (exists m',
      lastMsgOf
        (stateOf (run turn (map stage1_response arrivals
                              ++ [stage1_complete data]) st)) = Some m'
      /\ stage1 m' = Some data)
  /\ (exists m',
      lastMsgOf
        (stateOf (run turn (map stage2_response arrivals
                              ++ [stage2_complete data meta]) st)) = Some m'
      /\ stage2 m' = Some data
      /\ metadata m' = meta)
  /\ (forall l, loading m = Some l ->
      (exists st',
          run turn (map stage1_response arrivals ++ [stage1_complete data]) st
          = Done st'
          /\ stage1Of st' = data /\ pending1Of st' = [])
      /\ (exists st',
          run turn (map stage2_response arrivals
                      ++ [stage2_complete data meta]) st
          = Done st'
          /\ stage2Of st' = data /\ pending2Of st' = [])).
Proof.
  intros Hm.
  destruct (arrivals1_run turn arrivals st m Hm) as (m1 & Hrun1 & Hl1).
  destruct (arrivals2_run turn arrivals st m Hm) as (m2 & Hrun2 & Hl2).
  destruct (stateOf_after_arrivals turn st m m1 _ (on_stage1_complete data)
              (stage1_complete data) Hm Hrun1 eq_refl) as [Hs1 Hd1].
  destruct (stateOf_after_arrivals turn st m m2 _
              (on_stage2_complete data meta) (stage2_complete data meta)
              Hm Hrun2 eq_refl) as [Hs2 Hd2].
  split; [| split].
  - eexists. rewrite Hs1. split; [apply (lastMsgOf_withLastMsg st m), Hm |].
    mut_unfold. simpl. destruct (loading m1); reflexivity.
  - eexists. rewrite Hs2. split; [apply (lastMsgOf_withLastMsg st m), Hm |].
    mut_unfold. simpl. destruct (loading m2); split; reflexivity.
  - intros l Hl. rewrite Hl in Hl1, Hl2. split.
    + eexists. split; [apply Hd1; mut_unfold; simpl; rewrite Hl1; reflexivity |].
      unfold stage1Of, pending1Of.
      rewrite !(ofLastMsg_withLastMsg _ st m _ Hm).
      mut_unfold. simpl. rewrite Hl1. split; reflexivity.
    + eexists. split; [apply Hd2; mut_unfold; simpl; rewrite Hl2; reflexivity |].
      unfold stage2Of, pending2Of.
      rewrite !(ofLastMsg_withLastMsg _ st m _ Hm).
      mut_unfold. simpl. rewrite Hl2. split; reflexivity.
Qed.

Lemma reducer_convergence_witness :
  lastMsgOf freshTurn = Some assistantMessage
  /\ exists m',
       lastMsgOf
         (stateOf (run firstTurn
                     (map stage1_response
                        [answer "m2" "late"; answer "m1" "hi";
                         answer "m2" "late"]
                      ++ [stage1_complete [answer "m1" "hi"]]) freshTurn))
       = Some m'
       /\ stage1 m' = Some [answer "m1" "hi"].
Proof.
  split; [reflexivity |].
  apply (reducer_convergence firstTurn freshTurn assistantMessage
           [answer "m2" "late"; answer "m1" "hi"; answer "m2" "late"]
           [answer "m1" "hi"] None). reflexivity.
Defined.

(** ** C8: failed arrivals *)

(** The pending list without a model: the model is gone, the other models
    stay, each as often as before and in the order of before. *)
Lemma withoutModel_removes (modelName : string) (pending : list string) :
  ~ In modelName (withoutModel modelName pending)
  /\ (forall x, x <> modelName ->
        count_occ string_dec (withoutModel modelName pending) x
        = count_occ string_dec pending x)
  /\ (forall x, In x (withoutModel modelName pending)
                <-> In x pending /\ x <> modelName)
  /\ (~ In modelName pending -> withoutModel modelName pending = pending)
  /\ (forall before after,
        withoutModel modelName (before ++ modelName :: after)
        = withoutModel modelName before ++ withoutModel modelName after).
Proof.
  assert (Hin : forall x, In x (withoutModel modelName pending)
                          <-> In x pending /\ x <> modelName).
  { intros x. unfold withoutModel.
    rewrite filter_In, negb_true_iff, String.eqb_neq. reflexivity. }
  split; [intros H; apply Hin in H; destruct H as [_ H]; apply H; reflexivity |].
  split; [| split; [exact Hin | split]].
  - clear Hin. intros x Hx. unfold withoutModel.
    induction pending as [| y l IH]; [reflexivity |].
    simpl. destruct (String.eqb y modelName) eqn:E; simpl.
    + apply String.eqb_eq in E. subst y.
      destruct (string_dec modelName x) as [E' | _]; [| exact IH].
      subst x. contradiction.
    + rewrite IH. reflexivity.
  - clear Hin. intros Hnot. unfold withoutModel.
    induction pending as [| y l IH]; [reflexivity |].
    simpl. destruct (String.eqb y modelName) eqn:E; simpl.
    + apply String.eqb_eq in E. subst y. exfalso. apply Hnot. left. reflexivity.
    + f_equal. apply IH. intros H. apply Hnot. right. exact H.
  - intros before after. unfold withoutModel.
    rewrite filter_app. simpl. rewrite String.eqb_refl. reflexivity.
Qed.

(** C8: in a state with a last message, an arrival event with
    [failed: true] is processed without an exception.  It removes the
    model from the pending list of its stage: after it the model is not
    pending, and every other model is pending as often as before and in
    the order of before.  It changes nothing else, the list of the stage
    in particular, to which no entry is added; [isLoading] stays as it
    is, and the events after it are processed from the resulting
    state. *)
Theorem failed_arrival_isolated (turn : Turn) (st : State) (m : Message)
    (d : ResponseData) (rest : list Event) :
  lastMsgOf st = Some m ->
  failed d = true ->
  (exists st',
      streamCallback turn (stage1_response d) st = Done st'
      /\ st' = withLastMsg
                 (set_stage1PendingModels
                    (Some (withoutModel (model d)
                             (orEmpty (stage1PendingModels m)))) m) st
      /\ stage1Of st' = stage1Of st
      /\ pending1Of st' = withoutModel (model d) (pending1Of st)
      /\ isLoading st' = isLoading st
      /\ run turn (stage1_response d :: rest) st = run turn rest st'
      /\ ~ In (model d) (pending1Of st')
      /\ (forall x, x <> model d ->
            count_occ string_dec (pending1Of st') x
            = count_occ string_dec (pending1Of st) x)
      /\ (forall x, In x (pending1Of st')
                    <-> In x (pending1Of st) /\ x <> model d)
      /\ pending1Of st'
         = filter (fun x => negb (String.eqb x (model d))) (pending1Of st)
      /\ stage2Of st' = stage2Of st
      /\ pending2Of st' = pending2Of st
      /\ option_map loading (lastMsgOf st') = Some (loading m))
  /\ (exists st',
      streamCallback turn (stage2_response d) st = Done st'
      /\ st' = withLastMsg
                 (set_stage2PendingModels
                    (Some (withoutModel (model d)
                             (orEmpty (stage2PendingModels m)))) m) st
      /\ stage2Of st' = stage2Of st
      /\ pending2Of st' = withoutModel (model d) (pending2Of st)
      /\ isLoading st' = isLoading st
      /\ run turn (stage2_response d :: rest) st = run turn rest st'
      /\ ~ In (model d) (pending2Of st')
      /\ (forall x, x <> model d ->
            count_occ string_dec (pending2Of st') x
            = count_occ string_dec (pending2Of st) x)
      /\ (forall x, In x (pending2Of st')
                    <-> In x (pending2Of st) /\ x <> model d)
      /\ pending2Of st'
         = filter (fun x => negb (String.eqb x (model d))) (pending2Of st)
      /\ stage1Of st' = stage1Of st
      /\ pending1Of st' = pending1Of st
      /\ option_map loading (lastMsgOf st') = Some (loading m)).
Proof.
  intros Hm Hf. split.
  - assert (E : snd (on_stage1_response d m)
                = set_stage1PendingModels
                    (Some (withoutModel (model d)
                             (orEmpty (stage1PendingModels m)))) m)
      by (mut_unfold; simpl; rewrite Hf; reflexivity).
    eexists. split; [apply (arrival1_done turn d st m Hm) |].
    rewrite E. split; [reflexivity |].
    unfold stage1Of, pending1Of, stage2Of, pending2Of.
    rewrite !(ofLastMsg_withLastMsg _ st m _ Hm), !(ofLastMsg_some _ st m Hm).
    rewrite (lastMsgOf_withLastMsg st m _ Hm).
    destruct (withoutModel_removes (model d) (orEmpty (stage1PendingModels m)))
      as (Hgone & Hcount & Hin & _).
    split; [reflexivity |]. split; [reflexivity |].
    split; [reflexivity |].
    split; [rewrite run_cons, (arrival1_done turn d st m Hm), E; reflexivity |].
    split; [exact Hgone |]. split; [exact Hcount |]. split; [exact Hin |].
    repeat split.
  - assert (E : snd (on_stage2_response d m)
                = set_stage2PendingModels
                    (Some (withoutModel (model d)
                             (orEmpty (stage2PendingModels m)))) m)
      by (mut_unfold; simpl; rewrite Hf; reflexivity).
    eexists. split; [apply (arrival2_done turn d st m Hm) |].
    rewrite E. split; [reflexivity |].
    unfold stage1Of, pending1Of, stage2Of, pending2Of.
    rewrite !(ofLastMsg_withLastMsg _ st m _ Hm), !(ofLastMsg_some _ st m Hm).
    rewrite (lastMsgOf_withLastMsg st m _ Hm).
    destruct (withoutModel_removes (model d) (orEmpty (stage2PendingModels m)))
      as (Hgone & Hcount & Hin & _).
    split; [reflexivity |]. split; [reflexivity |].
    split; [reflexivity |].
    split; [rewrite run_cons, (arrival2_done turn d st m Hm), E; reflexivity |].
    split; [exact Hgone |]. split; [exact Hcount |]. split; [exact Hin |].
    repeat split.
Qed.

Lemma failed_arrival_isolated_witness :
  lastMsgOf twoModelsPending
  = Some (mkMessage "assistant" None None
            (Some [answer "m1" "hello"]) None None None
            (Some (Loading.mk true false false)) (Some ["m2"; "m3"]) None)
  /\ failed (failure "m2") = true
  /\ exists st',
       streamCallback firstTurn (stage1_response (failure "m2"))
         twoModelsPending = Done st'
       /\ stage1Of st' = [answer "m1" "hello"]
       /\ pending1Of st' = ["m3"]
       /\ ~ In "m2" (pending1Of st')
       /\ run firstTurn
            [stage1_response (failure "m2");
             stage1_complete [answer "m1" "hello"]] twoModelsPending
          = run firstTurn [stage1_complete [answer "m1" "hello"]] st'.
Proof.
  split; [reflexivity | split; [reflexivity |]].
  destruct (failed_arrival_isolated firstTurn twoModelsPending
              (mkMessage "assistant" None None
                 (Some [answer "m1" "hello"]) None None None
                 (Some (Loading.mk true false false)) (Some ["m2"; "m3"])
                 None)
              (failure "m2") [stage1_complete [answer "m1" "hello"]]
              eq_refl eq_refl)
    as [(st' & H1 & H2 & H3 & H4 & H5 & H6 & H7 & _) _].
  exists st'. split; [exact H1 |].
  split; [rewrite H3; reflexivity |].
  split; [rewrite H4; reflexivity |].
  split; [exact H7 | exact H6].
Defined.

(** ** The guard of an arrival event *)

Lemma filter_filter_same {A} (f : A -> bool) (l : list A) :
  filter f (filter f l) = filter f l.
Proof.
  induction l as [| x l IH]; [reflexivity |].
  simpl. destruct (f x) eqn:E; simpl; [rewrite E, IH |]; auto.
Qed.

Lemma includes_In (existingModels : list string) (modelName : string) :
  includes existingModels modelName = true <-> In modelName existingModels.
Proof.
  unfold includes. rewrite existsb_exists. split.
  - intros (x & Hx & E). apply String.eqb_eq in E. subst x. exact Hx.
  - intros H. exists modelName. split; [exact H | apply String.eqb_refl].
Qed.

(** What an arrival event does to the list of its stage: nothing, or it
    appends its data, and that only if the invocation did not fail and
    no entry of the list carries the model. *)
Lemma on_stage1_response_list (d : ResponseData) (m : Message) :
  orEmpty (stage1 (snd (on_stage1_response d m))) = orEmpty (stage1 m)
  \/ (orEmpty (stage1 (snd (on_stage1_response d m)))
        = orEmpty (stage1 m) ++ [d]
      /\ failed d = false
      /\ ~ In (model d) (map model (orEmpty (stage1 m)))).
Proof.
  mut_unfold. simpl. destruct (failed d); simpl; [left; reflexivity |].
  destruct (includes _ _) eqn:E; simpl; [left; reflexivity | right].
  split; [reflexivity | split; [reflexivity |]].
  intros H. apply includes_In in H. rewrite H in E. discriminate E.
Qed.

Lemma on_stage2_response_list (d : ResponseData) (m : Message) :
  orEmpty (stage2 (snd (on_stage2_response d m))) = orEmpty (stage2 m)
  \/ (orEmpty (stage2 (snd (on_stage2_response d m)))
        = orEmpty (stage2 m) ++ [d]
      /\ failed d = false
      /\ ~ In (model d) (map model (orEmpty (stage2 m)))).
Proof.
  mut_unfold. simpl. destruct (failed d); simpl; [left; reflexivity |].
  destruct (includes _ _) eqn:E; simpl; [left; reflexivity | right].
  split; [reflexivity | split; [reflexivity |]].
  intros H. apply includes_In in H. rewrite H in E. discriminate E.
Qed.

Lemma entriesFor_snoc (x : string) (l : list ResponseData)
    (d : ResponseData) :
  entriesFor x (l ++ [d])
  = entriesFor x l + (if string_dec (model d) x then 1 else 0).
Proof.
  unfold entriesFor. rewrite map_app, count_occ_app. simpl.
  destruct (string_dec (model d) x); reflexivity.
Qed.

(** A guarded append keeps a model that has at most one entry at one
    entry at most. *)
Lemma guarded_append_bound (x : string) (l l' : list ResponseData)
    (d : ResponseData) :
  l' = l \/ (l' = l ++ [d] /\ failed d = false
             /\ ~ In (model d) (map model l)) ->
  entriesFor x l <= 1 -> entriesFor x l' <= 1.
Proof.
  intros [-> | (-> & _ & Hnot)] H; [exact H |].
  rewrite entriesFor_snoc. destruct (string_dec (model d) x) as [E | E];
    [| lia].
  subst x. unfold entriesFor.
  rewrite (proj1 (count_occ_not_In string_dec _ _) Hnot). lia.
Qed.

Lemma stage1Of_arrival (turn : Turn) (d : ResponseData) (st : State) :
  let st' := stateOf (streamCallback turn (stage1_response d) st) in
  stage1Of st' = stage1Of st
  \/ (stage1Of st' = stage1Of st ++ [d] /\ failed d = false
      /\ ~ In (model d) (map model (stage1Of st))).
Proof.
  destruct (lastMsgOf st) as [m |] eqn:Hm.
  - rewrite (arrival1_done turn d st m Hm). simpl. unfold stage1Of.
    rewrite (ofLastMsg_withLastMsg _ st m _ Hm), (ofLastMsg_some _ st m Hm).
    apply on_stage1_response_list.
  - simpl. destruct (updateLastMsg_none (on_stage1_response d) st Hm)
      as [e ->]. left. reflexivity.
Qed.

Lemma stage2Of_arrival (turn : Turn) (d : ResponseData) (st : State) :
  let st' := stateOf (streamCallback turn (stage2_response d) st) in
  stage2Of st' = stage2Of st
  \/ (stage2Of st' = stage2Of st ++ [d] /\ failed d = false
      /\ ~ In (model d) (map model (stage2Of st))).
Proof.
  destruct (lastMsgOf st) as [m |] eqn:Hm.
  - rewrite (arrival2_done turn d st m Hm). simpl. unfold stage2Of.
    rewrite (ofLastMsg_withLastMsg _ st m _ Hm), (ofLastMsg_some _ st m Hm).
    apply on_stage2_response_list.
  - simpl. destruct (updateLastMsg_none (on_stage2_response d) st Hm)
      as [e ->]. left. reflexivity.
Qed.

(** The state after two events. *)
Lemma stateOf_run_two (turn : Turn) (e1 e2 : Event) (st : State) :
  stateOf (run turn [e1; e2] st)
  = stateOf (streamCallback turn e2 (stateOf (streamCallback turn e1 st)))
  \/ stateOf (run turn [e1; e2] st) = stateOf (streamCallback turn e1 st).
Proof.
  rewrite run_cons. destruct (streamCallback turn e1 st) as [st1 | er st1].
  - left. rewrite run_cons. simpl stateOf at 2.
    destruct (streamCallback turn e2 st1); reflexivity.
  - right. reflexivity.
Qed.

(** An arrival event processed a second time changes nothing more: the
    model is already out of the pending list and in the list of the
    stage. *)
Lemma arrival_twice_same (d : ResponseData) (m : Message) :
  snd (on_stage1_response d (snd (on_stage1_response d m)))
  = snd (on_stage1_response d m)
  /\ snd (on_stage2_response d (snd (on_stage2_response d m)))
     = snd (on_stage2_response d m).
Proof.
  assert (Hf : forall l, withoutModel (model d) (withoutModel (model d) l)
                         = withoutModel (model d) l).
  { intros l. unfold withoutModel. rewrite filter_filter_same. reflexivity. }
  assert (Hi : forall l, includes (map model (l ++ [d])) (model d) = true).
  { intros l. apply includes_In. rewrite map_app. apply in_app_iff.
    right. left. reflexivity. }
  split; mut_unfold; simpl.
  - destruct (failed d); simpl; [rewrite Hf; reflexivity |].
    destruct (includes (map model (orEmpty (stage1 m))) (model d)) eqn:E;
      simpl.
    + rewrite E. simpl. rewrite Hf. reflexivity.
    + rewrite Hi. simpl. rewrite Hf. reflexivity.
  - destruct (failed d); simpl; [rewrite Hf; reflexivity |].
    destruct (includes (map model (orEmpty (stage2 m))) (model d)) eqn:E;
      simpl.
    + rewrite E. simpl. rewrite Hf. reflexivity.
    + rewrite Hi. simpl. rewrite Hf. reflexivity.
Qed.

(** In every state, two arrival events of a stage keep a model that has
    at most one entry in the list of the stage at one entry at most; and
    an arrival event changes the list only by appending its own data,
    after checking that no entry of the list carries its model. *)
Lemma two_arrivals_keep_bound (turn : Turn) (st : State)
    (modelName : string) (d1 d2 : ResponseData) :
  (entriesFor modelName (stage1Of st) <= 1 ->
   entriesFor modelName
     (stage1Of (stateOf (run turn [stage1_response d1; stage1_response d2]
                           st))) <= 1)
  /\ (entriesFor modelName (stage2Of st) <= 1 ->
      entriesFor modelName
        (stage2Of (stateOf (run turn [stage2_response d1; stage2_response d2]
                              st))) <= 1)
  /\ (let st' := stateOf (streamCallback turn (stage1_response d1) st) in
      stage1Of st' = stage1Of st
      \/ (stage1Of st' = stage1Of st ++ [d1] /\ failed d1 = false
          /\ ~ In (model d1) (map model (stage1Of st))))
  /\ (let st' := stateOf (streamCallback turn (stage2_response d1) st) in
      stage2Of st' = stage2Of st
      \/ (stage2Of st' = stage2Of st ++ [d1] /\ failed d1 = false
          /\ ~ In (model d1) (map model (stage2Of st)))).
Proof.
  split; [| split; [| split]].
  - intros H.
    pose proof (guarded_append_bound modelName _ _ d1
                  (stage1Of_arrival turn d1 st) H) as H1.
    destruct (stateOf_run_two turn (stage1_response d1) (stage1_response d2)
                st) as [-> | ->]; [| exact H1].
    apply (guarded_append_bound modelName _ _ d2
             (stage1Of_arrival turn d2 _) H1).
  - intros H.
    pose proof (guarded_append_bound modelName _ _ d1
                  (stage2Of_arrival turn d1 st) H) as H1.
    destruct (stateOf_run_two turn (stage2_response d1) (stage2_response d2)
                st) as [-> | ->]; [| exact H1].
    apply (guarded_append_bound modelName _ _ d2
             (stage2Of_arrival turn d2 _) H1).
  - apply stage1Of_arrival.
  - apply stage2Of_arrival.
Qed.

(** ** The frame of an event *)

(** An event either runs its updater on the last message or leaves the
    conversation as it is. *)
Lemma streamCallback_body (turn : Turn) (e : Event) (st : State) :
  match bodyOf e with
  | Some body => streamCallback turn e st = updateLastMsg body st
  | None => exists st', streamCallback turn e st = Done st'
                        /\ currentConversation st' = currentConversation st
  end.
Proof.
  destruct e; simpl; try reflexivity; eexists; split; reflexivity.
Qed.

Lemma messagesOf_withLastMsg (st : State) (m m' : Message) :
  lastMsgOf st = Some m ->
  messagesOf (withLastMsg m' st) = removelast (messagesOf st) ++ [m'].
Proof.
  unfold lastMsgOf, messagesOf, withLastMsg.
  destruct (currentConversation st); [reflexivity | discriminate].
Qed.

Lemma messagesOf_lastMsgOf (st : State) (m : Message) :
  lastMsgOf st = Some m -> messagesOf st = removelast (messagesOf st) ++ [m].
Proof.
  unfold lastMsgOf, messagesOf.
  destruct (currentConversation st); [apply lastOf_some | discriminate].
Qed.

(** Every event leaves the messages before the last one as they are and
    the number of messages too. *)
Lemma streamCallback_frame (turn : Turn) (e : Event) (st : State) :
  removelast (messagesOf (stateOf (streamCallback turn e st)))
  = removelast (messagesOf st)
  /\ List.length (messagesOf (stateOf (streamCallback turn e st)))
     = List.length (messagesOf st).
Proof.
  pose proof (streamCallback_body turn e st) as H.
  destruct (bodyOf e) as [body |].
  - rewrite H. pose proof (stateOf_updateLastMsg body st) as H'.
    destruct (lastMsgOf st) as [m |] eqn:Hm.
    + rewrite H', (messagesOf_withLastMsg st m _ Hm).
      rewrite removelast_last. split; [reflexivity |].
      rewrite (messagesOf_lastMsgOf st m Hm) at 2.
      rewrite !length_app. reflexivity.
    + rewrite H'. split; reflexivity.
  - destruct H as (st' & -> & Hc). unfold messagesOf. simpl.
    rewrite Hc. split; reflexivity.
Qed.

(** ** C7: the error event *)

(** C7, as stated, fails in its second half.  The error event records
    nothing about the failure in the turn: the conversation is the one of
    before, its last message still says that stage 1 is running, and the
    conversation and [isLoading] are those that the event [complete]
    leaves. *)
Lemma error_event_leaves_no_mark :
  currentConversation
    (stateOf (streamCallback firstTurn (error "timeout") oneAnswerStreamed))
  = currentConversation oneAnswerStreamed
  /\ option_map loading (lastMsgOf
        (stateOf (streamCallback firstTurn (error "timeout")
                    oneAnswerStreamed)))
     = Some (Some (Loading.mk true false false))
  /\ currentConversation
       (stateOf (streamCallback firstTurn (error "timeout")
                   oneAnswerStreamed))
     = currentConversation
         (stateOf (streamCallback firstTurn complete oneAnswerStreamed))
  /\ isLoading
       (stateOf (streamCallback firstTurn (error "timeout")
                   oneAnswerStreamed))
     = isLoading
         (stateOf (streamCallback firstTurn complete oneAnswerStreamed)).
Proof. repeat split. Qed.

(** C7, amended: for every state, the error event is processed without an
    exception and leaves the conversation as it is, so that the lists of
    stage 1 and stage 2, the text of stage 3, the metadata, the pending
    lists and the [loading] flags of every message are those of before;
    it writes the message to the console and sets [isLoading] to false,
    and nothing else. *)
Theorem error_event_frame (turn : Turn) (message : string) (st : State) :
  exists st',
    streamCallback turn (error message) st = Done st'
    /\ currentConversation st' = currentConversation st
    /\ lastMsgOf st' = lastMsgOf st
    /\ messagesOf st' = messagesOf st
    /\ isLoading st' = false
    /\ console st' = console st ++ [console_error "Stream error:" message]
    /\ currentConversationId st' = currentConversationId st
    /\ loadConversationsCalls st' = loadConversationsCalls st.
Proof. eexists. repeat split. Qed.

(** ** C4: the pending lists *)

Lemma ofLastMsg_ext {A} (f : Message -> option (list A)) (st st' : State) :
  currentConversation st' = currentConversation st ->
  ofLastMsg f st' = ofLastMsg f st.
Proof. unfold ofLastMsg, lastMsgOf. intros ->. reflexivity. Qed.

Lemma filter_all {A} (l : list A) : filter (fun _ => true) l = l.
Proof. induction l as [| x l IH]; [reflexivity | simpl; f_equal; exact IH]. Qed.

Lemma filter_none {A} (l : list A) : filter (fun _ => false) l = [].
Proof. induction l as [| x l IH]; [reflexivity | exact IH]. Qed.

Lemma filter_filter {A} (f g : A -> bool) (l : list A) :
  filter f (filter g l) = filter (fun x => g x && f x) l.
Proof.
  induction l as [| x l IH]; [reflexivity |].
  simpl. destruct (g x); simpl; [destruct (f x) |]; rewrite IH; reflexivity.
Qed.

Lemma withoutModel_In (modelName x : string) (l : list string) :
  In x (withoutModel modelName l) <-> In x l /\ x <> modelName.
Proof.
  unfold withoutModel. rewrite filter_In, negb_true_iff, String.eqb_neq.
  reflexivity.
Qed.

(** What the updater of an event other than the start event of stage 1
    does to the pending list of stage 1: it keeps a part of it. *)
Lemma pending1_body (e : Event) (body : Mut unit) (m : Message) :
  bodyOf e = Some body -> isStage1Start e = false ->
  exists keep,
    orEmpty (stage1PendingModels (snd (body m)))
    = filter keep (orEmpty (stage1PendingModels m)).
Proof.
  destruct e; simpl; intros Hb Hs; try discriminate;
    injection Hb as <-; mut_unfold; simpl.
  - exists (fun x => negb (String.eqb x (model data))).
    destruct (failed data); simpl; [reflexivity |].
    destruct (includes _ _); reflexivity.
  - destruct (loading m); simpl;
      [exists (fun _ => false); rewrite filter_none
      | exists (fun _ => true); rewrite filter_all]; reflexivity.
  - exists (fun _ => true). rewrite filter_all.
    destruct (loading m); simpl; [| reflexivity].
    destruct meta as [[[ltm |] agg] |]; reflexivity.
  - exists (fun _ => true). rewrite filter_all.
    destruct (failed data); simpl; [reflexivity |].
    destruct (includes _ _); reflexivity.
  - exists (fun _ => true). rewrite filter_all.
    destruct (loading m); reflexivity.
  - exists (fun _ => true). rewrite filter_all.
    destruct (loading m); reflexivity.
  - exists (fun _ => true). rewrite filter_all.
    destruct (loading m); reflexivity.
Qed.

Lemma pending2_body (e : Event) (body : Mut unit) (m : Message) :
  bodyOf e = Some body -> isStage2Start e = false ->
  exists keep,
    orEmpty (stage2PendingModels (snd (body m)))
    = filter keep (orEmpty (stage2PendingModels m)).
Proof.
  destruct e; simpl; intros Hb Hs; try discriminate;
    injection Hb as <-; mut_unfold; simpl.
  - exists (fun _ => true). rewrite filter_all.
    destruct (loading m); reflexivity.
  - exists (fun _ => true). rewrite filter_all.
    destruct (failed data); simpl; [reflexivity |].
    destruct (includes _ _); reflexivity.
  - exists (fun _ => true). rewrite filter_all.
    destruct (loading m); reflexivity.
  - exists (fun x => negb (String.eqb x (model data))).
    destruct (failed data); simpl; [reflexivity |].
    destruct (includes _ _); reflexivity.
  - destruct (loading m); simpl;
      [exists (fun _ => false); rewrite filter_none
      | exists (fun _ => true); rewrite filter_all]; reflexivity.
  - exists (fun _ => true). rewrite filter_all.
    destruct (loading m); reflexivity.
  - exists (fun _ => true). rewrite filter_all.
    destruct (loading m); reflexivity.
Qed.

(** One event, then a sequence of them, other than the start event of
    the stage: the pending list of the stage only loses elements. *)
Lemma pending_step (turn : Turn) (e : Event) (st : State)
    (f : Message -> option (list string)) :
  (forall body m, bodyOf e = Some body ->
     exists keep, orEmpty (f (snd (body m))) = filter keep (orEmpty (f m))) ->
  exists keep,
    ofLastMsg f (stateOf (streamCallback turn e st))
    = filter keep (ofLastMsg f st).
Proof.
  intros Hbody. pose proof (streamCallback_body turn e st) as H.
  destruct (bodyOf e) as [body |].
  - rewrite H. pose proof (stateOf_updateLastMsg body st) as H'.
    destruct (lastMsgOf st) as [m |] eqn:Hm; rewrite H'.
    + destruct (Hbody body m eq_refl) as [keep E]. exists keep.
      rewrite (ofLastMsg_withLastMsg _ st m _ Hm), (ofLastMsg_some _ st m Hm).
      exact E.
    + exists (fun _ => true). rewrite filter_all. reflexivity.
  - destruct H as (st' & -> & Hc). exists (fun _ => true).
    rewrite filter_all. apply ofLastMsg_ext, Hc.
Qed.

Lemma pending_run (turn : Turn) (f : Message -> option (list string))
    (allowed : Event -> bool) :
  (forall e body m, allowed e = true -> bodyOf e = Some body ->
     exists keep, orEmpty (f (snd (body m))) = filter keep (orEmpty (f m))) ->
  forall events st, forallb allowed events = true ->
  exists keep,
    ofLastMsg f (stateOf (run turn events st)) = filter keep (ofLastMsg f st).
Proof.
  intros Hbody. induction events as [| e rest IH]; intros st Hall.
  - exists (fun _ => true). rewrite filter_all. reflexivity.
  - simpl in Hall. apply andb_true_iff in Hall. destruct Hall as [He Hrest].
    destruct (pending_step turn e st f (fun body m => Hbody e body m He))
      as [keep1 E1].
    rewrite run_cons.
    destruct (streamCallback turn e st) as [st1 | er st1]; simpl in E1.
    + destruct (IH st1 Hrest) as [keep2 E2].
      exists (fun x => keep1 x && keep2 x).
      rewrite E2, E1. apply filter_filter.
    + exists keep1. exact E1.
Qed.

(** C4, as stated, fails.  The pending list is empty as soon as every
    model of the start event has reported: here after the one arrival
    event, before any completion event has been processed. *)
Lemma pending_empty_before_completion :
  ~ (pending1Of
       (stateOf (run firstTurn
                   [stage1_start (Some ["m1"]);
                    stage1_response (answer "m1" "hello")] freshTurn)) = []
     <-> existsb isStage1Complete
           [stage1_start (Some ["m1"]);
            stage1_response (answer "m1" "hello")] = true).
Proof. intros [H _]. specialize (H eq_refl). discriminate H. Qed.

(** C4, amended: in a turn, the start event of a stage sets the pending
    list of the stage to the models it delivers; an arrival event, failed
    or not, removes its model from the list and nothing else; through any
    sequence of events without a start event of the stage the list only
    loses elements; and once the completion event of the stage has been
    processed the list is empty.  The list may be empty before that. *)
Theorem pending_set_shrinks (turn : Turn) (st : State) :
  (forall m l models meta,
      lastMsgOf st = Some m -> loading m = Some l ->
      pending1Of (stateOf (streamCallback turn (stage1_start models) st))
      = orEmpty models
      /\ pending2Of
           (stateOf (streamCallback turn (stage2_start models meta) st))
         = orEmpty models)
  /\ (forall d,
        pending1Of (stateOf (streamCallback turn (stage1_response d) st))
        = withoutModel (model d) (pending1Of st)
        /\ pending2Of (stateOf (streamCallback turn (stage2_response d) st))
           = withoutModel (model d) (pending2Of st))
  /\ (forall modelName x pending,
        In x (withoutModel modelName pending)
        <-> In x pending /\ x <> modelName)
  /\ (forall events,
        forallb (fun e => negb (isStage1Start e)) events = true ->
        exists keep,
          pending1Of (stateOf (run turn events st))
          = filter keep (pending1Of st))
  /\ (forall events,
        forallb (fun e => negb (isStage2Start e)) events = true ->
        exists keep,
          pending2Of (stateOf (run turn events st))
          = filter keep (pending2Of st))
  /\ (forall m l data meta,
        lastMsgOf st = Some m -> loading m = Some l ->
        pending1Of (stateOf (streamCallback turn (stage1_complete data) st))
        = []
        /\ pending2Of
             (stateOf (streamCallback turn (stage2_complete data meta) st))
           = []).
Proof.
  split; [| split; [| split; [| split; [| split]]]].
  - intros m l models meta Hm Hl. unfold pending1Of, pending2Of. simpl.
    pose proof (stateOf_updateLastMsg (on_stage1_start models) st) as H1.
    pose proof (stateOf_updateLastMsg (on_stage2_start models meta) st) as H2.
    rewrite Hm in H1, H2. rewrite H1, H2.
    rewrite !(ofLastMsg_withLastMsg _ st m _ Hm).
    mut_unfold. simpl. rewrite Hl. simpl. split; [reflexivity |].
    destruct meta as [[[ltm |] agg] |]; reflexivity.
  - intros d. unfold pending1Of, pending2Of. simpl.
    pose proof (stateOf_updateLastMsg (on_stage1_response d) st) as H1.
    pose proof (stateOf_updateLastMsg (on_stage2_response d) st) as H2.
    destruct (lastMsgOf st) as [m |] eqn:Hm; rewrite H1, H2.
    + rewrite !(ofLastMsg_withLastMsg _ st m _ Hm),
        !(ofLastMsg_some _ st m Hm).
      mut_unfold. simpl. destruct (failed d); simpl; [split; reflexivity |].
      destruct (includes _ _), (includes _ _); split; reflexivity.
    + rewrite !(ofLastMsg_none _ st Hm). split; reflexivity.
  - intros modelName x pending. apply withoutModel_In.
  - intros events Hall. unfold pending1Of.
    apply (pending_run turn stage1PendingModels
             (fun e => negb (isStage1Start e))); [| exact Hall].
    intros e body m He Hb. apply (pending1_body e body m Hb).
    apply negb_true_iff, He.
  - intros events Hall. unfold pending2Of.
    apply (pending_run turn stage2PendingModels
             (fun e => negb (isStage2Start e))); [| exact Hall].
    intros e body m He Hb. apply (pending2_body e body m Hb).
    apply negb_true_iff, He.
  - intros m l data meta Hm Hl. unfold pending1Of, pending2Of. simpl.
    pose proof (stateOf_updateLastMsg (on_stage1_complete data) st) as H1.
    pose proof (stateOf_updateLastMsg (on_stage2_complete data meta) st)
      as H2.
    rewrite Hm in H1, H2. rewrite H1, H2.
    rewrite !(ofLastMsg_withLastMsg _ st m _ Hm).
    mut_unfold. simpl. rewrite Hl. split; reflexivity.
Qed.

Lemma pending_set_shrinks_witness :
  lastMsgOf freshTurn = Some assistantMessage
  /\ loading assistantMessage = Some (Loading.mk false false false)
  /\ pending1Of
       (stateOf (streamCallback firstTurn (stage1_start (Some ["m1"; "m2"]))
                   freshTurn))
     = ["m1"; "m2"]
  /\ pending1Of
       (stateOf (streamCallback firstTurn
                   (stage1_complete [answer "m1" "hello"]) freshTurn))
     = [].
Proof.
  split; [reflexivity | split; [reflexivity |]].
  destruct (pending_set_shrinks firstTurn freshTurn)
    as (Hstart & _ & _ & _ & _ & Hcomplete).
  split.
  - apply (Hstart assistantMessage (Loading.mk false false false)
             (Some ["m1"; "m2"]) None); reflexivity.
  - apply (Hcomplete assistantMessage (Loading.mk false false false)
             [answer "m1" "hello"] None); reflexivity.
Defined.

End Reducer.

(* ================================================================== *)
(** * Attachments *)
(* ================================================================== *)

Section Attachments.

Import ChatInterface.
Local Open Scope N_scope.

Lemma allowedType_In (t : string) :
  allowedType t = true <-> In t ALLOWED_TYPES.
Proof.
  unfold allowedType. rewrite existsb_exists. split.
  - intros (x & Hx & E). apply String.eqb_eq in E. subst x. exact Hx.
  - intros H. exists t. split; [exact H | apply String.eqb_refl].
Qed.

(** [processFile] resolves only for a file of an allowed type and of at
    most the maximal size, and then with what the reader gives. *)
Lemma processFile_inl (file : File) (url : string) :
  processFile file = inl url ->
  In (type file) ALLOWED_TYPES
  /\ size file <= MAX_FILE_SIZE
  /\ readAsDataURL file = Some url.
Proof.
  unfold processFile.
  destruct (allowedType (type file)) eqn:Et; simpl; [| discriminate].
  destruct (MAX_FILE_SIZE <? size file) eqn:Es; [discriminate |].
  destruct (readAsDataURL file) as [u |]; [| discriminate].
  intros H. injection H as ->.
  split; [apply allowedType_In, Et |].
  split; [apply N.ltb_ge, Es | reflexivity].
Qed.

Lemma processFile_rejects (file : File) :
  ~ In (type file) ALLOWED_TYPES \/ MAX_FILE_SIZE < size file ->
  exists err, processFile file = inr err.
Proof.
  intros H. destruct (processFile file) as [url | err] eqn:E;
    [| exists err; reflexivity].
  apply processFile_inl in E. destruct E as (Ht & Hs & _).
  destruct H as [H | H]; [contradiction | lia].
Qed.

Lemma addImagesLoop_cons (rendered : list string) (file : File)
    (rest : list File) (newImages : list string) (shown : list Alert) :
  addImagesLoop rendered (file :: rest) newImages shown =
  if (MAX_IMAGES <=? List.length rendered + List.length newImages)%nat
  then (newImages, (shown ++ [MaximumImages])%list)
  else match processFile file with
       | inl dataUrl =>
           addImagesLoop rendered rest (newImages ++ [dataUrl])%list shown
       | inr err =>
           addImagesLoop rendered rest newImages
             (shown ++ [ErrorMessage err])%list
       end.
Proof. reflexivity. Qed.

(** The loop keeps the number of images within the limit and adds only
    validated data URLs. *)
Lemma addImagesLoop_spec (rendered : list string) (files : list File) :
  forall newImages shown,
    (List.length rendered + List.length newImages <= MAX_IMAGES)%nat ->
    let '(newImages', _) := addImagesLoop rendered files newImages shown in
    (List.length rendered + List.length newImages' <= MAX_IMAGES)%nat
    /\ forall url, In url newImages' ->
                   In url newImages \/ validatedUrl files url.
Proof.
  induction files as [| file rest IH]; intros newImages shown Hlen.
  - simpl. split; [exact Hlen | intros url H; left; exact H].
  - rewrite addImagesLoop_cons.
    destruct (MAX_IMAGES <=? List.length rendered + List.length newImages)%nat
      eqn:Efull.
    + split; [exact Hlen | intros url H; left; exact H].
    + apply Nat.leb_gt in Efull.
      destruct (processFile file) as [url0 | err] eqn:Ep.
      * specialize (IH (newImages ++ [url0])%list shown).
        destruct (addImagesLoop rendered rest (newImages ++ [url0]) shown)
          as [new' sh'].
        destruct IH as [Hl Hin]; [rewrite length_app; simpl; lia |].
        split; [exact Hl |].
        intros url Hu. destruct (Hin url Hu) as [H | H].
        -- apply in_app_iff in H. destruct H as [H | [<- | []]];
             [left; exact H | right].
           exists file. split; [left; reflexivity |].
           apply processFile_inl, Ep.
        -- right. destruct H as (f & Hf & Hrest). exists f.
           split; [right; exact Hf | exact Hrest].
      * specialize (IH newImages (shown ++ [ErrorMessage err])%list Hlen).
        destruct (addImagesLoop rendered rest newImages
                    (shown ++ [ErrorMessage err])) as [new' sh'].
        destruct IH as [Hl Hin]. split; [exact Hl |].
        intros url Hu. destruct (Hin url Hu) as [H | H]; [left; exact H |].
        right. destruct H as (f & Hf & Hrest). exists f.
        split; [right; exact Hf | exact Hrest].
Qed.

Lemma validatedUrl_incl (files files' : list File) (url : string) :
  incl files files' -> validatedUrl files url -> validatedUrl files' url.
Proof.
  intros Hi (f & Hf & Hrest). exists f. split; [apply Hi, Hf | exact Hrest].
Qed.

Lemma addImages_valid (all files : list File) (st : State) :
  incl files all -> attachmentsValid all st ->
  attachmentsValid all (addImages (images st) files st).
Proof.
  intros Hincl [Hlen Hval]. unfold addImages.
  pose proof (addImagesLoop_spec (images st) files [] []) as H.
  destruct (addImagesLoop (images st) files [] []) as [new' sh'].
  destruct H as [Hl Hin]; [simpl; lia |].
  destruct new' as [| u new']; [split; assumption |].
  split; simpl images.
  - rewrite length_app. exact Hl.
  - intros url Hu. apply in_app_iff in Hu. destruct Hu as [Hu | Hu];
      [apply Hval, Hu |].
    destruct (Hin url Hu) as [[] | H].
    apply (validatedUrl_incl files all url Hincl H).
Qed.

Lemma removeAt_incl {A} (index : nat) (l : list A) :
  incl (removeAt index l) l /\ (List.length (removeAt index l) <= List.length l)%nat.
Proof.
  revert index. induction l as [| x l IH]; intros index.
  - destruct index; split; [intros y [] | simpl; lia | intros y [] |
                              simpl; lia].
  - destruct index as [| i]; simpl.
    + split; [intros y Hy; right; exact Hy | lia].
    + destruct (IH i) as [Hi Hl]. split; [| lia].
      intros y [<- | Hy]; [left; reflexivity | right; apply Hi, Hy].
Qed.

(** ** The calls in flight *)

(** [processFile] in its two stages: the checks made at once, then the
    reader. *)
Lemma processFile_stages (file : File) :
  processFile file
  = match rejectedAtOnce file with
    | Some err => inr err
    | None =>
        match readAsDataURL file with
        | Some dataUrl => inl dataUrl
        | None => inr FailedToReadFile
        end
    end.
Proof.
  unfold processFile, rejectedAtOnce.
  destruct (negb (allowedType (type file))); [reflexivity |].
  destruct (MAX_FILE_SIZE <? size file); reflexivity.
Qed.

Lemma rejectedAtOnce_None (file : File) :
  rejectedAtOnce file = None ->
  In (type file) ALLOWED_TYPES /\ size file <= MAX_FILE_SIZE.
Proof.
  unfold rejectedAtOnce.
  destruct (allowedType (type file)) eqn:Et; simpl; [| discriminate].
  destruct (MAX_FILE_SIZE <? size file) eqn:Es; [discriminate |].
  intros _. split; [apply allowedType_In, Et | apply N.ltb_ge, Es].
Qed.

Lemma untilRead_cons (rendered : list string) (file : File)
    (rest : list File) (newImages : list string) (shown : list Alert) :
  untilRead rendered (file :: rest) newImages shown
  = if (MAX_IMAGES <=? List.length rendered + List.length newImages)%nat
    then (Settled newImages, (shown ++ [MaximumImages])%list)
    else match rejectedAtOnce file with
         | Some err =>
             untilRead rendered rest newImages
               (shown ++ [ErrorMessage err])%list
         | None => (Suspended (mkCall rendered file rest newImages), shown)
         end.
Proof. reflexivity. Qed.

(** The alerts of the loop come after those shown before it. *)
Lemma addImagesLoop_shown (rendered : list string) (files : list File) :
  forall newImages shown,
    addImagesLoop rendered files newImages shown
    = (fst (addImagesLoop rendered files newImages []),
       (shown ++ snd (addImagesLoop rendered files newImages []))%list).
Proof.
  induction files as [| file rest IH]; intros newImages shown.
  - simpl. rewrite app_nil_r. reflexivity.
  - rewrite !addImagesLoop_cons.
    destruct (MAX_IMAGES <=? List.length rendered + List.length newImages)%nat;
      [reflexivity |].
    destruct (processFile file) as [url | err].
    + apply IH.
    + rewrite (IH newImages (shown ++ [ErrorMessage err])%list).
      rewrite (IH newImages ([] ++ [ErrorMessage err])%list).
      simpl. rewrite <- app_assoc. reflexivity.
Qed.

(** The form when the loop has run to its end. *)
Lemma addImages_loop (rendered : list string) (files : list File)
    (st : State) :
  addImages rendered files st
  = mkState (input st)
      (match fst (addImagesLoop rendered files [] []) with
       | [] => images st
       | _ => (images st ++ fst (addImagesLoop rendered files [] []))%list
       end)
      (alerts st ++ snd (addImagesLoop rendered files [] []))%list.
Proof.
  unfold addImages. destruct (addImagesLoop rendered files [] []) as [n sh].
  destruct n; reflexivity.
Qed.

Lemma after_cons (a : Action) (rest : list Action) (fc : FormCalls) :
  after (a :: rest) fc = after rest (snd (step a fc)).
Proof. reflexivity. Qed.

Lemma after_idle (n : nat) (st : State) :
  after (repeat (ReaderDone 0) n) (mkFormCalls st []) = mkFormCalls st [].
Proof. induction n as [| n IH]; [reflexivity | exact IH]. Qed.

Lemma resume_single (c : Call) (st : State) :
  resume 0 (mkFormCalls st [c])
  = mkFormCalls (fst (proceed (readerDone c) st))
      (snd (proceed (readerDone c) st)).
Proof.
  unfold resume. simpl. destruct (proceed (readerDone c) st) as [st1 cs].
  simpl. rewrite app_nil_r. reflexivity.
Qed.

(** A call that nothing interrupts: its reads finish one after the other,
    and the form is then the one that the loop run in one go gives. *)
Lemma call_runs_to_end (rendered : list string) (files : list File) :
  forall newImages shown st n,
    (List.length files <= n)%nat ->
    after (repeat (ReaderDone 0) n)
      (mkFormCalls
         (fst (proceed (untilRead rendered files newImages shown) st))
         (snd (proceed (untilRead rendered files newImages shown) st)))
    = mkFormCalls
        (mkState (input st)
           (match fst (addImagesLoop rendered files newImages []) with
            | [] => images st
            | _ => (images st
                    ++ fst (addImagesLoop rendered files newImages []))%list
            end)
           (alerts st ++ shown
            ++ snd (addImagesLoop rendered files newImages []))%list)
        [].
Proof.
  induction files as [| file rest IH]; intros newImages shown st n Hn.
  - simpl proceed. simpl fst. simpl snd. rewrite after_idle, app_nil_r.
    reflexivity.
  - rewrite untilRead_cons, addImagesLoop_cons.
    destruct (MAX_IMAGES <=? List.length rendered + List.length newImages)%nat.
    + simpl proceed. simpl fst. simpl snd. simpl app. rewrite after_idle.
      reflexivity.
    + rewrite processFile_stages.
      destruct (rejectedAtOnce file) as [err |] eqn:Er.
      * rewrite (IH newImages (shown ++ [ErrorMessage err])%list st n)
          by (simpl in Hn; lia).
        rewrite (addImagesLoop_shown rendered rest newImages
                   ([] ++ [ErrorMessage err])%list).
        simpl fst. simpl snd. rewrite <- !app_assoc. reflexivity.
      * destruct n as [| n]; [simpl in Hn; lia |].
        simpl proceed. simpl fst. simpl snd. simpl repeat.
        rewrite after_cons.
        change (snd (step (ReaderDone 0) ?x)) with (resume 0 x).
        rewrite resume_single. unfold readerDone.
        cbn [reading ChatInterface.rendered remaining ChatInterface.newImages].
        destruct (readAsDataURL file) as [url |].
        -- rewrite (IH (newImages ++ [url])%list [] _ n)
             by (simpl in Hn; lia).
           simpl. rewrite <- app_assoc. reflexivity.
        -- rewrite (IH newImages [ErrorMessage FailedToReadFile] _ n)
             by (simpl in Hn; lia).
           rewrite (addImagesLoop_shown rendered rest newImages
                      [ErrorMessage FailedToReadFile]).
           simpl. rewrite <- !app_assoc. reflexivity.
Qed.

(** [handleFileSelect] and [handlePaste] are the calls that nothing
    interrupts: from a form without a call in flight, the selection or
    the paste followed by the end of each read gives the form that they
    give, and leaves no call in flight. *)
Lemma uninterrupted_call (files : list File) (items : list ClipboardItem)
    (st : State) (n : nat) :
  ((List.length files <= n)%nat ->
   after (FileSelect files :: repeat (ReaderDone 0) n) (mkFormCalls st [])
   = mkFormCalls (handleFileSelect files st) [])
  /\ ((List.length (pastedFiles items) <= n)%nat ->
      after (Paste items :: repeat (ReaderDone 0) n) (mkFormCalls st [])
      = mkFormCalls (handlePaste items st) []).
Proof.
  assert (H : forall fs,
            (List.length fs <= n)%nat ->
            after (repeat (ReaderDone 0) n)
              (startAddImages fs (mkFormCalls st []))
            = mkFormCalls (addImages (images st) fs st) []).
  { intros fs Hn. unfold startAddImages. simpl form. simpl calls.
    pose proof (call_runs_to_end (images st) fs [] [] st n Hn) as Hrun.
    destruct (proceed (untilRead (images st) fs [] []) st) as [st1 cs].
    simpl fst in Hrun. simpl snd in Hrun. simpl app. rewrite Hrun.
    rewrite addImages_loop. reflexivity. }
  split; intros Hn; rewrite after_cons; simpl step; simpl snd.
  - unfold handleFileSelect. destruct files as [| f fs];
      [apply after_idle | apply H, Hn].
  - unfold handlePaste. destruct (pastedFiles items) as [| f fs];
      [apply after_idle | apply H, Hn].
Qed.

(** ** Validation before dispatch *)

Lemma untilRead_validated (all : list File) (rendered : list string)
    (files : list File) :
  incl files all ->
  forall newImages shown,
    (forall url, In url newImages -> validatedUrl all url) ->
    match fst (untilRead rendered files newImages shown) with
    | Suspended c =>
        In (reading c) all
        /\ incl (remaining c) all
        /\ rejectedAtOnce (reading c) = None
        /\ forall url, In url (ChatInterface.newImages c) ->
                       validatedUrl all url
    | Settled newImages' =>
        forall url, In url newImages' -> validatedUrl all url
    end.
Proof.
  induction files as [| file rest IH]; intros Hincl newImages shown Hnew;
    [exact Hnew |].
  rewrite untilRead_cons.
  destruct (MAX_IMAGES <=? List.length rendered + List.length newImages)%nat;
    [exact Hnew |].
  assert (Hrest : incl rest all)
    by (intros f Hf; apply Hincl; right; exact Hf).
  destruct (rejectedAtOnce file) as [err |] eqn:Er.
  - apply IH; assumption.
  - simpl. split; [apply Hincl; left; reflexivity |].
    split; [exact Hrest | split; [exact Er | exact Hnew]].
Qed.

Lemma proceed_validated (all : list File) (p : Progress * list Alert)
    (st : State) :
  (forall url, In url (images st) -> validatedUrl all url) ->
  match fst p with
  | Suspended c =>
      In (reading c) all
      /\ incl (remaining c) all
      /\ rejectedAtOnce (reading c) = None
      /\ forall url, In url (newImages c) -> validatedUrl all url
  | Settled newImages' =>
      forall url, In url newImages' -> validatedUrl all url
  end ->
  (forall url, In url (images (fst (proceed p st))) -> validatedUrl all url)
  /\ forall c, In c (snd (proceed p st)) ->
       In (reading c) all
       /\ incl (remaining c) all
       /\ rejectedAtOnce (reading c) = None
       /\ forall url, In url (newImages c) -> validatedUrl all url.
Proof.
  intros Hst Hp. destruct p as [[c | new] shown]; simpl in Hp |- *.
  - split; [exact Hst |]. intros c' [<- | []]. exact Hp.
  - split; [| intros c []].
    destruct new as [| u new]; [exact Hst |].
    intros url Hu. apply in_app_iff in Hu.
    destruct Hu as [Hu | Hu]; [apply Hst, Hu | apply Hp, Hu].
Qed.

Lemma startAddImages_validated (all files : list File) (fc : FormCalls) :
  incl files all -> allValidated all fc ->
  allValidated all (startAddImages files fc).
Proof.
  intros Hincl [Himg Hcalls]. unfold startAddImages.
  pose proof (proceed_validated all
                (untilRead (images (form fc)) files [] []) (form fc) Himg
                (untilRead_validated all _ files Hincl [] []
                   (fun url H => match H with end))) as [H1 H2].
  destruct (proceed (untilRead (images (form fc)) files [] []) (form fc))
    as [st started].
  split; [exact H1 |]. simpl calls. intros c Hc.
  apply in_app_iff in Hc. destruct Hc as [Hc | Hc];
    [apply Hcalls, Hc | apply H2, Hc].
Qed.

Lemma resume_validated (all : list File) (k : nat) (fc : FormCalls) :
  allValidated all fc -> allValidated all (resume k fc).
Proof.
  intros [Himg Hcalls]. unfold resume.
  destruct (nth_error (calls fc) k) as [c |] eqn:Ek; [| split; assumption].
  destruct (Hcalls c (nth_error_In _ _ Ek)) as (Hr & Hrem & Hrej & Hnew).
  assert (Hp : match fst (readerDone c) with
               | Suspended c' =>
                   In (reading c') all
                   /\ incl (remaining c') all
                   /\ rejectedAtOnce (reading c') = None
                   /\ forall url, In url (newImages c') ->
                                  validatedUrl all url
               | Settled newImages' =>
                   forall url, In url newImages' -> validatedUrl all url
               end).
  { unfold readerDone. destruct (readAsDataURL (reading c)) as [u |] eqn:Eu.
    - apply untilRead_validated; [exact Hrem |].
      intros url Hu. apply in_app_iff in Hu.
      destruct Hu as [Hu | [<- | []]]; [apply Hnew, Hu |].
      exists (reading c). destruct (rejectedAtOnce_None _ Hrej) as [Ht Hs].
      split; [exact Hr | split; [exact Ht | split; [exact Hs | exact Eu]]].
    - apply untilRead_validated; assumption. }
  pose proof (proceed_validated all (readerDone c) (form fc) Himg Hp)
    as [H1 H2].
  destruct (proceed (readerDone c) (form fc)) as [st continued].
  split; [exact H1 |]. simpl calls. intros c' Hc'.
  apply in_app_iff in Hc'. destruct Hc' as [Hc' | Hc'].
  - apply Hcalls. rewrite <- (firstn_skipn k (calls fc)).
    apply in_or_app. left. exact Hc'.
  - apply in_app_iff in Hc'. destruct Hc' as [Hc' | Hc'];
      [apply H2, Hc' |].
    apply Hcalls. rewrite <- (firstn_skipn (S k) (calls fc)).
    apply in_or_app. right. exact Hc'.
Qed.

(** Every action keeps the images validated, and what [handleSubmit]
    hands over is the images of the form. *)
Lemma step_validated (all : list File) (a : Action) (fc : FormCalls) :
  incl (offered [a]) all -> allValidated all fc ->
  allValidated all (snd (step a fc))
  /\ forall msg, fst (step a fc) = Some msg -> snd msg = images (form fc).
Proof.
  intros Hincl Hinv.
  destruct a as [text | files | items | k | index | ld]; simpl in *.
  - split; [exact Hinv | discriminate].
  - split; [| discriminate]. rewrite app_nil_r in Hincl.
    destruct files as [| f files]; [exact Hinv |].
    apply startAddImages_validated; assumption.
  - split; [| discriminate]. rewrite app_nil_r in Hincl.
    destruct (pastedFiles items) as [| f fs]; [exact Hinv |].
    apply startAddImages_validated; assumption.
  - split; [apply resume_validated, Hinv | discriminate].
  - split; [| discriminate]. destruct Hinv as [Himg Hcalls].
    split; [| exact Hcalls]. simpl. intros url Hu.
    apply Himg. apply (removeAt_incl index (images (form fc))), Hu.
  - unfold handleSubmit. destruct (_ && _); simpl.
    + split; [split; [intros url [] | apply Hinv] |].
      intros msg H. injection H as <-. reflexivity.
    + split; [destruct fc; exact Hinv | discriminate].
Qed.

Lemma offered_cons_incl (a : Action) (rest : list Action) :
  incl (offered [a]) (offered (a :: rest))
  /\ incl (offered rest) (offered (a :: rest)).
Proof.
  destruct a; simpl; try rewrite app_nil_r;
    split; try apply incl_refl; try (intros x []);
    try (apply incl_appl, incl_refl); apply incl_appr, incl_refl.
Qed.

(** Whatever the order of the actions and of the ends of the reads, every
    image of every message that the form dispatches is the data URL of a
    file offered to it, of an allowed type and of at most the maximal
    size. *)
Lemma dispatched_validated (all : list File) (actions : list Action) :
  forall fc, incl (offered actions) all -> allValidated all fc ->
  forall msg, In msg (dispatchedFrom actions fc) ->
    forall url, In url (snd msg) -> validatedUrl all url.
Proof.
  induction actions as [| a rest IH]; intros fc Hincl Hinv msg Hmsg;
    [destruct Hmsg |].
  destruct (offered_cons_incl a rest) as [Ha Hrest].
  destruct (step_validated all a fc (incl_tran Ha Hincl) Hinv)
    as [Hinv' Hsent].
  simpl in Hmsg. destruct (step a fc) as [sent fc'] eqn:E. simpl in *.
  assert (Hrec : forall msg', In msg' (dispatchedFrom rest fc') ->
            forall url, In url (snd msg') -> validatedUrl all url)
    by (apply IH; [apply (incl_tran Hrest Hincl) | exact Hinv']).
  destruct sent as [m |]; [| apply Hrec, Hmsg].
  destruct Hmsg as [<- | Hmsg]; [| apply Hrec, Hmsg].
  rewrite (Hsent m eq_refl). apply Hinv.
Qed.

(** The part of C9 that holds whatever the order of the events: a file
    whose type is not one of the four allowed image types, or whose size
    exceeds 10MB, is rejected by [processFile] with an error, which the
    form shows while it leaves the images as they are; every image of a
    message that the form dispatches is the data URL of a file of an
    allowed type and of at most 10MB among the files offered; and a call
    made when the form shows 4 images adds none. *)
Lemma validation_before_dispatch :
  ALLOWED_TYPES = ["image/jpeg"; "image/png"; "image/gif"; "image/webp"]
  /\ MAX_FILE_SIZE = 10485760
  /\ MAX_IMAGES = 4%nat
  /\ (forall file,
        ~ In (type file) ALLOWED_TYPES \/ MAX_FILE_SIZE < size file ->
        exists err, processFile file = inr err)
  /\ (forall file st,
        ~ In (type file) ALLOWED_TYPES \/ MAX_FILE_SIZE < size file ->
        (List.length (images st) < MAX_IMAGES)%nat ->
        exists err,
          handleFileSelect [file] st
          = mkState (input st) (images st)
              (alerts st ++ [ErrorMessage err]))
  /\ (forall actions msg,
        In msg (dispatched actions initial) ->
        forall url, In url (snd msg) -> validatedUrl (offered actions) url)
  /\ (forall files items st,
        (MAX_IMAGES <= List.length (images st))%nat ->
        images (handleFileSelect files st) = images st
        /\ images (handlePaste items st) = images st).
Proof.
  split; [reflexivity | split; [reflexivity | split; [reflexivity |]]].
  split; [exact processFile_rejects | split; [| split]].
  - intros file st Hbad Hroom.
    destruct (processFile_rejects file Hbad) as [err E]. exists err.
    unfold handleFileSelect, addImages. rewrite addImagesLoop_cons.
    apply Nat.leb_gt in Hroom. simpl List.length.
    rewrite Nat.add_0_r, Hroom, E. reflexivity.
  - intros actions msg Hmsg.
    apply (dispatched_validated (offered actions) actions
             (mkFormCalls initial [])); [apply incl_refl | | exact Hmsg].
    split; [intros url [] | intros c []].
  - intros files items st Hfull.
    assert (H : forall fs, images (addImages (images st) fs st) = images st).
    { intros fs. unfold addImages. destruct fs as [| f fs]; [reflexivity |].
      rewrite addImagesLoop_cons. apply Nat.leb_le in Hfull.
      simpl List.length. rewrite Nat.add_0_r, Hfull. reflexivity. }
    split.
    + unfold handleFileSelect. destruct files; [reflexivity | apply H].
    + unfold handlePaste. destruct (pastedFiles items); [reflexivity | apply H].
Qed.

(** ** C9: the limit of four images *)

(** C9 fails in the limit.  The loop of [addImages] tests the limit
    against [images] of the render that created the handler, and the call
    is not awaited: three images are selected, and three more are pasted
    before the first has been read.  Both calls see a form without images,
    both add their three images, and the message dispatched carries six,
    each of an allowed type and size, with no alert.  When the second call
    is made after the first has settled, it sees three images, adds one
    and refuses the others. *)
Lemma overlapping_calls_exceed_limit :
  dispatched overlappingCalls initial
  = [("", ["data:image/png;base64,a"; "data:image/png;base64,b";
           "data:image/png;base64,c"; "data:image/png;base64,d";
           "data:image/png;base64,e"; "data:image/png;base64,f"])]
  /\ (forall msg, In msg (dispatched overlappingCalls initial) ->
        (MAX_IMAGES < List.length (snd msg))%nat)
  /\ alerts (form (after overlappingCalls (mkFormCalls initial []))) = []
  /\ (forall file, In file (offered overlappingCalls) ->
        exists url, processFile file = inl url)
  /\ dispatched callsInTurn initial
     = [("", ["data:image/png;base64,a"; "data:image/png;base64,b";
              "data:image/png;base64,c"; "data:image/png;base64,d"])]
  /\ alerts (form (after callsInTurn (mkFormCalls initial [])))
     = [MaximumImages].
Proof.
  split; [reflexivity |].
  split; [intros msg [<- | []]; unfold MAX_IMAGES; simpl; lia |].
  split; [reflexivity |].
  split; [| split; reflexivity].
  intros file Hf. simpl in Hf.
  repeat (destruct Hf as [<- | Hf]; [eexists; reflexivity |]).
  destruct Hf.
Qed.

End Attachments.

(* ================================================================== *)
(** * Council editing *)
(* ================================================================== *)

Section CouncilEditing.

Import Settings.

Lemma withoutModel_spec (model x : string) (models : list string) :
  In x (withoutModel model models) <-> In x models /\ x <> model.
Proof.
  unfold withoutModel. rewrite filter_In, negb_true_iff, String.eqb_neq.
  reflexivity.
Qed.

(** In a list of at least two distinct models, some model is not the one
    removed. *)
Lemma another_model (model : string) (models : list string) :
  NoDup models -> 2 <= List.length models ->
  exists x, In x models /\ x <> model.
Proof.
  destruct models as [| a [| b rest]]; simpl; try lia.
  intros Hnd _. destruct (string_dec a model) as [-> | Ha].
  - exists b. split; [right; left; reflexivity |].
    intros ->. inversion Hnd as [| ? ? Hnot _]. apply Hnot. left. reflexivity.
  - exists a. split; [left; reflexivity | exact Ha].
Qed.

(** Both versions refuse the removal when one model remains. *)
Lemma removal_refused_for_last_model (model : string) (st : State) :
  List.length (council_models (config st)) <= 1 ->
  Settings.handleRemoveModel model st
  = mkState (config st) (Some "At least one council model is required")
  /\ SettingsOverlay.handleRemoveModel model st
     = mkState (config st) (Some "At least one council model is required").
Proof.
  intros H. unfold Settings.handleRemoveModel, SettingsOverlay.handleRemoveModel.
  apply Nat.ltb_ge in H. rewrite H. split; reflexivity.
Qed.

(** The settings menu keeps the chairman in the council: a removed
    chairman is replaced by the first of the models that remain. *)
Lemma menu_removal_keeps_chairman (model : string) (st : State) :
  chairmanInCouncil (config st) ->
  NoDup (council_models (config st)) ->
  2 <= List.length (council_models (config st)) ->
  chairmanInCouncil (config (Settings.handleRemoveModel model st)).
Proof.
  intros (ch & Hch & Hin) Hnd Hlen. unfold Settings.handleRemoveModel.
  assert (E : (1 <? List.length (council_models (config st)))%nat = true)
    by (apply Nat.ltb_lt; lia).
  rewrite E. unfold chairmanInCouncil. simpl.
  unfold isChairman. rewrite Hch.
  destruct (String.eqb ch model) eqn:Eq.
  - destruct (another_model model _ Hnd Hlen) as (x & Hx & Hne).
    assert (Hx' : In x (withoutModel model (council_models (config st))))
      by (apply withoutModel_spec; split; assumption).
    destruct (withoutModel model (council_models (config st)))
      as [| y ys] eqn:Ew; [destruct Hx' |].
    exists y. split; [reflexivity | left; reflexivity].
  - exists ch. split; [reflexivity |].
    apply withoutModel_spec. split; [exact Hin |].
    apply String.eqb_neq, Eq.
Qed.

(** ** C10: the chairman after a removal *)

(** C10 on the settings overlay.  The configuration has two models and
    the chairman is the first of them; removing that model leaves it as
    the chairman of a council that no longer contains it, because the
    replacement is read from the list of before the removal.  The
    settings menu, on the same input, makes the remaining model the
    chairman. *)
Lemma overlay_removal_keeps_removed_chairman :
  chairmanInCouncil (config twoModels)
  /\ List.length (council_models (config twoModels)) = 2
  /\ config (SettingsOverlay.handleRemoveModel "openai/gpt-4o" twoModels)
     = mkConfig ["anthropic/claude"] (Some "openai/gpt-4o") None
  /\ ~ chairmanInCouncil
         (config (SettingsOverlay.handleRemoveModel "openai/gpt-4o" twoModels))
  /\ config (Settings.handleRemoveModel "openai/gpt-4o" twoModels)
     = mkConfig ["anthropic/claude"] (Some "anthropic/claude") None.
Proof.
  split; [exists "openai/gpt-4o"; split; [reflexivity | left; reflexivity] |].
  split; [reflexivity | split; [reflexivity | split; [| reflexivity]]].
  intros (ch & Hch & Hin). simpl in Hch, Hin. injection Hch as <-.
  destruct Hin as [H | []]. discriminate H.
Qed.

End CouncilEditing.

(* ================================================================== *)
(** * The definitions at work *)
(* ================================================================== *)

Example deAnonymizeText_demo :
  Stage2.deAnonymizeText "Response A beats Response B"
    (Some [("Response A", "openai/gpt-4o"); ("Response B", "mistral")])
  = "**gpt-4o** beats **mistral**".
Proof. reflexivity. Qed.

Example replace_empty_pattern : JsString.replace "ab" "" "-" = "-a-b-".
Proof. reflexivity. Qed.

Example replace_dollar_patterns :
  JsString.replace "xAy" "A" "[$$|$&|$`|$'|$1]" = "x[$|A|x|y|$1]y".
Proof. reflexivity. Qed.

Example replace_leftmost : JsString.replace "aaa" "aa" "b" = "ba".
Proof. reflexivity. Qed.

Example getShortName_demo :
  Stage2.getShortName "openai/gpt-4o" = "gpt-4o"
  /\ Stage2.getShortName "mistral" = "mistral"
  /\ Stage2.getShortName "a/" = "a/" /\ Stage2.getShortName "a/b/c" = "b".
Proof. repeat split. Qed.

Example last_model_is_kept :
  Settings.handleRemoveModel "openai/gpt-4o" oneModel
  = Settings.mkState (Settings.config oneModel)
      (Some "At least one council model is required").
Proof. reflexivity. Qed.

Example idempotence_lost_values :
  Stage2.deAnonymizeText "Response A wins" (Some Text.nameHoldsOwnLabel)
  = "**Response A-mini** wins"
  /\ Stage2.deAnonymizeText "**Response A-mini** wins"
       (Some Text.nameHoldsOwnLabel)
     = "****Response A-mini**-mini** wins".
Proof. split; reflexivity. Qed.

Example spec_event_sequence :
  let st :=
    App.stateOf
      (App.run View.firstTurn
         [App.stage1_start (Some ["m1"; "m2"]);
          App.stage1_response (View.answer "m1" "hello");
          App.stage1_response (View.failure "m2");
          App.stage1_complete [View.answer "m1" "hello"]] View.freshTurn) in
  View.pending1Of st = [] /\ List.length (View.stage1Of st) = 1.
Proof. split; reflexivity. Qed.

Example loaded_message_without_loading_throws :
  App.streamCallback View.firstTurn (App.stage1_complete [])
    (App.mkState (Some "c1")
       (Some (App.mkConversation "c1" "2025-01-01"
                [App.mkMessage "assistant" None None (Some []) None None None
                   None None None]))
       false [] 0)
  = App.Crashed "TypeError: lastMsg.loading is undefined"
      (App.mkState (Some "c1")
         (Some (App.mkConversation "c1" "2025-01-01"
                  [App.mkMessage "assistant" None None (Some []) None None
                     None None None None]))
         false [] 0).
Proof. reflexivity. Qed.

(* ================================================================== *)
(** * Short names and tabs *)
(* ================================================================== *)

Section ShortNames.

Import JsString JsTrim Stage2.
Local Open Scope string_scope.

Lemma split_not_nil (sep : ascii) (s : string) : split sep s <> [].
Proof.
  destruct s as [| c s]; simpl; [discriminate |].
  destruct (Ascii.eqb c sep); [discriminate |].
  destruct (split sep s); discriminate.
Qed.

Lemma split_sepFree (sep : ascii) (s : string) :
  sepFree sep s = true -> split sep s = [s].
Proof.
  unfold sepFree. induction s as [| c s IH]; [reflexivity |].
  simpl. intros H. apply andb_true_iff in H. destruct H as [Hc Hs].
  apply negb_true_iff in Hc. rewrite Hc, (IH Hs). reflexivity.
Qed.

Lemma split_app_sep (sep : ascii) (p rest : string) :
  sepFree sep p = true ->
  split sep (p ++ String sep rest) = p :: split sep rest.
Proof.
  unfold sepFree. induction p as [| c p IH]; simpl.
  - intros _. rewrite Ascii.eqb_refl. reflexivity.
  - intros H. apply andb_true_iff in H. destruct H as [Hc Hp].
    apply negb_true_iff in Hc. rewrite Hc, (IH Hp). reflexivity.
Qed.

(** No segment that [split] gives contains the separator. *)
Lemma split_segments_sepFree (sep : ascii) (s x : string) :
  In x (split sep s) -> sepFree sep x = true.
Proof.
  unfold sepFree. revert x. induction s as [| c s IH]; intros x; simpl.
  - intros [<- | []]. reflexivity.
  - destruct (Ascii.eqb c sep) eqn:E.
    + intros [<- | H]; [reflexivity | apply IH, H].
    + destruct (split sep s) as [| h t] eqn:Es.
      * intros [<- | []]. simpl. rewrite E. reflexivity.
      * intros [<- | H].
        -- simpl. rewrite E. simpl. apply IH. left. reflexivity.
        -- apply IH. right. exact H.
Qed.

(** X1.  The short name of [provider/name], and of [provider/name/rest],
    is [name], when neither the provider nor the name contains a slash and
    the name is not empty; an identifier without a slash is its own short
    name. *)
Theorem getShortName_of_provider_name (provider name rest : string) :
  sepFree "/" provider = true ->
  sepFree "/" name = true ->
  name <> "" ->
  getShortName (provider ++ "/" ++ name) = name
  /\ getShortName (provider ++ "/" ++ name ++ "/" ++ rest) = name
  /\ getShortName name = name.
Proof.
  intros Hp Hn Hne. unfold getShortName.
  change (provider ++ "/" ++ name) with (provider ++ String "/" name).
  change (provider ++ "/" ++ name ++ "/" ++ rest)
    with (provider ++ String "/" (name ++ String "/" rest)).
  rewrite !(split_app_sep "/" provider) by exact Hp.
  rewrite (split_app_sep "/" name) by exact Hn.
  rewrite !(split_sepFree "/" name) by exact Hn.
  destruct name as [| c name]; [contradiction |].
  repeat split.
Qed.

Lemma getShortName_of_provider_name_witness :
  getShortName ("openai" ++ "/" ++ "gpt-4o") = "gpt-4o"
  /\ getShortName ("openai" ++ "/" ++ "gpt-4o" ++ "/" ++ "2024-08-06")
     = "gpt-4o"
  /\ getShortName "gpt-4o" = "gpt-4o".
Proof.
  apply (getShortName_of_provider_name "openai" "gpt-4o" "2024-08-06");
    [reflexivity | reflexivity | discriminate].
Defined.

(** X2.  Taking the short name of a short name changes nothing, and the
    short name of an identifier that is not empty is not empty. *)
Theorem getShortName_idempotent (model : string) :
  getShortName (getShortName model) = getShortName model
  /\ (model <> "" -> getShortName model <> "").
Proof.
  assert (H : getShortName model = model
              \/ exists c seg, getShortName model = String c seg
                               /\ sepFree "/" (String c seg) = true).
  { unfold getShortName.
    destruct (nth_error (split "/" model) 1) as [[| c seg] |] eqn:E;
      [left; reflexivity | right | left; reflexivity].
    exists c, seg. split; [reflexivity |].
    apply (split_segments_sepFree "/" model), (nth_error_In _ _ E). }
  destruct H as [H | (c & seg & H & Hfree)].
  - split; [rewrite H; exact H | rewrite H; intros Hne; exact Hne].
  - rewrite H. split; [| discriminate].
    unfold getShortName. rewrite (split_sepFree "/" _ Hfree). reflexivity.
Qed.

Lemma getShortName_idempotent_witness :
  "a/" <> "" /\ getShortName "a/" <> "".
Proof.
  split; [discriminate |].
  apply (getShortName_idempotent "a/"). discriminate.
Defined.

End ShortNames.

Section TabFacts.

Import Tabs.
Local Open Scope Z_scope.

(** X3.  With an active tab that is not negative, the item shown exists
    exactly when there is an item: the index that the components use is
    within the list whenever the list is not empty. *)
Theorem current_tab_exists (A : Type) (items : list A) (activeTab : Z) :
  0 <= activeTab ->
  (current items activeTab = None <-> items = [])
  /\ 0 <= safeActiveTab activeTab (List.length items)
  /\ (items <> [] ->
      safeActiveTab activeTab (List.length items)
      < Z.of_nat (List.length items)).
Proof.
  intros Ha. unfold current, at_, safeActiveTab.
  assert (H0 : 0 <= Z.min activeTab (Z.max 0 (Z.of_nat (List.length items) - 1)))
    by lia.
  split; [| split; [exact H0 |]].
  - destruct (Z.ltb_spec (Z.min activeTab
                            (Z.max 0 (Z.of_nat (List.length items) - 1))) 0)
      as [Hneg | _]; [lia |].
    rewrite nth_error_None. split.
    + intros H. destruct items as [| x items]; [reflexivity |].
      simpl List.length in *. lia.
    + intros ->. simpl. lia.
  - intros Hne. destruct items as [| x items]; [contradiction |].
    simpl List.length. lia.
Qed.

Lemma current_tab_exists_witness :
  0 <= 7
  /\ (current ["a"; "b"]%string 7 = None <-> ["a"; "b"]%string = [])
  /\ safeActiveTab 7 2 < 2.
Proof.
  split; [lia |].
  destruct (current_tab_exists string ["a"; "b"]%string 7) as (H1 & _ & H3);
    [lia |].
  split; [exact H1 | apply H3; discriminate].
Defined.

(** X4.  With an active tab that is not negative, the effect sets the
    active tab to the index that the render already uses; running the
    effect again changes nothing, and an active tab within the list is
    left alone. *)
Theorem ensureActiveTab_agrees (activeTab : Z) (n : nat) :
  0 <= activeTab ->
  ensureActiveTab activeTab n = safeActiveTab activeTab n
  /\ ensureActiveTab (ensureActiveTab activeTab n) n
     = ensureActiveTab activeTab n
  /\ (activeTab < Z.of_nat n -> ensureActiveTab activeTab n = activeTab).
Proof.
  intros Ha. unfold ensureActiveTab, safeActiveTab.
  destruct (Nat.eqb_spec n 0) as [-> | Hn].
  - simpl. repeat split; lia.
  - destruct (Z.leb_spec (Z.of_nat n) activeTab) as [Hge | Hlt].
    + destruct (Z.leb_spec (Z.of_nat n) (Z.of_nat n - 1)); repeat split; lia.
    + destruct (Z.leb_spec (Z.of_nat n) activeTab); repeat split; lia.
Qed.

Lemma ensureActiveTab_agrees_witness :
  0 <= 1 /\ 1 < Z.of_nat 3
  /\ ensureActiveTab 1 3 = safeActiveTab 1 3
  /\ ensureActiveTab 1 3 = 1.
Proof.
  split; [lia | split; [lia |]].
  destruct (ensureActiveTab_agrees 1 3) as (H1 & _ & H3); [lia |].
  split; [exact H1 | apply H3; lia].
Defined.

End TabFacts.

(* ================================================================== *)
(** * The settings form *)
(* ================================================================== *)

Section SettingsFormFacts.

Import JsTrim Settings SettingsForm.
Local Open Scope string_scope.

Lemma trimStart_blank (s : string) :
  trimStart s = "" <-> ChatInterface.isBlank s = true.
Proof.
  unfold ChatInterface.isBlank. induction s as [| c s IH]; simpl.
  - split; reflexivity.
  - destruct (ChatInterface.isWhiteSpace c); simpl; [exact IH |].
    split; discriminate.
Qed.

Lemma trimStart_head (s : string) :
  trimStart s = ""
  \/ exists c t, trimStart s = String c t
                 /\ ChatInterface.isWhiteSpace c = false.
Proof.
  induction s as [| c s IH]; simpl; [left; reflexivity |].
  destruct (ChatInterface.isWhiteSpace c) eqn:E; [exact IH | right].
  exists c, s. split; [reflexivity | exact E].
Qed.

Lemma trimEnd_blank (s : string) :
  trimEnd s = "" <-> ChatInterface.isBlank s = true.
Proof.
  unfold ChatInterface.isBlank. induction s as [| c s IH]; simpl.
  - split; reflexivity.
  - destruct (trimEnd s) as [| d t].
    + destruct (ChatInterface.isWhiteSpace c); simpl.
      * split; [intros _; apply IH; reflexivity | reflexivity].
      * split; discriminate.
    + split; [discriminate |]. intros H. apply andb_true_iff in H.
      destruct H as [_ H]. apply IH in H. discriminate H.
Qed.

(** [input.trim()] is empty exactly for a text of white space. *)
Lemma trim_blank (s : string) :
  trim s = "" <-> ChatInterface.isBlank s = true.
Proof.
  unfold trim. rewrite trimEnd_blank. split.
  - intros H. apply trimStart_blank.
    destruct (trimStart_head s) as [E | (c & t & E & Hc)]; [exact E |].
    rewrite E in H. unfold ChatInterface.isBlank in H. simpl in H.
    rewrite Hc in H. discriminate H.
  - intros H. apply trimStart_blank in H. rewrite H. reflexivity.
Qed.

Lemma includes_iff (models : list string) (x : string) :
  includes models x = true <-> In x models.
Proof.
  unfold includes. rewrite existsb_exists. split.
  - intros (y & Hy & E). apply String.eqb_eq in E. subst y. exact Hy.
  - intros H. exists x. split; [exact H | apply String.eqb_refl].
Qed.

Lemma NoDup_snoc {A} (l : list A) (x : A) :
  NoDup l -> ~ In x l -> NoDup (l ++ [x]).
Proof.
  intros Hl Hx. induction Hl as [| y l Hy Hl IH]; simpl.
  - constructor; [intros [] | constructor].
  - constructor.
    + intros H. apply in_app_iff in H. destruct H as [H | [-> | []]].
      * contradiction.
      * apply Hx. left. reflexivity.
    + apply IH. intros H. apply Hx. right. exact H.
Qed.

(** What [handleAddModel] does, case by case. *)
Lemma handleAddModel_cases (f : Form) :
  (handleAddModel f = f
   /\ (trim (newModel f) = ""
       \/ In (trim (newModel f)) (council_models (config (state f)))))
  \/ (handleAddModel f
        = mkForm
            (mkState
               (mkConfig
                  (council_models (config (state f)) ++ [trim (newModel f)])
                  (chairman_model (config (state f)))
                  (default_reasoning_effort (config (state f))))
               (error (state f))) ""
      /\ trim (newModel f) <> ""
      /\ ~ In (trim (newModel f)) (council_models (config (state f)))).
Proof.
  unfold handleAddModel.
  destruct (String.eqb (trim (newModel f)) "") eqn:Ee; simpl.
  - left. split; [reflexivity | left; apply String.eqb_eq, Ee].
  - destruct (includes _ _) eqn:Ei; simpl.
    + left. split; [reflexivity | right; apply includes_iff, Ei].
    + right. split; [reflexivity |]. split.
      * apply String.eqb_neq, Ee.
      * intros H. apply includes_iff in H. rewrite H in Ei. discriminate Ei.
Qed.

(** X5.  Adding a model keeps the models distinct and keeps every model
    that was there, with the chairman and the error message; a text of
    white space is ignored; pressing Add twice adds once; and the two
    versions of the handler do the same. *)
Theorem handleAddModel_keeps_distinct (f : Form) :
  NoDup (council_models (config (state f))) ->
  NoDup (council_models (config (state (handleAddModel f))))
  /\ incl (council_models (config (state f)))
          (council_models (config (state (handleAddModel f))))
  /\ chairman_model (config (state (handleAddModel f)))
     = chairman_model (config (state f))
  /\ error (state (handleAddModel f)) = error (state f)
  /\ (ChatInterface.isBlank (newModel f) = true -> handleAddModel f = f)
  /\ handleAddModel (handleAddModel f) = handleAddModel f
  /\ handleAddModelOverlay f = handleAddModel f.
Proof.
  intros Hnd.
  assert (Hblank : forall g, ChatInterface.isBlank (newModel g) = true ->
                             handleAddModel g = g).
  { intros g Hb. apply trim_blank in Hb. unfold handleAddModel.
    rewrite Hb. reflexivity. }
  assert (Ho : handleAddModelOverlay f = handleAddModel f) by reflexivity.
  destruct (handleAddModel_cases f) as [[E _] | (E & Hne & Hnot)].
  - rewrite Ho, !E.
    split; [exact Hnd | split; [apply incl_refl |]].
    split; [reflexivity | split; [reflexivity |]].
    split; [intros _; reflexivity | split; reflexivity].
  - rewrite Ho, !E. simpl.
    split; [apply NoDup_snoc; assumption |].
    split; [apply incl_appl, incl_refl |].
    split; [reflexivity | split; [reflexivity |]].
    split; [rewrite <- E; exact (Hblank f) |].
    split; [apply Hblank; reflexivity | reflexivity].
Qed.

Lemma handleAddModel_keeps_distinct_witness :
  NoDup (council_models (config twoModels))
  /\ council_models
       (config (state (handleAddModel (mkForm twoModels "  x/y "))))
     = ["openai/gpt-4o"; "anthropic/claude"; "x/y"]
  /\ NoDup (council_models
              (config (state (handleAddModel (mkForm twoModels "  x/y "))))).
Proof.
  assert (H : NoDup (council_models (config twoModels)))
    by (repeat constructor; simpl; intuition discriminate).
  split; [exact H | split; [reflexivity |]].
  apply (handleAddModel_keeps_distinct (mkForm twoModels "  x/y ") H).
Defined.

Lemma withoutModel_snoc (m : string) (l : list string) :
  ~ In m l -> withoutModel m (l ++ [m]) = l.
Proof.
  unfold withoutModel. intros H. rewrite filter_app. simpl.
  rewrite String.eqb_refl. simpl. rewrite app_nil_r.
  induction l as [| x l IH]; [reflexivity |].
  simpl. destruct (String.eqb x m) eqn:E.
  - apply String.eqb_eq in E. subst x. exfalso. apply H. left. reflexivity.
  - simpl. f_equal. apply IH. intros Hin. apply H. right. exact Hin.
Qed.

(** X6.  In a configuration whose chairman is a council model, removing
    a model just added gives back the configuration of before the
    addition, in both versions of the component: the list of models in
    its order, the chairman and the effort. *)
Theorem add_then_remove_restores (f : Form) :
  trim (newModel f) <> "" ->
  ~ In (trim (newModel f)) (council_models (config (state f))) ->
  chairmanInCouncil (config (state f)) ->
  config (Settings.handleRemoveModel (trim (newModel f))
            (state (handleAddModel f)))
  = config (state f)
  /\ config (SettingsOverlay.handleRemoveModel (trim (newModel f))
               (state (handleAddModelOverlay f)))
     = config (state f).
Proof.
  intros Hne Hnot (ch & Hch & Hin).
  assert (Eo : handleAddModelOverlay f = handleAddModel f) by reflexivity.
  rewrite Eo.
  destruct (handleAddModel_cases f) as [[_ [H | H]] | (E & _ & _)];
    [contradiction | contradiction |].
  rewrite E.
  unfold Settings.handleRemoveModel, SettingsOverlay.handleRemoveModel.
  simpl.
  assert (Hlen : (1 <? List.length (council_models (config (state f))
                                     ++ [trim (newModel f)]))%nat = true).
  { apply Nat.ltb_lt. rewrite length_app. simpl.
    destruct (council_models (config (state f))); [destruct Hin |].
    simpl. lia. }
  rewrite Hlen. simpl. rewrite (withoutModel_snoc _ _ Hnot).
  unfold isChairman. simpl. rewrite Hch.
  assert (Hdiff : String.eqb ch (trim (newModel f)) = false).
  { apply String.eqb_neq. intros ->. contradiction. }
  rewrite Hdiff. rewrite <- Hch. destruct (config (state f)).
  split; reflexivity.
Qed.

Lemma add_then_remove_restores_witness :
  trim "  x/y " <> ""
  /\ ~ In (trim "  x/y ") (council_models (config twoModels))
  /\ chairmanInCouncil (config twoModels)
  /\ config (Settings.handleRemoveModel (trim "  x/y ")
               (state (handleAddModel (mkForm twoModels "  x/y "))))
     = config twoModels.
Proof.
  assert (H1 : trim "  x/y " <> "") by discriminate.
  assert (H2 : ~ In (trim "  x/y ") (council_models (config twoModels)))
    by (simpl; intuition discriminate).
  assert (H3 : chairmanInCouncil (config twoModels))
    by (exists "openai/gpt-4o"; split; [reflexivity | left; reflexivity]).
  split; [exact H1 | split; [exact H2 | split; [exact H3 |]]].
  apply (add_then_remove_restores (mkForm twoModels "  x/y ") H1 H2 H3).
Defined.

Lemma withoutModel_In_iff (model x : string) (models : list string) :
  In x (withoutModel model models) <-> In x models /\ x <> model.
Proof.
  unfold withoutModel. rewrite filter_In, negb_true_iff, String.eqb_neq.
  reflexivity.
Qed.

(** One edit keeps a well-formed configuration well-formed. *)
Lemma edit_wellFormed (e : Edit) (f : Form) :
  wellFormed (config (state f)) -> wellFormed (config (state (edit e f))).
Proof.
  intros (Hnd & Hne & Hch).
  destruct e as [text | | model | i | value]; simpl.
  - split; [exact Hnd | split; assumption].
  - destruct (handleAddModel_cases f) as [[E _] | (E & _ & Hnot)]; rewrite E.
    + split; [exact Hnd | split; assumption].
    + simpl. split; [apply NoDup_snoc; assumption |].
      split; [destruct (council_models (config (state f))); discriminate |].
      destruct Hch as (ch & Hc & Hin). exists ch. simpl.
      split; [exact Hc | apply in_app_iff; left; exact Hin].
  - destruct (Nat.ltb_spec 1 (List.length (council_models (config (state f)))))
      as [Hlen | Hlen].
    + split; [| split].
      * unfold Settings.handleRemoveModel.
        apply Nat.ltb_lt in Hlen. rewrite Hlen. simpl.
        apply NoDup_filter, Hnd.
      * unfold Settings.handleRemoveModel.
        pose proof Hlen as Hlt. apply Nat.ltb_lt in Hlt. rewrite Hlt. simpl.
        destruct (another_model model _ Hnd Hlen) as (x & Hx & Hxm).
        intros E.
        assert (Hin : In x (withoutModel model
                              (council_models (config (state f)))))
          by (apply withoutModel_In_iff; split; assumption).
        rewrite E in Hin. destruct Hin.
      * apply menu_removal_keeps_chairman; assumption.
    + destruct (removal_refused_for_last_model model (state f) Hlen)
        as [-> _]. simpl.
      split; [exact Hnd | split; assumption].
  - destruct (nth_error (council_models (config (state f))) i) as [v |] eqn:E.
    + simpl. split; [exact Hnd | split; [exact Hne |]].
      exists v. split; [reflexivity | apply (nth_error_In _ _ E)].
    + split; [exact Hnd | split; assumption].
  - split; [exact Hnd | split; [exact Hne |]].
    destruct Hch as (ch & Hc & Hin). exists ch. split; assumption.
Qed.

(** X7.  Whatever the user does with the settings menu, typing, adding,
    removing, picking a chairman or an effort, in any order, a
    configuration with distinct models, at least one model and a chairman
    among them stays such a configuration. *)
Theorem settings_menu_keeps_wellFormed (es : list Edit) (f : Form) :
  wellFormed (config (state f)) ->
  wellFormed (config (state (edits es f))).
Proof.
  unfold edits. revert f. induction es as [| e es IH]; intros f H;
    [exact H |].
  simpl. apply IH, edit_wellFormed, H.
Qed.

Lemma twoModels_wellFormed : wellFormed (config twoModels).
Proof.
  split; [repeat constructor; simpl; intuition discriminate |].
  split; [discriminate |].
  exists "openai/gpt-4o". split; [reflexivity | left; reflexivity].
Defined.

Lemma settings_menu_keeps_wellFormed_witness :
  wellFormed (config twoModels)
  /\ wellFormed
       (config (state (edits [RemoveModel "openai/gpt-4o";
                              RemoveModel "anthropic/claude";
                              TypeModel " x/y "; AddModel; AddModel;
                              PickChairman 1; PickEffort "high"]
                        (mkForm twoModels "")))).
Proof.
  split; [exact twoModels_wellFormed |].
  apply (settings_menu_keeps_wellFormed _ (mkForm twoModels "")
           twoModels_wellFormed).
Defined.

(** X8.  Picking in the effort select the value that it shows never
    changes what it shows, and it leaves the configuration as it is
    unless the stored effort is the empty text or the text [none], which
    both become [null]; picking a value that is not empty makes the
    select show that value. *)
Theorem effort_select_round_trip (st : State) (value : string) :
  effortValue (config (handleEffortChange (effortValue (config st)) st))
  = effortValue (config st)
  /\ (default_reasoning_effort (config st) <> Some "" ->
      default_reasoning_effort (config st) <> Some "none" ->
      handleEffortChange (effortValue (config st)) st = st)
  /\ (default_reasoning_effort (config st) = Some ""
      \/ default_reasoning_effort (config st) = Some "none" ->
      default_reasoning_effort
        (config (handleEffortChange (effortValue (config st)) st)) = None)
  /\ (value <> "" ->
      effortValue (config (handleEffortChange value st)) = value).
Proof.
  assert (Hshow : forall v : string, v <> "" ->
            match (if String.eqb v "none" then None else Some v) with
            | Some (String a w) => String a w
            | _ => "none"
            end = v).
  { intros v Hv. destruct (String.eqb v "none") eqn:E.
    - apply String.eqb_eq in E. symmetry. exact E.
    - destruct v; [contradiction | reflexivity]. }
  destruct st as [[models ch effort] err].
  unfold handleEffortChange, effortValue.
  cbn [config default_reasoning_effort council_models chairman_model error].
  split; [| split; [| split]].
  - destruct effort as [[| a v] |]; try reflexivity.
    apply Hshow. discriminate.
  - intros H1 H2. destruct effort as [[| a v] |];
      [contradiction | | reflexivity].
    assert (E : String.eqb (String a v) "none" = false)
      by (apply String.eqb_neq; intros E; rewrite E in H2; contradiction).
    rewrite E. reflexivity.
  - intros [H | H]; rewrite H; reflexivity.
  - apply Hshow.
Qed.

Lemma effort_select_round_trip_witness :
  "high" <> ""
  /\ effortValue
       (config (handleEffortChange "high" twoModels)) = "high"
  /\ handleEffortChange (effortValue (config twoModels)) twoModels
     = twoModels.
Proof.
  split; [discriminate |].
  destruct (effort_select_round_trip twoModels "high") as (_ & H2 & _ & H4).
  split; [apply H4; discriminate | apply H2; discriminate].
Defined.

End SettingsFormFacts.

(* ================================================================== *)
(** * The attachment form *)
(* ================================================================== *)

Section AttachmentForm.

Import ChatInterface Accepted ChatView.
Local Open Scope N_scope.

(** X9.  [processFile] resolves exactly for a file of an allowed type, of
    at most [MAX_FILE_SIZE] bytes, that the reader can read, and then with
    the data URL of the reader; the type is checked first, so that a file
    of a wrong type is rejected for its type whatever its size, and the
    size is checked before the file is read. *)
Theorem processFile_outcomes (file : File) :
  (forall url,
      processFile file = inl url <->
      In (type file) ALLOWED_TYPES
      /\ size file <= MAX_FILE_SIZE
      /\ readAsDataURL file = Some url)
  /\ (~ In (type file) ALLOWED_TYPES ->
      processFile file = inr (InvalidFileType (type file)))
  /\ (In (type file) ALLOWED_TYPES -> MAX_FILE_SIZE < size file ->
      processFile file = inr (FileTooLarge (size file)))
  /\ (In (type file) ALLOWED_TYPES -> size file <= MAX_FILE_SIZE ->
      readAsDataURL file = None ->
      processFile file = inr FailedToReadFile).
Proof.
  unfold processFile.
  destruct (allowedType (type file)) eqn:Et.
  - pose proof (proj1 (allowedType_In _) Et) as Hin. simpl negb. cbv iota.
    destruct (N.ltb_spec MAX_FILE_SIZE (size file)) as [Hbig | Hok].
    + split; [intros url; split; [discriminate | intros (_ & H & _); lia] |].
      split; [intros H; contradiction |].
      split; [reflexivity | intros _ H; lia].
    + destruct (readAsDataURL file) as [u |].
      * split; [intros url; split;
                [intros H; injection H as <-; repeat split; assumption
                | intros (_ & _ & H); injection H as <-; reflexivity] |].
        split; [intros H; contradiction |].
        split; [intros _ H; lia | intros _ _ H; discriminate H].
      * split; [intros url; split;
                [discriminate | intros (_ & _ & H); discriminate H] |].
        split; [intros H; contradiction |].
        split; [intros _ H; lia | reflexivity].
  - assert (Hnot : ~ In (type file) ALLOWED_TYPES)
      by (intros H; apply allowedType_In in H; rewrite H in Et;
          discriminate Et).
    simpl negb. cbv iota.
    split; [intros url; split;
            [discriminate | intros (H & _); contradiction] |].
    split; [reflexivity |].
    split; [intros H; contradiction | intros H; contradiction].
Qed.

Lemma processFile_outcomes_witness :
  In (type (mkFile "edge.png" "image/png" MAX_FILE_SIZE (Some "data:edge")))
    ALLOWED_TYPES
  /\ size (mkFile "edge.png" "image/png" MAX_FILE_SIZE (Some "data:edge"))
     <= MAX_FILE_SIZE
  /\ processFile (mkFile "edge.png" "image/png" MAX_FILE_SIZE
                    (Some "data:edge"))
     = inl "data:edge"%string
  /\ processFile (mkFile "big.pdf" "application/pdf" (MAX_FILE_SIZE + 1) None)
     = inr (InvalidFileType "application/pdf").
Proof.
  assert (H1 : In "image/png"%string ALLOWED_TYPES)
    by (right; left; reflexivity).
  split; [exact H1 | split; [simpl; lia |]].
  split.
  - apply (processFile_outcomes
             (mkFile "edge.png" "image/png" MAX_FILE_SIZE (Some "data:edge"))).
    split; [exact H1 | split; [simpl; lia | reflexivity]].
  - apply (processFile_outcomes
             (mkFile "big.pdf" "application/pdf" (MAX_FILE_SIZE + 1) None)).
    simpl. intuition discriminate.
Defined.

Lemma addImagesLoop_accepted (rendered : list string) (files : list File) :
  forall newImages shown,
    fst (addImagesLoop rendered files newImages shown)
    = (newImages
       ++ firstn (MAX_IMAGES - (List.length rendered + List.length newImages))
            (accepted files))%list.
Proof.
  induction files as [| file rest IH]; intros newImages shown.
  - simpl. rewrite firstn_nil, app_nil_r. reflexivity.
  - rewrite addImagesLoop_cons.
    destruct (Nat.leb_spec MAX_IMAGES
                (List.length rendered + List.length newImages))
      as [Hfull | Hroom].
    + replace (MAX_IMAGES - (List.length rendered + List.length newImages))%nat
        with 0%nat by lia.
      simpl. rewrite app_nil_r. reflexivity.
    + simpl accepted. destruct (processFile file) as [url | err].
      * rewrite IH, length_app. simpl List.length.
        replace (MAX_IMAGES - (List.length rendered + List.length newImages))%nat
          with (S (MAX_IMAGES
                   - (List.length rendered + (List.length newImages + 1))))%nat
          by lia.
        simpl firstn. rewrite <- app_assoc. reflexivity.
      * apply IH.
Qed.

Lemma addImages_images (rendered : list string) (files : list File)
    (prev : State) :
  images (addImages rendered files prev)
  = (images prev
     ++ firstn (MAX_IMAGES - List.length rendered) (accepted files))%list.
Proof.
  unfold addImages.
  pose proof (addImagesLoop_accepted rendered files [] []) as H.
  destruct (addImagesLoop rendered files [] []) as [newImages shown].
  simpl List.length in H. rewrite Nat.add_0_r, app_nil_l in H.
  simpl fst in H. rewrite <- H.
  destruct newImages; simpl; [rewrite app_nil_r |]; reflexivity.
Qed.

(** X10.  A batch of files adds the data URLs of the files that
    [processFile] accepts, in the order of the files, up to the room that
    the images of the render leave below [MAX_IMAGES]; a rejected file
    does not stop the files after it, and the text of the input is
    kept. *)
Theorem addImages_adds_accepted (rendered : list string) (files : list File)
    (prev : State) :
  images (addImages rendered files prev)
  = (images prev
     ++ firstn (MAX_IMAGES - List.length rendered) (accepted files))%list
  /\ input (addImages rendered files prev) = input prev
  /\ (forall bad, (exists err, processFile bad = inr err) ->
       images (addImages rendered (bad :: files) prev)
       = images (addImages rendered files prev)).
Proof.
  split; [apply addImages_images | split].
  - unfold addImages. destruct (addImagesLoop rendered files [] []).
    reflexivity.
  - intros bad [err E]. rewrite !addImages_images. simpl accepted.
    rewrite E. reflexivity.
Qed.

Lemma removeAt_parts {A} (index : nat) (l : list A) :
  removeAt index l = (firstn index l ++ skipn (S index) l)%list.
Proof.
  revert index. induction l as [| x l IH]; intros index.
  - destruct index; reflexivity.
  - destruct index as [| i]; [reflexivity |].
    simpl. f_equal. apply IH.
Qed.

(** X11.  Removing the image at an index keeps the other images in their
    order; an index beyond the images removes nothing; and when the form
    is full, removing an image makes room for one file, which is then
    added at the end. *)
Theorem removeImage_makes_room (index : nat) (st : State) (file : File)
    (url : string) :
  images (removeImage index st)
  = (firstn index (images st) ++ skipn (S index) (images st))%list
  /\ ((List.length (images st) <= index)%nat ->
      images (removeImage index st) = images st)
  /\ (List.length (images st) = MAX_IMAGES ->
      (index < MAX_IMAGES)%nat ->
      processFile file = inl url ->
      images (handleFileSelect [file] (removeImage index st))
      = (removeAt index (images st) ++ [url])%list
      /\ images (handleFileSelect [file] st) = images st).
Proof.
  split; [apply removeAt_parts | split].
  - intros H. simpl. rewrite removeAt_parts.
    rewrite firstn_all2 by exact H. rewrite skipn_all2 by lia.
    apply app_nil_r.
  - intros Hfull Hi Hp. unfold handleFileSelect.
    rewrite !addImages_images.
    simpl accepted. rewrite Hp.
    assert (Hlen : List.length (removeAt index (images st)) = 3%nat).
    { rewrite removeAt_parts, length_app, length_firstn, length_skipn.
      rewrite Hfull. unfold MAX_IMAGES in *. lia. }
    simpl images. rewrite Hlen, Hfull. split; [reflexivity |].
    simpl. apply app_nil_r.
Qed.

Lemma removeImage_makes_room_witness :
  List.length (images (mkState "" ["a"; "b"; "c"; "d"]%string [])) = MAX_IMAGES
  /\ (1 < MAX_IMAGES)%nat
  /\ processFile (png "e") = inl "data:image/png;base64,e"%string
  /\ images (handleFileSelect [png "e"]
              (removeImage 1 (mkState "" ["a"; "b"; "c"; "d"]%string [])))
     = ["a"; "c"; "d"; "data:image/png;base64,e"]%string.
Proof.
  split; [reflexivity | split; [unfold MAX_IMAGES; lia |]].
  split; [reflexivity |].
  apply (removeImage_makes_room 1
           (mkState "" ["a"; "b"; "c"; "d"]%string []) (png "e")
           "data:image/png;base64,e");
    [reflexivity | unfold MAX_IMAGES; lia | reflexivity].
Defined.

Lemma handleSubmit_cases (isLoading : bool) (st : State) :
  (handleSubmit isLoading st = (None, st) /\ sendDisabled isLoading st = true)
  \/ (handleSubmit isLoading st
       = (Some (input st, images st), mkState "" [] (alerts st))
      /\ sendDisabled isLoading st = false
      /\ isLoading = false
      /\ (isBlank (input st) = false \/ images st <> [])).
Proof.
  unfold handleSubmit, sendDisabled.
  destruct isLoading.
  - left. rewrite andb_false_r, orb_true_r. split; reflexivity.
  - destruct (isBlank (input st)) eqn:Eb; simpl.
    + destruct (images st) as [| i l] eqn:Ei; simpl.
      * left. split; reflexivity.
      * right. repeat split. right. discriminate.
    + right. repeat split. left. reflexivity.
Qed.

(** X12.  The form dispatches at most one message for each submit made
    while nothing is loading, and every message it dispatches has a text
    that is not blank or at least one image; the send button is disabled
    exactly when a submit would dispatch nothing; and a submit that
    follows a dispatch at once dispatches nothing, the form being
    empty. *)
Theorem dispatched_messages_not_empty (actions : list Action) (st : State) :
  (forall msg, In msg (dispatched actions st) ->
     isBlank (fst msg) = false \/ snd msg <> [])
  /\ (List.length (dispatched actions st) <= submitsWhileIdle actions)%nat
  /\ (forall isLoading,
        sendDisabled isLoading st = true <->
        fst (handleSubmit isLoading st) = None)
  /\ (forall first second,
        fst (handleSubmit first st) <> None ->
        fst (handleSubmit second (snd (handleSubmit first st))) = None).
Proof.
  split; [| split; [| split]].
  - unfold dispatched. generalize (mkFormCalls st []). clear st.
    induction actions as [| a rest IH]; intros fc msg Hmsg;
      [destruct Hmsg |].
    simpl in Hmsg. destruct a as [text | files | items | k | index | ld];
      simpl in Hmsg; try (apply (IH _ _ Hmsg)).
    destruct (handleSubmit_cases ld (form fc))
      as [[E _] | (E & _ & _ & Hne)];
      rewrite E in Hmsg; [apply (IH _ _ Hmsg) |].
    destruct Hmsg as [<- | Hmsg]; [exact Hne | apply (IH _ _ Hmsg)].
  - unfold dispatched. generalize (mkFormCalls st []). clear st.
    induction actions as [| a rest IH]; intros fc; [simpl; lia |].
    simpl dispatchedFrom.
    destruct a as [text | files | items | k | index | ld];
      simpl; try apply IH.
    destruct (handleSubmit_cases ld (form fc))
      as [[E _] | (E & _ & El & _)]; rewrite E.
    + destruct ld; [apply IH |].
      specialize (IH (mkFormCalls (form fc) (calls fc))). lia.
    + subst ld. simpl.
      specialize (IH (mkFormCalls (mkState "" [] (alerts (form fc)))
                        (calls fc))). lia.
  - intros isLoading.
    destruct (handleSubmit_cases isLoading st) as [[E D] | (E & D & _)];
      rewrite E, D; simpl; split; try reflexivity; discriminate.
  - intros first second Hsent.
    destruct (handleSubmit_cases first st) as [[E _] | (E & _)];
      rewrite E in *; [contradiction Hsent; reflexivity |].
    simpl. unfold handleSubmit. simpl. reflexivity.
Qed.

Lemma addImages_adds_accepted_witness :
  (exists err, processFile pdf = inr err)
  /\ images (addImages [] [pdf; png "a"] initial)
     = images (addImages [] [png "a"] initial).
Proof.
  assert (H : exists err, processFile pdf = inr err)
    by (eexists; reflexivity).
  split; [exact H |].
  apply (addImages_adds_accepted [] [png "a"] initial), H.
Defined.

Lemma dispatched_messages_not_empty_witness :
  fst (handleSubmit false (mkState "hello" [] [])) <> None
  /\ fst (handleSubmit false (snd (handleSubmit false (mkState "hello" [] []))))
     = None.
Proof.
  assert (H : fst (handleSubmit false (mkState "hello" [] [])) <> None)
    by discriminate.
  split; [exact H |].
  apply (dispatched_messages_not_empty [] (mkState "hello" [] [])), H.
Defined.

End AttachmentForm.

(* ================================================================== *)
(** * The stream of a turn *)
(* ================================================================== *)

Section TurnStream.

Import App View ChatView SendFailure.

Ltac mut_unfold :=
  unfold on_stage1_start, on_stage1_response, on_stage1_complete,
    on_stage2_start, on_stage2_response, on_stage2_complete,
    on_stage3_start, on_stage3_complete, bind, read, write, ret,
    assignLoading.

(** An arrival event assigns to the list and to the pending list of its
    stage, and to nothing else. *)
Lemma on_stage1_response_frame (d : ResponseData) (m : Message) :
  exists s p,
    on_stage1_response d m
    = (Normal tt, set_stage1 s (set_stage1PendingModels p m)).
Proof.
  mut_unfold. simpl. destruct (failed d); simpl.
  - exists (stage1 m),
      (Some (withoutModel (model d) (orEmpty (stage1PendingModels m)))).
    destruct m; reflexivity.
  - destruct (includes _ _); simpl.
    + exists (stage1 m),
        (Some (withoutModel (model d) (orEmpty (stage1PendingModels m)))).
      destruct m; reflexivity.
    + eexists _, _. reflexivity.
Qed.

Lemma on_stage2_response_frame (d : ResponseData) (m : Message) :
  exists s p,
    on_stage2_response d m
    = (Normal tt, set_stage2 s (set_stage2PendingModels p m)).
Proof.
  mut_unfold. simpl. destruct (failed d); simpl.
  - exists (stage2 m),
      (Some (withoutModel (model d) (orEmpty (stage2PendingModels m)))).
    destruct m; reflexivity.
  - destruct (includes _ _); simpl.
    + exists (stage2 m),
        (Some (withoutModel (model d) (orEmpty (stage2PendingModels m)))).
      destruct m; reflexivity.
    + eexists _, _. reflexivity.
Qed.

(** An event whose updater returns normally on the last message. *)
Lemma run_on_last (turn : Turn) (e : Event) (rest : list Event) (st : State)
    (m m' : Message) (body : Mut unit) :
  lastMsgOf st = Some m ->
  bodyOf e = Some body ->
  body m = (Normal tt, m') ->
  run turn (e :: rest) st = run turn rest (withLastMsg m' st)
  /\ lastMsgOf (withLastMsg m' st) = Some m'.
Proof.
  intros Hm Hb Hbody. split; [| apply (lastMsgOf_withLastMsg st m), Hm].
  rewrite run_cons. pose proof (streamCallback_body turn e st) as H.
  rewrite Hb in H. rewrite H, (updateLastMsg_spec _ _ _ Hm), Hbody.
  reflexivity.
Qed.

Lemma arrivals1_frame (turn : Turn) (arrivals : list ResponseData)
    (rest : list Event) :
  forall st m, lastMsgOf st = Some m ->
  exists s p,
    run turn (map stage1_response arrivals ++ rest) st
    = run turn rest
        (withLastMsg (set_stage1 s (set_stage1PendingModels p m)) st).
Proof.
  induction arrivals as [| d ds IH]; intros st m Hm.
  - exists (stage1 m), (stage1PendingModels m). simpl.
    replace (set_stage1 (stage1 m)
               (set_stage1PendingModels (stage1PendingModels m) m))
      with m by (destruct m; reflexivity).
    rewrite (withLastMsg_same _ _ Hm). reflexivity.
  - destruct (on_stage1_response_frame d m) as (s1 & p1 & E1).
    destruct (run_on_last turn (stage1_response d)
                (map stage1_response ds ++ rest) st m _ _ Hm eq_refl E1)
      as [Hrun Hm1].
    destruct (IH _ _ Hm1) as (s & p & Hrest).
    exists s, p. simpl map. simpl app. rewrite Hrun, Hrest.
    rewrite withLastMsg_twice. reflexivity.
Qed.

Lemma arrivals2_frame (turn : Turn) (arrivals : list ResponseData)
    (rest : list Event) :
  forall st m, lastMsgOf st = Some m ->
  exists s p,
    run turn (map stage2_response arrivals ++ rest) st
    = run turn rest
        (withLastMsg (set_stage2 s (set_stage2PendingModels p m)) st).
Proof.
  induction arrivals as [| d ds IH]; intros st m Hm.
  - exists (stage2 m), (stage2PendingModels m). simpl.
    replace (set_stage2 (stage2 m)
               (set_stage2PendingModels (stage2PendingModels m) m))
      with m by (destruct m; reflexivity).
    rewrite (withLastMsg_same _ _ Hm). reflexivity.
  - destruct (on_stage2_response_frame d m) as (s1 & p1 & E1).
    destruct (run_on_last turn (stage2_response d)
                (map stage2_response ds ++ rest) st m _ _ Hm eq_refl E1)
      as [Hrun Hm1].
    destruct (IH _ _ Hm1) as (s & p & Hrest).
    exists s, p. simpl map. simpl app. rewrite Hrun, Hrest.
    rewrite withLastMsg_twice. reflexivity.
Qed.

(** X13.  In a turn, the arrival events that come before the completion
    event of their stage leave no trace: the state after the completion
    event, and so everything that follows, is the one that the completion
    event alone gives. *)
Theorem completion_absorbs_arrivals (turn : Turn) (st : State) (m : Message)
    (l : Loading.t) (arrivals : list ResponseData)
    (data : list ResponseData) (meta : option Metadata)
    (rest : list Event) :
  lastMsgOf st = Some m ->
  loading m = Some l ->
  run turn (map stage1_response arrivals ++ stage1_complete data :: rest) st
  = run turn (stage1_complete data :: rest) st
  /\ run turn (map stage2_response arrivals
               ++ stage2_complete data meta :: rest) st
     = run turn (stage2_complete data meta :: rest) st.
Proof.
  intros Hm Hl. split.
  - destruct (arrivals1_frame turn arrivals (stage1_complete data :: rest)
                st m Hm) as (s & p & ->).
    pose proof (lastMsgOf_withLastMsg st m
                  (set_stage1 s (set_stage1PendingModels p m)) Hm) as Hm1.
    destruct (run_on_last turn (stage1_complete data) rest _ _
                (snd (on_stage1_complete data m)) _ Hm1 eq_refl) as [-> _].
    { mut_unfold. destruct m. simpl in *. rewrite Hl. reflexivity. }
    destruct (run_on_last turn (stage1_complete data) rest st m
                (snd (on_stage1_complete data m)) _ Hm eq_refl) as [-> _].
    { mut_unfold. simpl. rewrite Hl. reflexivity. }
    rewrite withLastMsg_twice. reflexivity.
  - destruct (arrivals2_frame turn arrivals
                (stage2_complete data meta :: rest) st m Hm) as (s & p & ->).
    pose proof (lastMsgOf_withLastMsg st m
                  (set_stage2 s (set_stage2PendingModels p m)) Hm) as Hm1.
    destruct (run_on_last turn (stage2_complete data meta) rest _ _
                (snd (on_stage2_complete data meta m)) _ Hm1 eq_refl)
      as [-> _].
    { mut_unfold. destruct m. simpl in *. rewrite Hl. reflexivity. }
    destruct (run_on_last turn (stage2_complete data meta) rest st m
                (snd (on_stage2_complete data meta m)) _ Hm eq_refl)
      as [-> _].
    { mut_unfold. simpl. rewrite Hl. reflexivity. }
    rewrite withLastMsg_twice. reflexivity.
Qed.

Lemma completion_absorbs_arrivals_witness :
  lastMsgOf freshTurn = Some assistantMessage
  /\ loading assistantMessage = Some (Loading.mk false false false)
  /\ run firstTurn
       (map stage1_response [answer "m1" "hi"; failure "m2"]
        ++ [stage1_complete [answer "m1" "hi"]; stage3_start]) freshTurn
     = run firstTurn [stage1_complete [answer "m1" "hi"]; stage3_start]
         freshTurn.
Proof.
  split; [reflexivity | split; [reflexivity |]].
  apply (completion_absorbs_arrivals firstTurn freshTurn assistantMessage
           (Loading.mk false false false) [answer "m1" "hi"; failure "m2"]
           [answer "m1" "hi"] None [stage3_start]); reflexivity.
Defined.

(** The same steps from a state given by its last message. *)
Lemma run_step (turn : Turn) (e : Event) (rest : list Event) (st : State)
    (m0 mk : Message) (body : Mut unit) :
  lastMsgOf st = Some m0 ->
  bodyOf e = Some body ->
  fst (body mk) = Normal tt ->
  run turn (e :: rest) (withLastMsg mk st)
  = run turn rest (withLastMsg (snd (body mk)) st).
Proof.
  intros Hm Hb Hn.
  destruct (run_on_last turn e rest (withLastMsg mk st) mk (snd (body mk))
              body (lastMsgOf_withLastMsg st m0 mk Hm) Hb) as [-> _].
  - destruct (body mk) as [c m']. simpl in *. rewrite Hn. reflexivity.
  - rewrite withLastMsg_twice. reflexivity.
Qed.

Lemma run_arrivals1 (turn : Turn) (arrivals : list ResponseData)
    (rest : list Event) (st : State) (m0 mk : Message) :
  lastMsgOf st = Some m0 ->
  exists s p,
    run turn (map stage1_response arrivals ++ rest) (withLastMsg mk st)
    = run turn rest
        (withLastMsg (set_stage1 s (set_stage1PendingModels p mk)) st).
Proof.
  intros Hm.
  destruct (arrivals1_frame turn arrivals rest (withLastMsg mk st) mk
              (lastMsgOf_withLastMsg st m0 mk Hm)) as (s & p & E).
  exists s, p. rewrite E, withLastMsg_twice. reflexivity.
Qed.

Lemma run_arrivals2 (turn : Turn) (arrivals : list ResponseData)
    (rest : list Event) (st : State) (m0 mk : Message) :
  lastMsgOf st = Some m0 ->
  exists s p,
    run turn (map stage2_response arrivals ++ rest) (withLastMsg mk st)
    = run turn rest
        (withLastMsg (set_stage2 s (set_stage2PendingModels p mk)) st).
Proof.
  intros Hm.
  destruct (arrivals2_frame turn arrivals rest (withLastMsg mk st) mk
              (lastMsgOf_withLastMsg st m0 mk Hm)) as (s & p & E).
  exists s, p. rewrite E, withLastMsg_twice. reflexivity.
Qed.

Ltac step_last Hm :=
  match goal with
  | |- run ?t (?e :: ?rest) (withLastMsg ?mk ?st) = _ =>
      let b := eval cbv [bodyOf] in (bodyOf e) in
      match b with
      | Some ?body =>
          rewrite (run_step t e rest st _ mk body Hm eq_refl)
            by (try reflexivity;
                match goal with
                | |- context [on_stage2_start _ ?meta] =>
                    destruct meta as [[[? |] ?] |]; reflexivity
                end)
      end
  end.

(** X14.  The stream of a whole turn, whatever its arrival events: all the
    events are processed, and the message of the turn then holds the
    payloads of the three completion events and the metadata of the
    second, with no stage loading and no model pending; [isLoading] is
    cleared, the list of conversations has been reloaded twice, and the
    rest of the state is as before. *)
Theorem turn_stream_final_state (turn : Turn) (st : State) (m : Message)
    (l : Loading.t) (models1 : option (list string))
    (arrivals1 data1 : list ResponseData) (models2 : option (list string))
    (meta1 : option Metadata) (arrivals2 data2 : list ResponseData)
    (meta2 : option Metadata) (answer : string) :
  lastMsgOf st = Some m ->
  loading m = Some l ->
  run turn
    (turnEvents models1 arrivals1 data1 models2 meta1 arrivals2 data2 meta2
       answer) st
  = Done
      (setIsLoading false
         (loadConversations
            (loadConversations
               (withLastMsg
                  (mkMessage (role m) (content m) (images m) (Some data1)
                     (Some data2) (Some answer) meta2
                     (Some (Loading.mk false false false)) (Some [])
                     (Some [])) st)))).
Proof.
  intros Hm Hl. unfold turnEvents.
  rewrite <- (withLastMsg_same st m Hm) at 1.
  destruct m as [r c i s1 s2 s3 md ld p1 p2]. simpl in Hl. subst ld.
  destruct l as [l1 l2 l3].
  simpl app.
  step_last Hm.
  destruct (run_arrivals1 turn arrivals1
              (stage1_complete data1 :: stage2_start models2 meta1
                 :: map stage2_response arrivals2
                 ++ [stage2_complete data2 meta2; stage3_start;
                     stage3_complete answer; title_complete; complete])
              st _ (snd (on_stage1_start models1
                           (mkMessage r c i s1 s2 s3 md
                              (Some (Loading.mk l1 l2 l3)) p1 p2))) Hm)
    as (sa & pa & ->).
  step_last Hm. step_last Hm.
  match goal with
  | |- run _ _ (withLastMsg ?mk _) = _ =>
      destruct (run_arrivals2 turn arrivals2
                  [stage2_complete data2 meta2; stage3_start;
                   stage3_complete answer; title_complete; complete]
                  st _ mk Hm) as (sb & pb & ->)
  end.
  step_last Hm. step_last Hm. step_last Hm.
  rewrite !run_cons. simpl run. simpl streamCallback. cbv iota.
  destruct meta1 as [[[ltm |] agg] |]; reflexivity.
Qed.

Lemma turn_stream_final_state_witness :
  lastMsgOf freshTurn = Some assistantMessage
  /\ loading assistantMessage = Some (Loading.mk false false false)
  /\ option_map stage3
       (lastMsgOf
          (stateOf
             (run firstTurn
                (turnEvents (Some ["m1"; "m2"])
                   [failure "m2"; answer "m1" "hi"] [answer "m1" "hi"]
                   (Some ["m1"; "m2"]) None [critique "m1" "A"]
                   [critique "m1" "A"] None "final") freshTurn)))
     = Some (Some "final"%string).
Proof.
  split; [reflexivity | split; [reflexivity |]].
  rewrite (turn_stream_final_state firstTurn freshTurn assistantMessage
             (Loading.mk false false false) (Some ["m1"; "m2"])
             [failure "m2"; answer "m1" "hi"] [answer "m1" "hi"]
             (Some ["m1"; "m2"]) None [critique "m1" "A"]
             [critique "m1" "A"] None "final" eq_refl eq_refl).
  reflexivity.
Defined.

Lemma run_from_last (turn : Turn) (events : list Event) (st : State)
    (m : Message) :
  lastMsgOf st = Some m ->
  run turn events st = run turn events (withLastMsg m st).
Proof. intros H. rewrite (withLastMsg_same st m H). reflexivity. Qed.

(** X15.  From the start event of stage 2 that carries the label-to-model
    map, and through the arrival events of the stage, the map handed to
    [Stage2] is the map of the event, so that the rankings can be shown
    with model names as they come in; a start event without a map leaves
    the map of the message as it is. *)
Theorem label_map_available_from_start (turn : Turn) (st : State)
    (m : Message) (l : Loading.t) (models : option (list string))
    (meta : option Metadata) (arrivals : list ResponseData) :
  lastMsgOf st = Some m ->
  loading m = Some l ->
  exists st',
    run turn (stage2_start models meta :: map stage2_response arrivals) st
    = Done st'
    /\ (forall ltm agg, meta = Some (mkMetadata (Some ltm) agg) ->
        labelToModelOf st' = Some ltm)
    /\ (meta = None \/ (exists agg, meta = Some (mkMetadata None agg)) ->
        labelToModelOf st' = labelToModelOf st).
Proof.
  intros Hm Hl.
  assert (Hshown : labelToModelOf st
                   = match metadata m with
                     | Some md => label_to_model md
                     | None => None
                     end)
    by (unfold labelToModelOf; rewrite Hm; reflexivity).
  assert (Hrun : exists sb pb,
            run turn (stage2_start models meta
                        :: map stage2_response arrivals ++ []) st
            = Done (withLastMsg
                      (set_stage2 sb
                         (set_stage2PendingModels pb
                            (snd (on_stage2_start models meta m)))) st)).
  { rewrite (run_from_last turn _ st m Hm).
    rewrite (run_step turn (stage2_start models meta) _ st m m
               (on_stage2_start models meta) Hm eq_refl)
      by (mut_unfold; simpl; rewrite Hl;
          destruct meta as [[[? |] ?] |]; reflexivity).
    destruct (run_arrivals2 turn arrivals [] st m
                (snd (on_stage2_start models meta m)) Hm) as (sb & pb & ->).
    exists sb, pb. reflexivity. }
  rewrite app_nil_r in Hrun. destruct Hrun as (sb & pb & ->).
  destruct m as [r c i s1 s2 s3 md ld p1 p2]. simpl in Hl. subst ld.
  destruct l as [l1 l2 l3].
  eexists. split; [reflexivity |].
  unfold labelToModelOf at 1 2.
  rewrite !(lastMsgOf_withLastMsg st _ _ Hm). split.
  - intros ltm agg ->. reflexivity.
  - rewrite Hshown. intros [-> | [agg ->]]; reflexivity.
Qed.

Lemma label_map_available_from_start_witness :
  lastMsgOf freshTurn = Some assistantMessage
  /\ loading assistantMessage = Some (Loading.mk false false false)
  /\ labelToModelOf
       (stateOf (run firstTurn
                   (stage2_start (Some ["m1"])
                      (Some (mkMetadata (Some Text.twoAnswers) None))
                    :: map stage2_response [critique "m1" "A"]) freshTurn))
     = Some Text.twoAnswers.
Proof.
  split; [reflexivity | split; [reflexivity |]].
  destruct (label_map_available_from_start firstTurn freshTurn
              assistantMessage (Loading.mk false false false) (Some ["m1"])
              (Some (mkMetadata (Some Text.twoAnswers) None))
              [critique "m1" "A"] eq_refl eq_refl) as (st' & -> & H & _).
  apply (H Text.twoAnswers None). reflexivity.
Defined.

Lemma NoDup_app_parts {A} (a b : list A) :
  NoDup (a ++ b) <->
  NoDup a /\ NoDup b /\ (forall x, In x a -> ~ In x b).
Proof.
  induction a as [| y a IH]; simpl.
  - split; [intros H; repeat split; [constructor | exact H | intros x []]
           | intros (_ & H & _); exact H].
  - split.
    + intros H. inversion H as [| ? ? Hy Hab]; subst.
      apply IH in Hab. destruct Hab as (Ha & Hb & Hd).
      split; [constructor; [intros Hin; apply Hy, in_app_iff; left; exact Hin
                           | exact Ha] |].
      split; [exact Hb |].
      intros x [<- | Hx]; [intros Hin; apply Hy, in_app_iff; right; exact Hin
                          | apply Hd, Hx].
    + intros (Ha & Hb & Hd). inversion Ha as [| ? ? Hy Ha']; subst.
      constructor.
      * intros Hin. apply in_app_iff in Hin. destruct Hin as [Hin | Hin];
          [contradiction | apply (Hd y); [left; reflexivity | exact Hin]].
      * apply IH. split; [exact Ha' | split; [exact Hb |]].
        intros x Hx. apply Hd. right. exact Hx.
Qed.

(** A guarded append together with the removal of the model from the
    pending list keeps the models of the two lists distinct and among the
    models dispatched. *)
Lemma guarded_step_distinct (models : list string)
    (l l' : list ResponseData) (p : list string) (d : ResponseData) :
  l' = l \/ (l' = l ++ [d] /\ failed d = false
             /\ ~ In (model d) (map model l)) ->
  In (model d) models ->
  NoDup (map model l ++ p) /\ incl (map model l ++ p) models ->
  NoDup (map model l' ++ withoutModel (model d) p)
  /\ incl (map model l' ++ withoutModel (model d) p) models.
Proof.
  intros Hl Hd [Hnd Hincl].
  apply NoDup_app_parts in Hnd. destruct Hnd as (Ha & Hb & Hdis).
  assert (Hf : NoDup (withoutModel (model d) p)) by apply NoDup_filter, Hb.
  assert (Hfin : forall x, In x (withoutModel (model d) p) ->
                           In x p /\ x <> model d)
    by (intros x Hx; apply withoutModel_In, Hx).
  destruct Hl as [-> | (-> & _ & Hnot)].
  - split.
    + apply NoDup_app_parts. split; [exact Ha | split; [exact Hf |]].
      intros x Hx Hxp. apply (Hdis x Hx), Hfin, Hxp.
    + intros x Hx. apply Hincl, in_app_iff. apply in_app_iff in Hx.
      destruct Hx as [Hx | Hx]; [left; exact Hx | right; apply Hfin, Hx].
  - rewrite map_app. simpl map. split.
    + apply NoDup_app_parts.
      split; [| split; [exact Hf |]].
      * apply NoDup_app_parts. split; [exact Ha |].
        split; [constructor; [intros [] | constructor] |].
        intros x Hx [<- | []]. contradiction.
      * intros x Hx Hxp. apply in_app_iff in Hx.
        destruct (Hfin x Hxp) as [Hp Hne].
        destruct Hx as [Hx | [<- | []]];
          [apply (Hdis x Hx Hp) | apply Hne; reflexivity].
    + intros x Hx. apply in_app_iff in Hx. destruct Hx as [Hx | Hx].
      * apply in_app_iff in Hx. destruct Hx as [Hx | [<- | []]];
          [apply Hincl, in_app_iff; left; exact Hx | exact Hd].
      * apply Hincl, in_app_iff. right. apply Hfin, Hx.
Qed.

Lemma on_stage1_response_pending (d : ResponseData) (m : Message) :
  orEmpty (stage1PendingModels (snd (on_stage1_response d m)))
  = withoutModel (model d) (orEmpty (stage1PendingModels m)).
Proof.
  mut_unfold. simpl. destruct (failed d); simpl; [reflexivity |].
  destruct (includes _ _); reflexivity.
Qed.

Lemma on_stage2_response_pending (d : ResponseData) (m : Message) :
  orEmpty (stage2PendingModels (snd (on_stage2_response d m)))
  = withoutModel (model d) (orEmpty (stage2PendingModels m)).
Proof.
  mut_unfold. simpl. destruct (failed d); simpl; [reflexivity |].
  destruct (includes _ _); reflexivity.
Qed.

Lemma arrivals1_distinct (turn : Turn) (st : State) (m0 : Message)
    (models : list string) (arrivals : list ResponseData) :
  lastMsgOf st = Some m0 ->
  (forall d, In d arrivals -> In (model d) models) ->
  forall mk,
    NoDup (map model (orEmpty (stage1 mk))
           ++ orEmpty (stage1PendingModels mk))
    /\ incl (map model (orEmpty (stage1 mk))
             ++ orEmpty (stage1PendingModels mk)) models ->
    exists mk',
      run turn (map stage1_response arrivals) (withLastMsg mk st)
      = Done (withLastMsg mk' st)
      /\ NoDup (map model (orEmpty (stage1 mk'))
                ++ orEmpty (stage1PendingModels mk'))
      /\ incl (map model (orEmpty (stage1 mk'))
               ++ orEmpty (stage1PendingModels mk')) models.
Proof.
  intros Hm. induction arrivals as [| d ds IH]; intros Hall mk Hinv.
  - exists mk. split; [reflexivity | exact Hinv].
  - simpl map.
    rewrite (run_step turn (stage1_response d) _ st m0 mk
               (on_stage1_response d) Hm eq_refl)
      by apply on_stage1_response_normal.
    destruct (IH (fun x Hx => Hall x (or_intror Hx))
                (snd (on_stage1_response d mk))) as (mk' & Hrun & Hinv').
    + rewrite on_stage1_response_pending.
      apply (guarded_step_distinct models (orEmpty (stage1 mk)) _ _ d);
        [apply on_stage1_response_list | apply Hall; left; reflexivity
        | exact Hinv].
    + exists mk'. split; [exact Hrun | exact Hinv'].
Qed.

Lemma arrivals2_distinct (turn : Turn) (st : State) (m0 : Message)
    (models : list string) (arrivals : list ResponseData) :
  lastMsgOf st = Some m0 ->
  (forall d, In d arrivals -> In (model d) models) ->
  forall mk,
    NoDup (map model (orEmpty (stage2 mk))
           ++ orEmpty (stage2PendingModels mk))
    /\ incl (map model (orEmpty (stage2 mk))
             ++ orEmpty (stage2PendingModels mk)) models ->
    exists mk',
      run turn (map stage2_response arrivals) (withLastMsg mk st)
      = Done (withLastMsg mk' st)
      /\ NoDup (map model (orEmpty (stage2 mk'))
                ++ orEmpty (stage2PendingModels mk'))
      /\ incl (map model (orEmpty (stage2 mk'))
               ++ orEmpty (stage2PendingModels mk')) models.
Proof.
  intros Hm. induction arrivals as [| d ds IH]; intros Hall mk Hinv.
  - exists mk. split; [reflexivity | exact Hinv].
  - simpl map.
    rewrite (run_step turn (stage2_response d) _ st m0 mk
               (on_stage2_response d) Hm eq_refl)
      by apply on_stage2_response_normal.
    destruct (IH (fun x Hx => Hall x (or_intror Hx))
                (snd (on_stage2_response d mk))) as (mk' & Hrun & Hinv').
    + rewrite on_stage2_response_pending.
      apply (guarded_step_distinct models (orEmpty (stage2 mk)) _ _ d);
        [apply on_stage2_response_list | apply Hall; left; reflexivity
        | exact Hinv].
    + exists mk'. split; [exact Hrun | exact Hinv'].
Qed.

(** X16.  After the start event of a stage with distinct models, and
    through arrival events of those models in any order and number, the
    models that have answered and the models still pending are all
    distinct and among the models of the start event, so that the
    progress shown, answers out of answers plus pending, never counts more
    than the models dispatched. *)
Theorem stage_progress_bounded (turn : Turn) (st : State) (m : Message)
    (l : Loading.t) (models : list string) (meta : option Metadata)
    (arrivals : list ResponseData) :
  lastMsgOf st = Some m ->
  loading m = Some l ->
  NoDup models ->
  (forall d, In d arrivals -> In (model d) models) ->
  (exists st',
      run turn (stage1_start (Some models) :: map stage1_response arrivals) st
      = Done st'
      /\ NoDup (map model (stage1Of st') ++ pending1Of st')
      /\ incl (map model (stage1Of st') ++ pending1Of st') models
      /\ List.length (stage1Of st') + List.length (pending1Of st')
         <= List.length models)
  /\ (exists st',
      run turn (stage2_start (Some models) meta
                  :: map stage2_response arrivals) st
      = Done st'
      /\ NoDup (map model (stage2Of st') ++ pending2Of st')
      /\ incl (map model (stage2Of st') ++ pending2Of st') models
      /\ List.length (stage2Of st') + List.length (pending2Of st')
         <= List.length models).
Proof.
  intros Hm Hl Hnd Hall.
  assert (Hbound : forall (a : list ResponseData) (p : list string),
            NoDup (map model a ++ p) -> incl (map model a ++ p) models ->
            List.length a + List.length p <= List.length models).
  { intros a p H1 H2. pose proof (NoDup_incl_length H1 H2) as H.
    rewrite length_app, length_map in H. exact H. }
  split.
  - rewrite (run_from_last turn _ st m Hm).
    rewrite (run_step turn (stage1_start (Some models)) _ st m m
               (on_stage1_start (Some models)) Hm eq_refl) by (mut_unfold; simpl; rewrite Hl; reflexivity).
    destruct (arrivals1_distinct turn st m models arrivals Hm Hall
                (snd (on_stage1_start (Some models) m)))
      as (mk & -> & H1 & H2).
    { mut_unfold. simpl. rewrite Hl. simpl.
      split; [exact Hnd | apply incl_refl]. }
    eexists. split; [reflexivity |]. unfold stage1Of, pending1Of.
    rewrite !(ofLastMsg_withLastMsg _ st m _ Hm).
    split; [exact H1 | split; [exact H2 | apply Hbound; assumption]].
  - rewrite (run_from_last turn _ st m Hm).
    rewrite (run_step turn (stage2_start (Some models) meta) _ st m m
               (on_stage2_start (Some models) meta) Hm eq_refl)
      by (mut_unfold; simpl; rewrite Hl;
          destruct meta as [[[? |] ?] |]; reflexivity).
    destruct (arrivals2_distinct turn st m models arrivals Hm Hall
                (snd (on_stage2_start (Some models) meta m)))
      as (mk & -> & H1 & H2).
    { mut_unfold. simpl. rewrite Hl.
      destruct meta as [[[? |] ?] |]; simpl;
        (split; [exact Hnd | apply incl_refl]). }
    eexists. split; [reflexivity |]. unfold stage2Of, pending2Of.
    rewrite !(ofLastMsg_withLastMsg _ st m _ Hm).
    split; [exact H1 | split; [exact H2 | apply Hbound; assumption]].
Qed.

Lemma stage_progress_bounded_witness :
  lastMsgOf freshTurn = Some assistantMessage
  /\ loading assistantMessage = Some (Loading.mk false false false)
  /\ NoDup ["m1"; "m2"; "m3"]%string
  /\ exists st',
       run firstTurn
         (stage1_start (Some ["m1"; "m2"; "m3"])
          :: map stage1_response
               [answer "m2" "b"; failure "m1"; answer "m2" "again"])
         freshTurn = Done st'
       /\ List.length (stage1Of st') + List.length (pending1Of st') <= 3.
Proof.
  assert (Hnd : NoDup ["m1"; "m2"; "m3"]%string)
    by (repeat constructor; simpl; intuition discriminate).
  split; [reflexivity | split; [reflexivity | split; [exact Hnd |]]].
  destruct (stage_progress_bounded firstTurn freshTurn assistantMessage
              (Loading.mk false false false) ["m1"; "m2"; "m3"]%string None
              [answer "m2" "b"; failure "m1"; answer "m2" "again"]
              eq_refl eq_refl Hnd)
    as [(st' & Hrun & _ & _ & Hlen) _].
  - intros d [<- | [<- | [<- | []]]]; simpl; tauto.
  - exists st'. split; [exact Hrun | exact Hlen].
Defined.

(** A sequence of events leaves the messages before the last one and the
    number of messages as they are. *)
Lemma run_frame (turn : Turn) (events : list Event) :
  forall st,
    removelast (messagesOf (stateOf (run turn events st)))
    = removelast (messagesOf st)
    /\ List.length (messagesOf (stateOf (run turn events st)))
       = List.length (messagesOf st).
Proof.
  induction events as [| e rest IH]; intros st; [split; reflexivity |].
  rewrite run_cons. destruct (streamCallback_frame turn e st) as [H1 H2].
  destruct (streamCallback turn e st) as [st1 | er st1]; simpl in H1, H2.
  - destruct (IH st1) as [H3 H4]. rewrite H3, H4. split; assumption.
  - split; assumption.
Qed.

Lemma beginTurn_messages (turn : Turn) (st st1 : State) :
  beginTurn turn st = Some st1 ->
  messagesOf st1
  = (messagesOf st ++ [userMessage turn]) ++ [assistantMessage]
  /\ lastMsgOf st1 = Some assistantMessage
  /\ isLoading st1 = true.
Proof.
  unfold beginTurn, messagesOf, lastMsgOf.
  destruct (currentConversationId st); [| discriminate].
  destruct (currentConversation st) as [prev |]; [| discriminate].
  intros H. injection H as <-. simpl.
  split; [reflexivity | split; [apply lastOf_snoc | reflexivity]].
Qed.

(** X17.  When the request of a turn fails, at the start or after any
    number of events, the [catch] of [handleSendMessage] gives back the
    messages that the conversation had before the turn: the events have
    touched the last message only, and the two messages of the turn are
    removed; [isLoading] is cleared. *)
Theorem send_failure_restores_messages (turn : Turn) (st st1 : State)
    (events : list Event) (errorText : string) :
  beginTurn turn st = Some st1 ->
  exists st',
    removeOptimisticMessages errorText (stateOf (run turn events st1))
    = Done st'
    /\ messagesOf st' = messagesOf st
    /\ isLoading st' = false.
Proof.
  intros Hb. destruct (beginTurn_messages turn st st1 Hb) as (Hmsgs & _ & _).
  destruct (run_frame turn events st1) as [Hinit Hlen].
  remember (stateOf (run turn events st1)) as st2 eqn:E2. clear E2.
  remember (messagesOf st) as before eqn:Eb. clear Eb.
  rewrite Hmsgs, removelast_last in Hinit.
  rewrite Hmsgs, !length_app in Hlen. simpl in Hlen.
  unfold removeOptimisticMessages. unfold messagesOf in Hinit, Hlen.
  simpl currentConversation.
  destruct (currentConversation st2) as [conv |]; [| simpl in Hlen; lia].
  eexists. split; [reflexivity |]. split; [| reflexivity].
  unfold messagesOf. simpl. unfold sliceOffTwo.
  destruct (exists_last (l := messages conv)) as (init & x & Ex).
  { intros Hnil. rewrite Hnil in Hlen. simpl in Hlen. lia. }
  rewrite Ex in Hinit, Hlen |- *. rewrite removelast_last in Hinit.
  subst init. rewrite !length_app in *. simpl List.length in *.
  replace (List.length before + 1 + 1 - 2)
    with (List.length before + 0) by lia.
  rewrite <- !app_assoc. rewrite firstn_app_2. simpl. apply app_nil_r.
Qed.

Lemma send_failure_restores_messages_witness :
  beginTurn firstTurn emptyConversation = Some freshTurn
  /\ exists st',
       removeOptimisticMessages "network"
         (stateOf (run firstTurn
                     [stage1_start (Some ["m1"]);
                      stage1_response (answer "m1" "hi")] freshTurn))
       = Done st'
       /\ messagesOf st' = messagesOf emptyConversation.
Proof.
  split; [reflexivity |].
  destruct (send_failure_restores_messages firstTurn emptyConversation
              freshTurn
              [stage1_start (Some ["m1"]); stage1_response (answer "m1" "hi")]
              "network" eq_refl) as (st' & H1 & H2 & _).
  exists st'. split; [exact H1 | exact H2].
Defined.

(** X18.  From the beginning of a turn and through every event of its
    stream the conversation has its messages, two more than before the
    turn, so that the input form, which is rendered for a conversation
    without messages only, is not rendered: a conversation takes one
    question. *)
Theorem form_hidden_during_turn (turn : Turn) (st st1 : State)
    (events : list Event) :
  beginTurn turn st = Some st1 ->
  formRendered (stateOf (run turn events st1)) = false
  /\ List.length (messagesOf (stateOf (run turn events st1)))
     = List.length (messagesOf st) + 2.
Proof.
  intros Hb. destruct (beginTurn_messages turn st st1 Hb) as (Hmsgs & _ & _).
  destruct (run_frame turn events st1) as [_ Hlen].
  rewrite Hmsgs, !length_app in Hlen. simpl in Hlen.
  split; [| lia].
  unfold formRendered. unfold messagesOf in Hlen at 1.
  destruct (currentConversation (stateOf (run turn events st1)));
    [| reflexivity].
  apply Nat.eqb_neq. lia.
Qed.

Lemma form_hidden_during_turn_witness :
  beginTurn firstTurn emptyConversation = Some freshTurn
  /\ formRendered emptyConversation = true
  /\ formRendered
       (stateOf (run firstTurn [stage1_start (Some ["m1"]); error "x"]
                   freshTurn)) = false.
Proof.
  split; [reflexivity | split; [reflexivity |]].
  apply (form_hidden_during_turn firstTurn emptyConversation freshTurn
           [stage1_start (Some ["m1"]); error "x"] eq_refl).
Defined.

(** What is shown of a stage depends on its list, on its pending list and
    on its loading flag only. *)
Lemma mountsStage_cases (items : option (list ResponseData))
    (pending : option (list string)) :
  mountsStage items pending
  = negb (Tabs.rendersNothing (orEmpty items) (orEmpty pending)).
Proof.
  unfold mountsStage, Tabs.rendersNothing.
  destruct (orEmpty items), (orEmpty pending); reflexivity.
Qed.

(** X19.  From the start event of a stage and through its arrival events,
    whatever they are, something of the stage is on the screen: the spinner
    of the stage as long as no answer has been stored, the component of the
    stage from the first stored answer on; and [ChatInterface] mounts the
    component exactly when the component does not render nothing. *)
Theorem stage_in_progress_visible (turn : Turn) (st : State) (m : Message)
    (l : Loading.t) (models : option (list string)) (meta : option Metadata)
    (arrivals : list ResponseData) :
  lastMsgOf st = Some m ->
  loading m = Some l ->
  (exists st' m',
      run turn (stage1_start models :: map stage1_response arrivals) st
      = Done st'
      /\ lastMsgOf st' = Some m'
      /\ (showsStage1Loading m' = true <-> orEmpty (stage1 m') = [])
      /\ (orEmpty (stage1 m') <> [] -> mountsStage1 m' = true)
      /\ mountsStage1 m'
         = negb (Tabs.rendersNothing (orEmpty (stage1 m'))
                   (orEmpty (stage1PendingModels m'))))
  /\ (exists st' m',
      run turn (stage2_start models meta :: map stage2_response arrivals) st
      = Done st'
      /\ lastMsgOf st' = Some m'
      /\ (showsStage2Loading m' = true <-> orEmpty (stage2 m') = [])
      /\ (orEmpty (stage2 m') <> [] -> mountsStage2 m' = true)
      /\ mountsStage2 m'
         = negb (Tabs.rendersNothing (orEmpty (stage2 m'))
                   (orEmpty (stage2PendingModels m')))).
Proof.
  intros Hm Hl. split.
  - assert (Hrun : exists sb pb,
              run turn (stage1_start models
                          :: map stage1_response arrivals ++ []) st
              = Done (withLastMsg
                        (set_stage1 sb
                           (set_stage1PendingModels pb
                              (snd (on_stage1_start models m)))) st)).
    { rewrite (run_from_last turn _ st m Hm).
      rewrite (run_step turn (stage1_start models) _ st m m
                 (on_stage1_start models) Hm eq_refl)
        by (mut_unfold; simpl; rewrite Hl; reflexivity).
      destruct (run_arrivals1 turn arrivals [] st m
                  (snd (on_stage1_start models m)) Hm) as (sb & pb & ->).
      exists sb, pb. reflexivity. }
    rewrite app_nil_r in Hrun. destruct Hrun as (sb & pb & ->).
    destruct m as [r c i s1 s2 s3 md ld p1 p2]. simpl in Hl. subst ld.
    destruct l as [l1 l2 l3].
    eexists _, _. split; [reflexivity |].
    split; [apply (lastMsgOf_withLastMsg st _ _ Hm) |].
    unfold showsStage1Loading, mountsStage1. cbn.
    split; [| split; [| apply mountsStage_cases]].
    + destruct (orEmpty sb); cbn; split; congruence.
    + unfold mountsStage. destruct (orEmpty sb); [congruence | reflexivity].
  - assert (Hrun : exists sb pb,
              run turn (stage2_start models meta
                          :: map stage2_response arrivals ++ []) st
              = Done (withLastMsg
                        (set_stage2 sb
                           (set_stage2PendingModels pb
                              (snd (on_stage2_start models meta m)))) st)).
    { rewrite (run_from_last turn _ st m Hm).
      rewrite (run_step turn (stage2_start models meta) _ st m m
                 (on_stage2_start models meta) Hm eq_refl)
        by (mut_unfold; simpl; rewrite Hl;
            destruct meta as [[[? |] ?] |]; reflexivity).
      destruct (run_arrivals2 turn arrivals [] st m
                  (snd (on_stage2_start models meta m)) Hm) as (sb & pb & ->).
      exists sb, pb. reflexivity. }
    rewrite app_nil_r in Hrun. destruct Hrun as (sb & pb & ->).
    destruct m as [r c i s1 s2 s3 md ld p1 p2]. simpl in Hl. subst ld.
    destruct l as [l1 l2 l3].
    eexists _, _. split; [reflexivity |].
    split; [apply (lastMsgOf_withLastMsg st _ _ Hm) |].
    unfold showsStage2Loading, mountsStage2.
    destruct meta as [[[ltm |] agg] |]; cbn;
      (split; [| split; [| apply mountsStage_cases]];
       [ destruct (orEmpty sb); cbn; split; congruence
       | unfold mountsStage; destruct (orEmpty sb);
         [congruence | reflexivity] ]).
Qed.

Lemma stage_in_progress_visible_witness :
  lastMsgOf freshTurn = Some assistantMessage
  /\ loading assistantMessage = Some (Loading.mk false false false)
  /\ exists st' m',
       run firstTurn
         (stage1_start (Some ["m1"; "m2"])
          :: map stage1_response [failure "m1"; failure "m2"]) freshTurn
       = Done st'
       /\ lastMsgOf st' = Some m'
       /\ (showsStage1Loading m' = true <-> orEmpty (stage1 m') = []).
Proof.
  split; [reflexivity | split; [reflexivity |]].
  destruct (stage_in_progress_visible firstTurn freshTurn assistantMessage
              (Loading.mk false false false) (Some ["m1"; "m2"]) None
              [failure "m1"; failure "m2"] eq_refl eq_refl)
    as [(st' & m' & H1 & H2 & H3 & _) _].
  exists st', m'. split; [exact H1 | split; [exact H2 | exact H3]].
Defined.

(** X20.  Once the completion event of a stage has been processed, after
    any arrival events, the spinner of the stage is gone, and the component
    of the stage is mounted exactly when the payload of the event holds an
    entry: when every model has failed, nothing of the stage stays on the
    screen. *)
Theorem completed_stage_display (turn : Turn) (st : State) (m : Message)
    (l : Loading.t) (arrivals data : list ResponseData)
    (meta : option Metadata) :
  lastMsgOf st = Some m ->
  loading m = Some l ->
  (exists st' m',
      run turn (map stage1_response arrivals ++ [stage1_complete data]) st
      = Done st'
      /\ lastMsgOf st' = Some m'
      /\ showsStage1Loading m' = false
      /\ (mountsStage1 m' = true <-> data <> []))
  /\ (exists st' m',
      run turn (map stage2_response arrivals ++ [stage2_complete data meta])
        st
      = Done st'
      /\ lastMsgOf st' = Some m'
      /\ showsStage2Loading m' = false
      /\ (mountsStage2 m' = true <-> data <> [])).
Proof.
  intros Hm Hl. split.
  - destruct (arrivals1_frame turn arrivals [stage1_complete data] st m Hm)
      as (s & p & ->).
    rewrite (run_step turn (stage1_complete data) [] st m _
               (on_stage1_complete data) Hm eq_refl)
      by (mut_unfold; destruct m; simpl in *; rewrite Hl; reflexivity).
    destruct m as [r c i s1 s2 s3 md ld p1 p2]. simpl in Hl. subst ld.
    destruct l as [l1 l2 l3].
    eexists _, _. split; [reflexivity |].
    split; [apply (lastMsgOf_withLastMsg st _ _ Hm) |].
    unfold showsStage1Loading, mountsStage1, mountsStage. cbn.
    split; [reflexivity |].
    destruct data; cbn; split; congruence.
  - destruct (arrivals2_frame turn arrivals [stage2_complete data meta] st m
                Hm) as (s & p & ->).
    rewrite (run_step turn (stage2_complete data meta) [] st m _
               (on_stage2_complete data meta) Hm eq_refl)
      by (mut_unfold; destruct m; simpl in *; rewrite Hl; reflexivity).
    destruct m as [r c i s1 s2 s3 md ld p1 p2]. simpl in Hl. subst ld.
    destruct l as [l1 l2 l3].
    eexists _, _. split; [reflexivity |].
    split; [apply (lastMsgOf_withLastMsg st _ _ Hm) |].
    unfold showsStage2Loading, mountsStage2, mountsStage. cbn.
    split; [reflexivity |].
    destruct data; cbn; split; congruence.
Qed.

Lemma completed_stage_display_witness :
  lastMsgOf freshTurn = Some assistantMessage
  /\ loading assistantMessage = Some (Loading.mk false false false)
  /\ exists st' m',
       run firstTurn
         (map stage1_response [failure "m1"] ++ [stage1_complete []])
         freshTurn
       = Done st'
       /\ lastMsgOf st' = Some m'
       /\ showsStage1Loading m' = false
       /\ mountsStage1 m' <> true.
Proof.
  split; [reflexivity | split; [reflexivity |]].
  destruct (completed_stage_display firstTurn freshTurn assistantMessage
              (Loading.mk false false false) [failure "m1"] [] None
              eq_refl eq_refl)
    as [(st' & m' & H1 & H2 & H3 & H4) _].
  exists st', m'. split; [exact H1 | split; [exact H2 | split; [exact H3 |]]].
  intros Hmounted. apply (proj1 H4 Hmounted). reflexivity.
Defined.

(** ** C2: duplicate arrivals *)

Lemma on_stage1_response_exact (d : ResponseData) (m : Message) :
  orEmpty (stage1 (snd (on_stage1_response d m)))
  = appendOnce (orEmpty (stage1 m)) d.
Proof.
  mut_unfold. unfold appendOnce. simpl.
  destruct (failed d); simpl; [reflexivity |].
  destruct (includes _ _); reflexivity.
Qed.

Lemma on_stage2_response_exact (d : ResponseData) (m : Message) :
  orEmpty (stage2 (snd (on_stage2_response d m)))
  = appendOnce (orEmpty (stage2 m)) d.
Proof.
  mut_unfold. unfold appendOnce. simpl.
  destruct (failed d); simpl; [reflexivity |].
  destruct (includes _ _); reflexivity.
Qed.

(** The list of a stage after a sequence of arrival events. *)
Lemma arrivals1_list (turn : Turn) (st : State) (m0 : Message)
    (arrivals : list ResponseData) :
  lastMsgOf st = Some m0 ->
  forall mk,
    exists mk',
      run turn (map stage1_response arrivals) (withLastMsg mk st)
      = Done (withLastMsg mk' st)
      /\ orEmpty (stage1 mk')
         = fold_left appendOnce arrivals (orEmpty (stage1 mk)).
Proof.
  intros Hm. induction arrivals as [| d ds IH]; intros mk.
  - exists mk. split; reflexivity.
  - simpl map.
    rewrite (run_step turn (stage1_response d) _ st m0 mk
               (on_stage1_response d) Hm eq_refl)
      by apply on_stage1_response_normal.
    destruct (IH (snd (on_stage1_response d mk))) as (mk' & Hrun & Hl).
    exists mk'. split; [exact Hrun |].
    rewrite Hl, on_stage1_response_exact. reflexivity.
Qed.

Lemma arrivals2_list (turn : Turn) (st : State) (m0 : Message)
    (arrivals : list ResponseData) :
  lastMsgOf st = Some m0 ->
  forall mk,
    exists mk',
      run turn (map stage2_response arrivals) (withLastMsg mk st)
      = Done (withLastMsg mk' st)
      /\ orEmpty (stage2 mk')
         = fold_left appendOnce arrivals (orEmpty (stage2 mk)).
Proof.
  intros Hm. induction arrivals as [| d ds IH]; intros mk.
  - exists mk. split; reflexivity.
  - simpl map.
    rewrite (run_step turn (stage2_response d) _ st m0 mk
               (on_stage2_response d) Hm eq_refl)
      by apply on_stage2_response_normal.
    destruct (IH (snd (on_stage2_response d mk))) as (mk' & Hrun & Hl).
    exists mk'. split; [exact Hrun |].
    rewrite Hl, on_stage2_response_exact. reflexivity.
Qed.

(** One guarded append: the models of the list stay distinct, the entries
    stay, the only new entry is the data of a successful invocation, whose
    model has an entry afterwards; and the data of a model that has an
    entry is dropped. *)
Lemma appendOnce_spec (l : list ResponseData) (d : ResponseData) :
  NoDup (map model l) ->
  NoDup (map model (appendOnce l d))
  /\ incl l (appendOnce l d)
  /\ (forall x, In x (appendOnce l d) -> In x l \/ (x = d /\ failed d = false))
  /\ (failed d = false -> In (model d) (map model (appendOnce l d)))
  /\ (In (model d) (map model l) -> appendOnce l d = l).
Proof.
  intros Hnd. unfold appendOnce.
  destruct (failed d) eqn:Ef; simpl.
  - split; [exact Hnd |]. split; [apply incl_refl |].
    split; [intros x Hx; left; exact Hx |].
    split; [discriminate | reflexivity].
  - destruct (includes (map model l) (model d)) eqn:Ei; simpl.
    + apply includes_In in Ei.
      split; [exact Hnd |]. split; [apply incl_refl |].
      split; [intros x Hx; left; exact Hx |].
      split; [intros _; exact Ei | reflexivity].
    + assert (Hnot : ~ In (model d) (map model l)).
      { intros H. apply includes_In in H. rewrite H in Ei. discriminate Ei. }
      split; [rewrite map_app; apply NoDup_snoc; assumption |].
      split; [apply incl_appl, incl_refl |].
      split.
      * intros x Hx. apply in_app_iff in Hx.
        destruct Hx as [Hx | [<- | []]]; [left; exact Hx | right].
        split; reflexivity.
      * split; [| intros H; contradiction].
        intros _. rewrite map_app. apply in_app_iff. right. left. reflexivity.
Qed.

Lemma fold_appendOnce_spec (arrivals : list ResponseData) :
  forall l,
    NoDup (map model l) ->
    NoDup (map model (fold_left appendOnce arrivals l))
    /\ incl l (fold_left appendOnce arrivals l)
    /\ (forall x, In x (fold_left appendOnce arrivals l) ->
          In x l \/ (In x arrivals /\ failed x = false))
    /\ (forall d, In d arrivals -> failed d = false ->
          In (model d) (map model (fold_left appendOnce arrivals l))).
Proof.
  induction arrivals as [| d ds IH]; intros l Hnd.
  - split; [exact Hnd |]. split; [apply incl_refl |].
    split; [intros x Hx; left; exact Hx | intros d []].
  - destruct (appendOnce_spec l d Hnd) as (H1 & H2 & H3 & H4 & _).
    destruct (IH (appendOnce l d) H1) as (I1 & I2 & I3 & I4).
    simpl fold_left. split; [exact I1 |].
    split; [apply (incl_tran H2 I2) |]. split.
    + intros x Hx. destruct (I3 x Hx) as [Hx' | [Hx' Hf]].
      * destruct (H3 x Hx') as [Hl | [-> Hf]]; [left; exact Hl | right].
        split; [left; reflexivity | exact Hf].
      * right. split; [right; exact Hx' | exact Hf].
    + intros d' [<- | Hd'] Hf; [| apply I4; assumption].
      specialize (H4 Hf). apply in_map_iff in H4.
      destruct H4 as (x & Hx & Hin). rewrite <- Hx. apply in_map, I2, Hin.
Qed.


(** The lists of the two stages from the start event of the stage. *)
Lemma stage1_from_start (turn : Turn) (st : State) (m : Message)
    (l : Loading.t) (models : option (list string))
    (arrivals : list ResponseData) :
  lastMsgOf st = Some m ->
  loading m = Some l ->
  exists st',
    run turn (stage1_start models :: map stage1_response arrivals) st
    = Done st'
    /\ (exists m', lastMsgOf st' = Some m')
    /\ stage1Of st' = fold_left appendOnce arrivals [].
Proof.
  intros Hm Hl.
  rewrite (run_from_last turn _ st m Hm).
  rewrite (run_step turn (stage1_start models) _ st m m
             (on_stage1_start models) Hm eq_refl)
    by (mut_unfold; simpl; rewrite Hl; reflexivity).
  destruct (arrivals1_list turn st m arrivals Hm
              (snd (on_stage1_start models m))) as (mk' & -> & Hlist).
  eexists. split; [reflexivity |].
  split; [exists mk'; apply (lastMsgOf_withLastMsg st m _ Hm) |].
  unfold stage1Of. rewrite (ofLastMsg_withLastMsg _ st m _ Hm), Hlist.
  mut_unfold. simpl. rewrite Hl. reflexivity.
Qed.

Lemma stage2_from_start (turn : Turn) (st : State) (m : Message)
    (l : Loading.t) (models : option (list string)) (meta : option Metadata)
    (arrivals : list ResponseData) :
  lastMsgOf st = Some m ->
  loading m = Some l ->
  exists st',
    run turn (stage2_start models meta :: map stage2_response arrivals) st
    = Done st'
    /\ (exists m', lastMsgOf st' = Some m')
    /\ stage2Of st' = fold_left appendOnce arrivals [].
Proof.
  intros Hm Hl.
  rewrite (run_from_last turn _ st m Hm).
  rewrite (run_step turn (stage2_start models meta) _ st m m
             (on_stage2_start models meta) Hm eq_refl)
    by (mut_unfold; simpl; rewrite Hl;
        destruct meta as [[[? |] ?] |]; reflexivity).
  destruct (arrivals2_list turn st m arrivals Hm
              (snd (on_stage2_start models meta m))) as (mk' & -> & Hlist).
  eexists. split; [reflexivity |].
  split; [exists mk'; apply (lastMsgOf_withLastMsg st m _ Hm) |].
  unfold stage2Of. rewrite (ofLastMsg_withLastMsg _ st m _ Hm), Hlist.
  mut_unfold. simpl. rewrite Hl.
  destruct meta as [[[? |] ?] |]; reflexivity.
Qed.

(** What the guarded appends from the empty list give. *)
Lemma guarded_list_spec (arrivals : list ResponseData) :
  (forall modelName,
      entriesFor modelName (fold_left appendOnce arrivals []) <= 1)
  /\ NoDup (map model (fold_left appendOnce arrivals []))
  /\ (forall d, In d (fold_left appendOnce arrivals []) ->
        In d arrivals /\ failed d = false)
  /\ (forall d, In d arrivals -> failed d = false ->
        In (model d) (map model (fold_left appendOnce arrivals []))).
Proof.
  destruct (fold_appendOnce_spec arrivals [] (NoDup_nil _))
    as (H1 & _ & H3 & H4).
  split; [| split; [exact H1 | split; [| exact H4]]].
  - intros modelName. unfold entriesFor.
    apply (proj1 (NoDup_count_occ string_dec _) H1).
  - intros d Hd. destruct (H3 d Hd) as [[] | H]. exact H.
Qed.

(** C2: in a turn, from the start event of a stage and through arrival
    events of the stage in any number and order, two or more of them for
    one model in particular, the list of the stage holds at most one entry
    for every model.  The entries are data of the arrival events that did
    not fail, every model of such an event has its entry, and the data of
    a further arrival event of a model that has an entry is dropped: the
    reducer checks that the model is not present before it appends.  Of
    two arrival events of one model, the data of the first is kept. *)
Theorem duplicate_arrivals_safe (turn : Turn) (st : State) (m : Message)
    (l : Loading.t) (models : option (list string)) (meta : option Metadata)
    (arrivals : list ResponseData) :
  lastMsgOf st = Some m ->
  loading m = Some l ->
  (exists st',
      run turn (stage1_start models :: map stage1_response arrivals) st
      = Done st'
      /\ (forall modelName, entriesFor modelName (stage1Of st') <= 1)
      /\ NoDup (map model (stage1Of st'))
      /\ (forall d, In d (stage1Of st') -> In d arrivals /\ failed d = false)
      /\ (forall d, In d arrivals -> failed d = false ->
            In (model d) (map model (stage1Of st')))
      /\ (forall d, In (model d) (map model (stage1Of st')) ->
            stage1Of (stateOf (streamCallback turn (stage1_response d) st'))
            = stage1Of st'))
  /\ (exists st',
      run turn (stage2_start models meta :: map stage2_response arrivals) st
      = Done st'
      /\ (forall modelName, entriesFor modelName (stage2Of st') <= 1)
      /\ NoDup (map model (stage2Of st'))
      /\ (forall d, In d (stage2Of st') -> In d arrivals /\ failed d = false)
      /\ (forall d, In d arrivals -> failed d = false ->
            In (model d) (map model (stage2Of st')))
      /\ (forall d, In (model d) (map model (stage2Of st')) ->
            stage2Of (stateOf (streamCallback turn (stage2_response d) st'))
            = stage2Of st'))
  /\ (forall d1 d2,
        model d2 = model d1 -> failed d1 = false ->
        stage1Of (stateOf (run turn [stage1_start models; stage1_response d1;
                                     stage1_response d2] st)) = [d1]
        /\ stage2Of (stateOf (run turn [stage2_start models meta;
                                        stage2_response d1;
                                        stage2_response d2] st)) = [d1]).
Proof.
  intros Hm Hl. split; [| split].
  - destruct (stage1_from_start turn st m l models arrivals Hm Hl)
      as (st' & Hrun & [m' Hm'] & Hlist).
    destruct (guarded_list_spec arrivals) as (G1 & G2 & G3 & G4).
    exists st'. rewrite Hlist.
    split; [exact Hrun |]. split; [exact G1 |]. split; [exact G2 |].
    split; [exact G3 |]. split; [exact G4 |].
    intros d Hd. rewrite (arrival1_done turn d st' m' Hm'). simpl stateOf.
    unfold stage1Of in Hlist |- *.
    rewrite (ofLastMsg_withLastMsg _ st' m' _ Hm'), on_stage1_response_exact.
    rewrite (ofLastMsg_some _ st' m' Hm') in Hlist. rewrite Hlist.
    apply appendOnce_spec; assumption.
  - destruct (stage2_from_start turn st m l models meta arrivals Hm Hl)
      as (st' & Hrun & [m' Hm'] & Hlist).
    destruct (guarded_list_spec arrivals) as (G1 & G2 & G3 & G4).
    exists st'. rewrite Hlist.
    split; [exact Hrun |]. split; [exact G1 |]. split; [exact G2 |].
    split; [exact G3 |]. split; [exact G4 |].
    intros d Hd. rewrite (arrival2_done turn d st' m' Hm'). simpl stateOf.
    unfold stage2Of in Hlist |- *.
    rewrite (ofLastMsg_withLastMsg _ st' m' _ Hm'), on_stage2_response_exact.
    rewrite (ofLastMsg_some _ st' m' Hm') in Hlist. rewrite Hlist.
    apply appendOnce_spec; assumption.
  - intros d1 d2 Hsame Hf.
    assert (Hlist : fold_left appendOnce [d1; d2] [] = [d1]).
    { simpl. unfold appendOnce at 2. rewrite Hf. simpl.
      unfold appendOnce. simpl. rewrite Hsame, String.eqb_refl.
      rewrite andb_false_r. reflexivity. }
    split.
    + destruct (stage1_from_start turn st m l models [d1; d2] Hm Hl)
        as (st' & Hrun & _ & Hl').
      simpl map in Hrun. rewrite Hrun. simpl stateOf.
      rewrite Hl'. exact Hlist.
    + destruct (stage2_from_start turn st m l models meta [d1; d2] Hm Hl)
        as (st' & Hrun & _ & Hl').
      simpl map in Hrun. rewrite Hrun. simpl stateOf.
      rewrite Hl'. exact Hlist.
Qed.

Lemma duplicate_arrivals_safe_witness :
  lastMsgOf freshTurn = Some assistantMessage
  /\ loading assistantMessage = Some (Loading.mk false false false)
  /\ (exists st',
        run firstTurn
          (stage1_start (Some ["m1"; "m2"])
           :: map stage1_response
                [answer "m1" "hello"; failure "m2";
                 answer "m1" "hello again"; answer "m2" "late"]) freshTurn
        = Done st'
        /\ forall modelName, entriesFor modelName (stage1Of st') <= 1)
  /\ stage1Of
       (stateOf (run firstTurn
                   [stage1_start (Some ["m1"; "m2"]);
                    stage1_response (answer "m1" "hello");
                    stage1_response (answer "m1" "hello again")] freshTurn))
     = [answer "m1" "hello"].
Proof.
  split; [reflexivity | split; [reflexivity |]].
  destruct (duplicate_arrivals_safe firstTurn freshTurn assistantMessage
              (Loading.mk false false false) (Some ["m1"; "m2"]) None
              [answer "m1" "hello"; failure "m2"; answer "m1" "hello again";
               answer "m2" "late"] eq_refl eq_refl)
    as ((st' & Hrun & Hone & _) & _ & Htwo).
  split; [exists st'; split; [exact Hrun | exact Hone] |].
  apply (Htwo (answer "m1" "hello") (answer "m1" "hello again"));
    reflexivity.
Defined.


(** ** C3: events of a turn that has been left *)







End TurnStream.

(* ================================================================== *)
(** * ChatInterface.jsx: images from the clipboard *)
(* ================================================================== *)

Section Clipboard.

Import ChatInterface.

Lemma pastedFiles_none (items : list ClipboardItem) :
  forallb (fun item => negb (prefix "image/" (itemType item))) items = true ->
  pastedFiles items = [].
Proof.
  induction items as [| item rest IH]; [reflexivity |].
  cbn [forallb pastedFiles]. intros H. apply andb_prop in H as [Hi Hr].
  apply negb_true_iff in Hi. rewrite Hi. apply IH, Hr.
Qed.

(** X21.  A paste without an item whose type starts with [image/] leaves
    the form as it is and shows no alert.  The file of a pasted image item
    goes through the checks of a selected file, the limit first: with a
    full form the alert is that of the limit, whatever the file; below the
    limit a file that [processFile] rejects gives the alert of its error
    and no image, and a file that it accepts is added at the end. *)
Theorem paste_outcomes (items : list ClipboardItem) (item : ClipboardItem)
    (file : File) (st : State) :
  (forallb (fun item => negb (prefix "image/" (itemType item))) items = true ->
   handlePaste items st = st)
  /\ (prefix "image/" (itemType item) = true ->
      getAsFile item = Some file ->
      ((MAX_IMAGES <= List.length (images st))%nat ->
       handlePaste [item] st
       = mkState (input st) (images st)
           (alerts st ++ [MaximumImages])%list)
      /\ ((List.length (images st) < MAX_IMAGES)%nat ->
          forall err, processFile file = inr err ->
          handlePaste [item] st
          = mkState (input st) (images st)
              (alerts st ++ [ErrorMessage err])%list)
      /\ ((List.length (images st) < MAX_IMAGES)%nat ->
          forall url, processFile file = inl url ->
          handlePaste [item] st
          = mkState (input st) (images st ++ [url])%list (alerts st))).
Proof.
  split.
  - intros H. unfold handlePaste. rewrite (pastedFiles_none items H).
    reflexivity.
  - intros Hi Hf.
    assert (Hp : handlePaste [item] st = addImages (images st) [file] st).
    { unfold handlePaste. cbn [pastedFiles]. rewrite Hi, Hf. reflexivity. }
    rewrite Hp. unfold addImages. rewrite addImagesLoop_cons.
    cbn [List.length]. rewrite Nat.add_0_r.
    split; [| split].
    + intros Hfull. apply Nat.leb_le in Hfull. rewrite Hfull. reflexivity.
    + intros Hroom err He. apply Nat.leb_gt in Hroom.
      rewrite Hroom, He. cbn. reflexivity.
    + intros Hroom url Hu. apply Nat.leb_gt in Hroom.
      rewrite Hroom, Hu. cbn. rewrite app_nil_r. reflexivity.
Qed.

Lemma paste_outcomes_witness :
  prefix "image/" (itemType (mkItem "image/bmp"
                               (Some (mkFile "shot.bmp" "image/bmp" 2048
                                        (Some "data:image/bmp"))))) = true
  /\ (List.length (images initial) < MAX_IMAGES)%nat
  /\ handlePaste [mkItem "image/bmp"
                    (Some (mkFile "shot.bmp" "image/bmp" 2048
                             (Some "data:image/bmp")))] initial
     = mkState "" [] [ErrorMessage (InvalidFileType "image/bmp")].
Proof.
  split; [reflexivity |]. split; [unfold MAX_IMAGES; simpl; lia |].
  destruct (paste_outcomes []
              (mkItem "image/bmp"
                 (Some (mkFile "shot.bmp" "image/bmp" 2048
                          (Some "data:image/bmp"))))
              (mkFile "shot.bmp" "image/bmp" 2048 (Some "data:image/bmp"))
              initial) as [_ H].
  destruct (H eq_refl eq_refl) as (_ & Hrej & _).
  apply Hrej; [unfold MAX_IMAGES; simpl; lia | reflexivity].
Defined.

End Clipboard.
